(** * SeedVR2 video upscaler: batch planning, phase drivers and colour correction

    A shallow embedding of [src/core/generation.py] and [src/utils/color_fix.py].

    - Python integers are [Z]; [//] and [%] are [Z.div] and [Z.modulo]
      (both floor towards minus infinity for a positive divisor).
    - A tensor is seen along the dimension the code works on: a video is the
      list of its time slices, a context slot array is a list of options
      ([None] is Python's [None]).
    - Tensor values are exact numbers: [Q] where the code only adds,
      multiplies and compares, [R] where it takes a square root.
    - A Python exception is an [Error] value. *)

From Stdlib Require Import ZArith List Lia Bool QArith Qminmax Qround Reals Lra Psatz.
From Stdlib Require Import Sorting.Mergesort Orders.
From stdpp Require Import base list.
Import ListNotations.

Open Scope Z_scope.

(* ================================================================== *)
(** * Python helpers *)

Module Py.

(** [range(lo, hi)] *)
Definition range (lo hi : Z) : list Z :=
  map (fun k => lo + Z.of_nat k) (seq 0 (Z.to_nat (hi - lo))).

(** [range(0, stop, step)] for a positive [step]; a negative step gives the
    empty range (a zero step raises in Python and is never reached with
    [batch_size >= 1]). *)
Definition range_step (stop step : Z) : list Z :=
  if 0 <? step
  then map (fun k => Z.of_nat k * step)
           (seq 0 (Z.to_nat ((stop + step - 1) / step)))
  else [].

(** [max(l) if l else d] *)
Definition max_or (d : Z) (l : list Z) : Z :=
  match l with
  | [] => d
  | x :: l' => fold_left Z.max l' x
  end.

(** [sum(l)] *)
Definition sum (l : list Z) : Z := fold_right Z.add 0 l.

(** [l[:n]] *)
Definition take {A : Type} (n : Z) (l : list A) : list A :=
  if 0 <=? n then firstn (Z.to_nat n) l
  else firstn (length l - Z.to_nat (- n)) l.

(** [l[start:stop]] for [0 <= start]. *)
Definition slice {A : Type} (l : list A) (start stop : Z) : list A :=
  firstn (Z.to_nat (stop - start)) (skipn (Z.to_nat start) l).

End Py.

(* ================================================================== *)
(** * Batch planner: [calculate_optimal_batch_params] *)

Module Planner.

Record BatchParams : Type := mkBatchParams
  { step : Z;
    temporal_overlap : Z;
    best_batch : Z;
    padding_waste : Z;
    is_optimal : bool }.

(** The "next 4n+1 target" of the planner's loop body. *)
Definition target (frames_in_batch : Z) : Z :=
  if frames_in_batch mod 4 =? 1
  then frames_in_batch
  else ((frames_in_batch - 1) / 4 + 1) * 4 + 1.

(** The [while current_frame < total_frames] loop.  [fuel] bounds the
    number of iterations; [None] means the bound was reached. *)
Fixpoint waste_loop (fuel : nat) (total_frames batch_size step : Z)
         (current_frame padding_waste : Z) : option Z :=
  if current_frame <? total_frames then
    match fuel with
    | O => None
    | S fuel' =>
        let frames_in_batch := Z.min batch_size (total_frames - current_frame) in
        let padding_waste := padding_waste + (target frames_in_batch - frames_in_batch) in
        let current_frame :=
          current_frame + (if 0 <? step then step else batch_size) in
        waste_loop fuel' total_frames batch_size step current_frame padding_waste
    end
  else Some padding_waste.

Definition effective_step (batch_size temporal_overlap : Z) : Z * Z :=
  let step := batch_size - temporal_overlap in
  if step <=? 0 then (batch_size, 0) else (step, temporal_overlap).

Definition valid_sizes (total_frames : Z) : list Z :=
  List.filter (fun i => i mod 4 =? 1) (Py.range 1 (total_frames + 1)).

Definition calculate_optimal_batch_params (fuel : nat)
           (total_frames batch_size temporal_overlap : Z) : option BatchParams :=
  let '(step, temporal_overlap) := effective_step batch_size temporal_overlap in
  let best_batch := Py.max_or 1 (valid_sizes total_frames) in
  match waste_loop fuel total_frames batch_size step 0 0 with
  | None => None
  | Some padding_waste =>
      Some {| step := step;
              temporal_overlap := temporal_overlap;
              best_batch := best_batch;
              padding_waste := padding_waste;
              is_optimal := padding_waste =? 0 |}
  end.

(** ** The planner as the specification words it *)

(** "pad up to the next 4n+1": the first of [f], [f+1], [f+2], [f+3]
    that leaves remainder 1. *)
Definition spec_next_4n1 (f : Z) : Z :=
  if f mod 4 =? 1 then f
  else if (f + 1) mod 4 =? 1 then f + 1
  else if (f + 2) mod 4 =? 1 then f + 2
  else f + 3.

(** "at position p, take min(batch_size, total_frames - p) frames, pad up
    to the next 4n+1, accumulate the pad; advance by step". *)
Definition spec_padding_waste (total_frames batch_size step : Z) : Z :=
  Py.sum (map (fun p =>
                 let frames := Z.min batch_size (total_frames - p) in
                 spec_next_4n1 frames - frames)
              (Py.range_step total_frames step)).

(** The pad of the batch that starts at position [p]. *)
Definition pad_at (total_frames batch_size p : Z) : Z :=
  let frames := Z.min batch_size (total_frames - p) in
  spec_next_4n1 frames - frames.

End Planner.

(* ================================================================== *)
(** * Frame conformer: [cut_videos] *)

Module Conformer.

Section Video.
(** A time slice of the tensor: everything at one index of dimension 1. *)
Context {Slice : Type}.

(** [videos[:, -1:]]: the last slice, kept as a (possibly empty) video. *)
Definition last_slice (videos : list Slice) : list Slice :=
  skipn (length videos - 1) videos.

(** [x.expand(-1, n, -1, -1)] of a one-slice tensor; [None] when the
    tensor does not have exactly one slice (torch raises). *)
Definition expand (x : list Slice) (n : Z) : option (list Slice) :=
  match x with
  | [s] => Some (repeat s (Z.to_nat n))
  | _ => None
  end.

Definition padding_needed (t : Z) : Z := (4 - (t mod 4)) mod 4 + 1.

Definition cut_videos (videos : list Slice) : option (list Slice) :=
  let t := Z.of_nat (length videos) in
  if t mod 4 =? 1 then Some videos
  else
    match expand (last_slice videos) (padding_needed t) with
    | Some last_frame => Some (videos ++ last_frame)
    | None => None
    end.
End Video.

(** The conformer as the specification words it. *)
Definition spec_target (t : Z) : Z := ((t - 1) / 4 + 1) * 4 + 1.

End Conformer.

(* ================================================================== *)
(** * Exceptions, dtypes and the generation context *)

Inductive Error : Type :=
| ValueError
| IndexError
| KeyError
| TypeError
| NameError
| RuntimeError.

Inductive Result (A : Type) : Type :=
| Ok (a : A)
| Raise (e : Error).
Arguments Ok {A} a.
Arguments Raise {A} e.

Definition bind {A B : Type} (m : Result A) (k : A -> Result B) : Result B :=
  match m with
  | Ok a => k a
  | Raise e => Raise e
  end.

Notation "'let*' x ':=' m 'in' k" := (bind m (fun x => k))
  (at level 10, x name, m at level 100, k at level 200).

(** [l[i]] for a non-negative index. *)
Definition index {A : Type} (l : list A) (i : nat) : Result A :=
  match l !! i with
  | Some a => Ok a
  | None => Raise IndexError
  end.

(** [l[i] = x] for a non-negative index. *)
Definition assign {A : Type} (l : list A) (i : nat) (x : A) : Result (list A) :=
  if (i <? length l)%nat then Ok (<[i := x]> l) else Raise IndexError.

(** [len([x for x in l if x is not None])] *)
Definition count_valid {A : Type} (l : list (option A)) : nat :=
  length (List.filter (fun x => match x with Some _ => true | None => false end) l).

(** Truth value of a context entry holding a list: an absent key, [None]
    and the empty list are all false. *)
Definition truthy {A : Type} (v : option (list A)) : bool :=
  match v with
  | Some (_ :: _) => true
  | _ => false
  end.

Inductive DType : Type :=
| float8_e4m3fn
| float8_e5m2
| float16
| bfloat16
| float32.

Definition DType_eqb (a b : DType) : bool :=
  match a, b with
  | float8_e4m3fn, float8_e4m3fn | float8_e5m2, float8_e5m2
  | float16, float16 | bfloat16, bfloat16 | float32, float32 => true
  | _, _ => false
  end.

(** What [next(model.parameters()).dtype] gives for the two models of the
    runner; [None] when the inspection raises (no model, no parameters). *)
Record Runner : Type := mkRunner
  { dit_dtype : option DType;
    vae_dtype : option DType }.

(** The cache context of the runner, [ctx['cache_context']]: the flags
    Phase 1 reads and writes (as truth values).  The dictionary is made by
    [configure_runner] and put into the context by the caller;
    [vae_newly_cached] is false until Phase 1 sets the key. *)
Record CacheContext : Type := mkCacheContext
  { vae_cache : bool;
    cached_vae : bool;
    vae_newly_cached : bool }.

Section Pipeline.

(** Payloads the orchestrator moves around without looking inside. *)
Context {Frame Latent Alpha Rgb Style Embeds : Type}.

(** A decoded sample, [(T, C, H, W)]: the list of its frames. *)
Definition Sample : Type := list Frame.

(** The context dictionary.  A field is [None] when the key is absent or
    holds Python's [None]; [is_rgba] is [ctx.get('is_rgba', False)];
    [cache_context] is [None] when the key is absent. *)
Record Ctx : Type := mkCtx
  { compute_dtype : option DType;
    autocast_dtype : option DType;
    text_embeds : option Embeds;
    total_frames : option Z;
    is_rgba : bool;
    all_latents : option (list (option Latent));
    all_upscaled_latents : option (list (option Latent));
    all_ori_lengths : option (list (option Z));
    all_transformed_videos : option (list (option Style));
    all_alpha_channels : option (list (option Alpha));
    all_input_rgb : option (list (option Rgb));
    batch_samples : option (list (option (list Sample)));
    final_video : option (list (option Frame));
    cache_context : option CacheContext }.

Definition set_precision (c a : option DType) (ctx : Ctx) : Ctx :=
  mkCtx c a (text_embeds ctx) (total_frames ctx) (is_rgba ctx)
        (all_latents ctx) (all_upscaled_latents ctx) (all_ori_lengths ctx)
        (all_transformed_videos ctx) (all_alpha_channels ctx)
        (all_input_rgb ctx) (batch_samples ctx) (final_video ctx)
        (cache_context ctx).

Definition set_text_embeds (v : option Embeds) (ctx : Ctx) : Ctx :=
  mkCtx (compute_dtype ctx) (autocast_dtype ctx) v (total_frames ctx)
        (is_rgba ctx) (all_latents ctx) (all_upscaled_latents ctx)
        (all_ori_lengths ctx) (all_transformed_videos ctx)
        (all_alpha_channels ctx) (all_input_rgb ctx) (batch_samples ctx)
        (final_video ctx)
        (cache_context ctx).

Definition set_all_latents (v : option (list (option Latent))) (ctx : Ctx) : Ctx :=
  mkCtx (compute_dtype ctx) (autocast_dtype ctx) (text_embeds ctx)
        (total_frames ctx) (is_rgba ctx) v (all_upscaled_latents ctx)
        (all_ori_lengths ctx) (all_transformed_videos ctx)
        (all_alpha_channels ctx) (all_input_rgb ctx) (batch_samples ctx)
        (final_video ctx)
        (cache_context ctx).

Definition set_all_upscaled_latents (v : option (list (option Latent)))
           (ctx : Ctx) : Ctx :=
  mkCtx (compute_dtype ctx) (autocast_dtype ctx) (text_embeds ctx)
        (total_frames ctx) (is_rgba ctx) (all_latents ctx) v
        (all_ori_lengths ctx) (all_transformed_videos ctx)
        (all_alpha_channels ctx) (all_input_rgb ctx) (batch_samples ctx)
        (final_video ctx)
        (cache_context ctx).

Definition set_all_ori_lengths (v : option (list (option Z))) (ctx : Ctx) : Ctx :=
  mkCtx (compute_dtype ctx) (autocast_dtype ctx) (text_embeds ctx)
        (total_frames ctx) (is_rgba ctx) (all_latents ctx)
        (all_upscaled_latents ctx) v (all_transformed_videos ctx)
        (all_alpha_channels ctx) (all_input_rgb ctx) (batch_samples ctx)
        (final_video ctx)
        (cache_context ctx).

Definition set_all_transformed_videos (v : option (list (option Style)))
           (ctx : Ctx) : Ctx :=
  mkCtx (compute_dtype ctx) (autocast_dtype ctx) (text_embeds ctx)
        (total_frames ctx) (is_rgba ctx) (all_latents ctx)
        (all_upscaled_latents ctx) (all_ori_lengths ctx) v
        (all_alpha_channels ctx) (all_input_rgb ctx) (batch_samples ctx)
        (final_video ctx)
        (cache_context ctx).

Definition set_alpha (a : option (list (option Alpha)))
           (r : option (list (option Rgb))) (ctx : Ctx) : Ctx :=
  mkCtx (compute_dtype ctx) (autocast_dtype ctx) (text_embeds ctx)
        (total_frames ctx) (is_rgba ctx) (all_latents ctx)
        (all_upscaled_latents ctx) (all_ori_lengths ctx)
        (all_transformed_videos ctx) a r (batch_samples ctx) (final_video ctx)
        (cache_context ctx).

Definition set_batch_samples (v : option (list (option (list Sample))))
           (ctx : Ctx) : Ctx :=
  mkCtx (compute_dtype ctx) (autocast_dtype ctx) (text_embeds ctx)
        (total_frames ctx) (is_rgba ctx) (all_latents ctx)
        (all_upscaled_latents ctx) (all_ori_lengths ctx)
        (all_transformed_videos ctx) (all_alpha_channels ctx)
        (all_input_rgb ctx) v (final_video ctx)
        (cache_context ctx).

Definition set_final_video (v : option (list (option Frame))) (ctx : Ctx) : Ctx :=
  mkCtx (compute_dtype ctx) (autocast_dtype ctx) (text_embeds ctx)
        (total_frames ctx) (is_rgba ctx) (all_latents ctx)
        (all_upscaled_latents ctx) (all_ori_lengths ctx)
        (all_transformed_videos ctx) (all_alpha_channels ctx)
        (all_input_rgb ctx) (batch_samples ctx) v
        (cache_context ctx).

Definition set_cache_context (v : option CacheContext) (ctx : Ctx) : Ctx :=
  mkCtx (compute_dtype ctx) (autocast_dtype ctx) (text_embeds ctx)
        (total_frames ctx) (is_rgba ctx) (all_latents ctx)
        (all_upscaled_latents ctx) (all_ori_lengths ctx)
        (all_transformed_videos ctx) (all_alpha_channels ctx)
        (all_input_rgb ctx) (batch_samples ctx) (final_video ctx) v.

(** [prepare_generation_context]: the fields of the fresh dictionary; it
    holds no [cache_context] key. *)
Definition prepare_generation_context : Ctx :=
  mkCtx None None None None false (Some []) (Some []) None (Some [])
        None None (Some []) None None.

(* ---------------------------------------------------------------- *)
(** ** Precision detector: [_ensure_precision_initialized] *)

Definition _ensure_precision_initialized (ctx : Ctx) (runner : Runner) : Ctx :=
  match compute_dtype ctx with
  | Some _ => ctx (* already initialized *)
  | None =>
      match dit_dtype runner, vae_dtype runner with
      | Some dit, Some _ =>
          if DType_eqb dit float8_e4m3fn || DType_eqb dit float8_e5m2
          then set_precision (Some bfloat16) (Some bfloat16) ctx
          else if DType_eqb dit float16
          then set_precision (Some bfloat16) (Some bfloat16) ctx
          else set_precision (Some bfloat16) (Some bfloat16) ctx
      | _, _ =>
          (* except Exception: fallback to safe defaults *)
          set_precision (Some bfloat16) (Some bfloat16) ctx
      end
  end.

(* ---------------------------------------------------------------- *)
(** ** Phase 1: [encode_all_batches] *)

Inductive ColorCorrection : Type :=
| cc_none | cc_lab | cc_wavelet_adaptive | cc_wavelet | cc_hsv | cc_adain
| cc_unknown.

Definition is_none (c : ColorCorrection) : bool :=
  match c with cc_none => true | _ => false end.

(** "Calculate batching parameters" *)
Definition encode_step (batch_size temporal_overlap : Z) : Z * Z :=
  let step :=
    if 0 <? temporal_overlap then batch_size - temporal_overlap else batch_size in
  if step <=? 0 then (batch_size, 0) else (step, temporal_overlap).

(** "Calculate number of batches": the first loop over
    [range(0, total_frames, step)]. *)
Fixpoint count_batches (idxs : list Z) (total_frames batch_size temporal_overlap : Z)
         (num_encode_batches : nat) : nat :=
  match idxs with
  | [] => num_encode_batches
  | idx :: rest =>
      let end_idx := Z.min (idx + batch_size) total_frames in
      if (0 <? idx) && (end_idx - idx <=? temporal_overlap)
      then num_encode_batches (* break *)
      else count_batches rest total_frames batch_size temporal_overlap
                         (S num_encode_batches)
  end.

(** The index computation of the encoding loop: the windows
    [(start_idx, end_idx)] of the batches it processes, in order. *)
Fixpoint encode_windows_from (idxs : list Z)
         (total_frames batch_size temporal_overlap : Z) : list (Z * Z) :=
  match idxs with
  | [] => []
  | batch_idx :: rest =>
      if batch_idx =? 0 then
        (0, Z.min batch_size total_frames)
          :: encode_windows_from rest total_frames batch_size temporal_overlap
      else
        let start_idx := batch_idx in
        let end_idx := Z.min (start_idx + batch_size) total_frames in
        if end_idx - start_idx <=? temporal_overlap then [] (* break *)
        else (start_idx, end_idx)
               :: encode_windows_from rest total_frames batch_size temporal_overlap
  end.

Definition encode_windows (total_frames batch_size temporal_overlap : Z)
  : list (Z * Z) :=
  let '(step, temporal_overlap) := encode_step batch_size temporal_overlap in
  encode_windows_from (Py.range_step total_frames step)
                      total_frames batch_size temporal_overlap.

(** The padding step of the loop body: [cut_videos] is only called when
    [t % 4 != 1]. *)
Definition conform (video : list Frame) : Result (list Frame) :=
  let t := Z.of_nat (length video) in
  if negb (t mod 4 =? 1) then
    match Conformer.cut_videos video with
    | Some v => Ok v
    | None => Raise RuntimeError
    end
  else Ok video.

(** Where [manage_model_device] is asked to put the VAE. *)
Inductive Target : Type := to_vae_device | to_cpu.

(** External operators of Phase 1. *)
Variable has_alpha : Frame -> bool.              (* [shape[-1] == 4] *)
Variable video_transform : list Frame -> Style.  (* RGB planes, transformed *)
(** The blend of the transformed video with the noise drawn for batch
    [encode_idx] ([torch.randn_like]), at a positive scale. *)
Variable apply_input_noise : Q -> nat -> Style -> Style.
Variable vae_encode : Style -> Latent.
Variable alpha_planes : list Frame -> Alpha.     (* [video[:, 3:4]] *)
Variable rgb_planes : list Frame -> Rgb.         (* [video[:, :3]] *)
(** The model preparation at the head of the [try] block; each call may
    raise.  [materialize_vae_encoder] is the materialization of the VAE or
    the application of its pending configuration, [set_vae] the call of
    [global_cache.set_vae]. *)
Variable materialize_vae_encoder : Result unit.
Variable set_vae : Result unit.
Variable manage_model_device : Target -> Result unit.

(** The transformed video of batch [encode_idx], with the input noise
    blended in when [input_noise_scale > 0]. *)
Definition transform_batch (input_noise_scale : Q) (encode_idx : nat)
           (video : list Frame) : Style :=
  let transformed_video := video_transform video in
  if negb (Qle_bool input_noise_scale 0)
  then apply_input_noise input_noise_scale encode_idx transformed_video
  else transformed_video.

Fixpoint encode_loop (images : list Frame) (input_noise_scale : Q)
         (color_correction : ColorCorrection)
         (windows : list (Z * Z)) (encode_idx : nat) (ctx : Ctx) : Result Ctx :=
  match windows with
  | [] => Ok ctx
  | (start_idx, end_idx) :: rest =>
      let video := Py.slice images start_idx end_idx in
      let ori_length := Z.of_nat (length video) in
      let* video := conform video in
      let transformed_video :=
        transform_batch input_noise_scale encode_idx video in
      let* oris :=
        assign (default [] (all_ori_lengths ctx)) encode_idx (Some ori_length) in
      let ctx := set_all_ori_lengths (Some oris) ctx in
      let* ctx :=
        if negb (is_none color_correction) then
          let* tvs := assign (default [] (all_transformed_videos ctx)) encode_idx
                             (Some transformed_video) in
          Ok (set_all_transformed_videos (Some tvs) ctx)
        else Ok ctx in
      let* ctx :=
        if is_rgba ctx then
          (* [None] * num_encode_batches, the length of [all_latents] *)
          let n := length (default [] (all_latents ctx)) in
          let alphas := default (replicate n None) (all_alpha_channels ctx) in
          let rgbs := default (replicate n None) (all_input_rgb ctx) in
          let* alphas := assign alphas encode_idx (Some (alpha_planes video)) in
          let* rgbs := assign rgbs encode_idx (Some (rgb_planes video)) in
          Ok (set_alpha (Some alphas) (Some rgbs) ctx)
        else Ok ctx in
      let* lats := assign (default [] (all_latents ctx)) encode_idx
                          (Some (vae_encode transformed_video)) in
      encode_loop images input_noise_scale color_correction rest (S encode_idx)
                  (set_all_latents (Some lats) ctx)
  end.

(** The head of the [try] block: the VAE is made ready, then registered
    in the cache named by [ctx['cache_context']] (a [KeyError] when the
    context has no such key), then moved to its device. *)
Definition prepare_vae (ctx : Ctx) : Result Ctx :=
  let* _ := materialize_vae_encoder in
  let* cc :=
    match cache_context ctx with
    | Some cc => Ok cc
    | None => Raise KeyError
    end in
  let* ctx :=
    if vae_cache cc && negb (cached_vae cc) then
      let* _ := set_vae in
      Ok (set_cache_context
            (Some (mkCacheContext (vae_cache cc) (cached_vae cc) true)) ctx)
    else Ok ctx in
  let* _ := manage_model_device to_vae_device in
  Ok ctx.

(** [debug] is [false] for Python's [None]; [images] is [None] when neither
    the argument nor [ctx['input_images']] holds the frames.  The arguments
    come in the order of the source, without [progress_callback] and
    [res_w]. *)
Definition encode_all_batches (runner : Runner) (ctx : option Ctx)
           (images : option (list Frame)) (batch_size : Z)
           (preserve_vram debug : bool) (temporal_overlap : Z)
           (input_noise_scale : Q) (color_correction : ColorCorrection)
  : Result Ctx :=
  if negb debug then Raise ValueError else
  match ctx with
  | None => Raise ValueError
  | Some ctx =>
      let ctx := _ensure_precision_initialized ctx runner in
      match images with
      | None => Raise ValueError
      | Some images =>
          let total := default (Z.of_nat (length images)) (total_frames ctx) in
          if total =? 0 then Raise ValueError
          else
            let* first := index images 0 in
            let '(step, overlap) := encode_step batch_size temporal_overlap in
            let num_encode_batches :=
              count_batches (Py.range_step total step) total batch_size overlap 0 in
            let ctx :=
              mkCtx (compute_dtype ctx) (autocast_dtype ctx) (text_embeds ctx)
                    (Some total) (has_alpha first)
                    (Some (replicate num_encode_batches None))
                    (all_upscaled_latents ctx)
                    (Some (replicate num_encode_batches None))
                    (if negb (is_none color_correction)
                     then Some (replicate num_encode_batches None) else None)
                    (all_alpha_channels ctx) (all_input_rgb ctx)
                    (batch_samples ctx) (final_video ctx)
                    (cache_context ctx) in
            (* try *)
            let r :=
              let* ctx := prepare_vae ctx in
              encode_loop images input_noise_scale color_correction
                          (encode_windows total batch_size temporal_overlap)
                          0 ctx in
            (* finally *)
            if preserve_vram then
              match manage_model_device to_cpu with
              | Ok _ => r
              | Raise e => Raise e
              end
            else r
      end
  end.

(** The original lengths Phase 1 records, as a list of integers. *)
Definition ori_lengths_of (ctx : Ctx) : list Z :=
  omap (fun x => x) (default [] (all_ori_lengths ctx)).

(* ---------------------------------------------------------------- *)
(** ** Phase 2: [upscale_all_batches] *)

Inductive Event : Type :=
| EvLoadTextEmbeddings
| EvConfigureDiffusion
| EvSetSeed
| EvMaterializeDiT
| EvInference (batch_idx : nat)
| EvCleanupDiT
| EvCleanupTextEmbeddings.

Definition is_dit_work (e : Event) : bool :=
  match e with
  | EvMaterializeDiT | EvInference _ => true
  | _ => false
  end.

(** External operators of Phase 2; each may raise.  [materialize_dit]
    stands for the whole preparation before the loop: the materialisation
    of the DiT or its pending configuration, its caching through
    [ctx['cache_context']] and the move to the device. *)
Variable load_text_embeddings : option DType -> Result Embeds.
Variable materialize_dit : Result unit.
Variable dit_inference : Latent -> Result Latent.
Variable cleanup_text_embeddings : Ctx -> Ctx.

(** The [for batch_idx, latent in enumerate(ctx['all_latents'])] loop.  The
    events come back also when the loop raises. *)
Fixpoint upscale_loop (items : list (nat * option Latent)) (upscale_idx : nat)
         (ctx : Ctx) (trace : list Event) : Result Ctx * list Event :=
  match items with
  | [] => (Ok ctx, trace)
  | (batch_idx, None) :: rest => upscale_loop rest upscale_idx ctx trace
  | (batch_idx, Some latent) :: rest =>
      let trace := trace ++ [EvInference batch_idx] in
      match
        (let* upscaled := dit_inference latent in
         let* ups := assign (default [] (all_upscaled_latents ctx)) upscale_idx
                            (Some upscaled) in
         let* lats := assign (default [] (all_latents ctx)) batch_idx None in
         Ok (set_all_latents (Some lats)
               (set_all_upscaled_latents (Some ups) ctx)))
      with
      | Ok ctx => upscale_loop rest (S upscale_idx) ctx trace
      | Raise e => (Raise e, trace)
      end
  end.

Definition enumerate {A : Type} (l : list A) : list (nat * A) :=
  combine (seq 0 (length l)) l.

Definition upscale_all_batches (runner : Runner) (ctx : option Ctx)
           (debug : bool) : Result Ctx * list Event :=
  if negb debug then (Raise ValueError, [])
  else
    match ctx with
    | None => (Raise ValueError, [])
    | Some ctx =>
        let ctx := _ensure_precision_initialized ctx runner in
        if negb (truthy (all_latents ctx)) then (Raise ValueError, [])
        else
          let loaded :=
            match text_embeds ctx with
            | None => [EvLoadTextEmbeddings]
            | Some _ => []
            end in
          match
            (match text_embeds ctx with
             | None =>
                 let* e := load_text_embeddings (compute_dtype ctx) in
                 Ok (set_text_embeds (Some e) ctx)
             | Some _ => Ok ctx
             end)
          with
          | Raise e => (Raise e, loaded)
          | Ok ctx =>
              let trace := loaded ++ [EvConfigureDiffusion; EvSetSeed] in
              let latents := default [] (all_latents ctx) in
              let num_valid_latents := count_valid latents in
              if (num_valid_latents =? 0)%nat then
                (Ok (set_all_upscaled_latents (Some []) ctx), trace)
              else
                let ctx :=
                  set_all_upscaled_latents
                    (Some (replicate num_valid_latents None)) ctx in
                let '(r, trace) :=
                  match materialize_dit with
                  | Raise e => (Raise e, trace ++ [EvMaterializeDiT])
                  | Ok _ =>
                      upscale_loop (enumerate latents) 0 ctx
                                   (trace ++ [EvMaterializeDiT])
                  end in
                (* finally *)
                let trace := trace ++ [EvCleanupDiT; EvCleanupTextEmbeddings] in
                match r with
                | Ok ctx => (Ok (cleanup_text_embeddings ctx), trace)
                | Raise e => (Raise e, trace)
                end
          end
    end.

(* ---------------------------------------------------------------- *)
(** ** Phase 3: [decode_all_batches] *)

(** External operators of Phase 3; each may raise.  [vae_decode] stands for
    the decoder followed by the rearrangement of its output and the move
    to the CPU: the list of samples of one batch. *)
Variable materialize_vae : Result unit.
Variable vae_decode : Latent -> Result (list Sample).

(** The [for batch_idx, upscaled_latent in
    enumerate(ctx['all_upscaled_latents'])] loop. *)
Fixpoint decode_loop (items : list (nat * option Latent)) (decode_idx : nat)
         (ctx : Ctx) : Result Ctx :=
  match items with
  | [] => Ok ctx
  | (batch_idx, None) :: rest => decode_loop rest decode_idx ctx (* continue *)
  | (batch_idx, Some upscaled_latent) :: rest =>
      let* samples_cpu := vae_decode upscaled_latent in
      let* bs := assign (default [] (batch_samples ctx)) decode_idx
                        (Some samples_cpu) in
      let ctx := set_batch_samples (Some bs) ctx in
      let* ups := assign (default [] (all_upscaled_latents ctx)) batch_idx None in
      decode_loop rest (S decode_idx) (set_all_upscaled_latents (Some ups) ctx)
  end.

(** The returned context is the one of a run that does not raise; the
    [finally] clause deletes [all_upscaled_latents] from it. *)
Definition decode_all_batches (runner : Runner) (ctx : option Ctx)
           (debug : bool) : Result Ctx :=
  if negb debug then Raise ValueError
  else
    match ctx with
    | None => Raise ValueError
    | Some ctx =>
        let ctx := _ensure_precision_initialized ctx runner in
        if negb (truthy (all_upscaled_latents ctx)) then Raise ValueError
        else
          let upscaled := default [] (all_upscaled_latents ctx) in
          let* oris :=
            match all_ori_lengths ctx with
            | Some l => Ok l
            | None => Raise KeyError
            end in
          let num_batches := count_valid oris in
          let ctx := set_batch_samples (Some (replicate num_batches None)) ctx in
          let* _ := materialize_vae in
          let* ctx := decode_loop (enumerate upscaled) 0 ctx in
          Ok (set_all_upscaled_latents None ctx)
    end.

(* ---------------------------------------------------------------- *)
(** ** Phase 4: [postprocess_all_batches] *)

(** External operators of Phase 4. *)
Variable process_alpha_for_batch :
  option (list Sample) -> option Alpha -> option Rgb -> list Sample.
(** Alpha detach, colour-correction dispatch and alpha re-attach of one
    sample against its transformed video.  The call raises when the
    method does: [wavelet_reconstruction], [adaptive_instance_normalization]
    and [wavelet_adaptive_color_correction] add or expand the two tensors
    frame by frame, so they raise when the sample and the stored video
    differ in their number of frames. *)
Variable color_correct :
  ColorCorrection -> bool -> Sample -> Style -> Result Sample.
(** [sample[:, :3]] when the sample has four channels. *)
Variable rgb_only : Sample -> Sample.
(** Image format and denormalisation of one frame. *)
Variable to_output : bool -> Frame -> Frame.

(** The [for batch_idx in range(len(ctx['batch_samples']))] loop of the alpha
    stage.  Every path through its body is a [continue] or falls off the
    end of the body, so all the loop leaves behind is the last value of
    [batch_idx] ([None]: the name was never bound). *)
Fixpoint alpha_scan (idxs : list Z) (samples : list (option (list Sample)))
         (alphas : list (option Alpha)) (batch_idx : option nat) : option nat :=
  match idxs with
  | [] => batch_idx
  | i :: rest =>
      let i := Z.to_nat i in
      match samples !! i with
      | Some None => alpha_scan rest samples alphas (Some i) (* continue *)
      | _ =>
          match alphas !! i with
          | None | Some None =>
              alpha_scan rest samples alphas (Some i) (* continue *)
          | Some (Some _) =>
              (* the entry is a tensor: end of the loop body *)
              alpha_scan rest samples alphas (Some i)
          end
      end
  end.

(** "Alpha processing - handle RGBA inputs with edge-guided upscaling":
    the block between the allocation of the cursor and the main loop. *)
Definition alpha_stage (ctx : Ctx) : Result Ctx :=
  match is_rgba ctx, all_alpha_channels ctx, all_input_rgb ctx with
  | true, Some alphas, Some rgbs =>
      let samples := default [] (batch_samples ctx) in
      match alpha_scan (Py.range 0 (Z.of_nat (length samples))) samples alphas None with
      | None => Raise NameError
      | Some batch_idx =>
          let* s := index samples batch_idx in
          let* a := index alphas batch_idx in
          let* r := index rgbs batch_idx in
          let merged := process_alpha_for_batch s a r in
          let* samples := assign samples batch_idx (Some merged) in
          let* alphas := assign alphas batch_idx None in
          let* rgbs := assign rgbs batch_idx None in
          Ok (set_alpha (Some alphas) (Some rgbs)
                (set_batch_samples (Some samples) ctx))
      end
  | _, _, _ => Ok ctx
  end.

(** [final_video[cur : cur + len(sample)] = sample] for [0 <= cur].  The
    slice is clipped to the tensor; torch copies when the slice has as many
    frames as the sample, broadcasts a one-frame sample, and raises on any
    other mismatch. *)
Definition write_frames (video : list (option Frame)) (cur : Z)
           (sample : list Frame) : Result (list (option Frame)) :=
  let n := Z.of_nat (length sample) in
  let len := Z.of_nat (length video) in
  let lo := Z.min cur len in
  let hi := Z.min (cur + n) len in
  if hi - lo =? n then
    Ok (firstn (Z.to_nat lo) video ++ map Some sample ++ skipn (Z.to_nat hi) video)
  else
    match sample with
    | [f] => Ok (firstn (Z.to_nat lo) video
                   ++ replicate (Z.to_nat (hi - lo)) (Some f)
                   ++ skipn (Z.to_nat hi) video)
    | _ => Raise RuntimeError
    end.

(** Body of [for i, sample in enumerate(samples)]. *)
Definition postprocess_sample (color_correction : ColorCorrection)
           (total : Z) (batch_idx : nat) (sample : Sample)
           (st : Ctx * Z) : Result (Ctx * Z) :=
  let '(ctx, current_frame_idx) := st in
  let* oris :=
    match all_ori_lengths ctx with
    | Some l => Ok l
    | None => Raise KeyError
    end in
  let video_idx := Z.min (Z.of_nat batch_idx) (Z.of_nat (length oris) - 1) in
  let* slot :=
    if video_idx <? 0 then Raise IndexError (* [][-1] *)
    else index oris (Z.to_nat video_idx) in
  let video_idx := Z.to_nat video_idx in
  let* ori_length :=
    match slot with
    | Some n => Ok n
    | None => Raise TypeError (* None < int *)
    end in
  let sample :=
    if ori_length <? Z.of_nat (length sample) then Py.take ori_length sample
    else sample in
  let* corrected :=
    match negb (is_none color_correction), all_transformed_videos ctx with
    | true, Some tvs =>
        let sample := if is_rgba ctx then rgb_only sample else sample in
        match tvs !! video_idx with
        | Some (Some transformed_video) =>
            let* sample :=
              color_correct color_correction (is_rgba ctx) sample
                            transformed_video in
            Ok (set_all_transformed_videos
                  (Some (<[video_idx := None]> tvs)) ctx,
                sample)
        | _ => Ok (ctx, sample)
        end
    | _, _ => Ok (ctx, sample)
    end in
  let '(ctx, sample) := corrected in
  let ctx := set_all_ori_lengths (Some (<[video_idx := None]> oris)) ctx in
  let sample := map (to_output (is_rgba ctx)) sample in
  let batch_frames := Z.of_nat (length sample) in
  let video :=
    match final_video ctx with
    | Some v => v
    | None => replicate (Z.to_nat total) None (* torch.empty *)
    end in
  let* video := write_frames video current_frame_idx sample in
  Ok (set_final_video (Some video) ctx, current_frame_idx + batch_frames).

Fixpoint postprocess_samples (color_correction : ColorCorrection) (total : Z)
         (batch_idx : nat) (samples : list Sample) (st : Ctx * Z)
  : Result (Ctx * Z) :=
  match samples with
  | [] => Ok st
  | sample :: rest =>
      let* st := postprocess_sample color_correction total batch_idx sample st in
      postprocess_samples color_correction total batch_idx rest st
  end.

(** The main loop, [for batch_idx, samples in enumerate(ctx['batch_samples'])];
    it returns the context and the write cursor [current_frame_idx]. *)
Fixpoint postprocess_loop (color_correction : ColorCorrection) (total : Z)
         (items : list (nat * option (list Sample))) (st : Ctx * Z)
  : Result (Ctx * Z) :=
  match items with
  | [] => Ok st
  | (batch_idx, None) :: rest =>
      postprocess_loop color_correction total rest st
  | (batch_idx, Some samples) :: rest =>
      let* st := postprocess_samples color_correction total batch_idx samples st in
      let '(ctx, cur) := st in
      let* bs := assign (default [] (batch_samples ctx)) batch_idx None in
      postprocess_loop color_correction total rest
                       (set_batch_samples (Some bs) ctx, cur)
  end.

(** The [finally] clause: storage keys are deleted from the context. *)
Definition postprocess_cleanup (ctx : Ctx) : Ctx :=
  mkCtx (compute_dtype ctx) (autocast_dtype ctx) (text_embeds ctx)
        (total_frames ctx) (is_rgba ctx)
        (if truthy (all_latents ctx) then None else all_latents ctx)
        (all_upscaled_latents ctx)
        None
        (if truthy (all_transformed_videos ctx) then None
         else all_transformed_videos ctx)
        (if truthy (all_alpha_channels ctx) then None else all_alpha_channels ctx)
        (if truthy (all_input_rgb ctx) then None else all_input_rgb ctx)
        (if truthy (batch_samples ctx) then None else batch_samples ctx)
        (final_video ctx) (cache_context ctx).

(** Phase 4 up to the end of the [try] block: the context and the cursor. *)
Definition postprocess_run (ctx : Ctx) (color_correction : ColorCorrection)
           (total : Z) : Result (Ctx * Z) :=
  let ctx := set_final_video None ctx in
  let* ctx := alpha_stage ctx in
  let* st := postprocess_loop color_correction total
                              (enumerate (default [] (batch_samples ctx)))
                              (ctx, 0) in
  let '(ctx, cur) := st in
  match final_video ctx with
  | Some _ => Ok (ctx, cur)
  | None => Ok (set_final_video (Some []) ctx, cur)
  end.

Definition postprocess_all_batches (ctx : option Ctx) (debug : bool)
           (color_correction : ColorCorrection) : Result Ctx :=
  if negb debug then Raise ValueError
  else
    match ctx with
    | None => Raise ValueError
    | Some ctx =>
        if negb (truthy (batch_samples ctx)) then Raise ValueError
        else
          let total := default 0 (total_frames ctx) in
          if total =? 0 then Ok (set_final_video (Some []) ctx)
          else
            let* st := postprocess_run ctx color_correction total in
            Ok (postprocess_cleanup (fst st))
    end.


End Pipeline.

(* ================================================================== *)
(** * Colour correction: AdaIN ([calc_mean_std],
      [adaptive_instance_normalization]) *)

Module AdaIN.

Local Open Scope R_scope.

(** A [(B, C, H, W)] tensor in the [(b, c, -1)] view the code takes of it:
    per batch entry, per channel, the flattened plane. *)
Definition Plane : Type := list R.
Definition Tensor : Type := list (list Plane).

Definition eps : R := 1 / 100000.

Definition Rsum (l : list R) : R := fold_right Rplus 0 l.

(** [.mean(dim=2)] *)
Definition mean (x : Plane) : R := Rsum x / INR (length x).

(** [.var(dim=2)]: torch's default is the unbiased estimator (divisor
    [n - 1]). *)
Definition var (x : Plane) : R :=
  Rsum (map (fun v => (v - mean x) * (v - mean x)) x) / (INR (length x) - 1).

(** [calc_mean_std] on one plane: [(feat_mean, feat_std)]. *)
Definition calc_mean_std (feat : Plane) : R * R :=
  let feat_var := var feat + eps in
  let feat_std := sqrt feat_var in
  let feat_mean := mean feat in
  (feat_mean, feat_std).

(** [adaptive_instance_normalization] on one plane; the [expand]s make the
    statistics constant over the plane. *)
Definition adain_plane (content_feat style_feat : Plane) : Plane :=
  let '(style_mean, style_std) := calc_mean_std style_feat in
  let '(content_mean, content_std) := calc_mean_std content_feat in
  map (fun v => (v - content_mean) / content_std * style_std + style_mean)
      content_feat.

(** The whole tensor: plane by plane.  [expand(size)] needs the style
    statistics to have the content's [B] and [C] ([None]: torch raises; the
    broadcast of a singleton dimension is not modelled). *)
Definition adaptive_instance_normalization (content_feat style_feat : Tensor)
  : option Tensor :=
  if forallb (fun p => (length (fst p) =? length (snd p))%nat)
             (combine content_feat style_feat)
     && (length content_feat =? length style_feat)%nat
  then Some (zip_with (zip_with adain_plane) content_feat style_feat)
  else None.

(** The standard deviation of a plane, without the epsilon. *)
Definition std (x : Plane) : R := sqrt (var x).

(** The slope of the AdaIN map: [style_std / content_std]. *)
Definition slope (content style : Plane) : R :=
  / snd (calc_mean_std content) * snd (calc_mean_std style).

(** The plane of batch entry [b] and channel [c]. *)
Definition plane (t : Tensor) (b c : nat) : option Plane :=
  match (t : list (list Plane)) !! b with
  | Some channels => channels !! c
  | None => None
  end.

(** The statistics property as the specification words it, for a measure
    [sd] of the standard deviation: after AdaIN every channel has the
    style's mean, and its standard deviation is within epsilon of the
    style's. *)
Definition matches_style_statistics (sd : Plane -> R)
           (content_feat style_feat : Tensor) : Prop :=
  forall result b c rp sp,
    adaptive_instance_normalization content_feat style_feat = Some result ->
    plane result b c = Some rp ->
    plane style_feat b c = Some sp ->
    mean rp = mean sp /\ Rabs (sd rp - sd sp) < eps.

End AdaIN.

(* ================================================================== *)
(** * Colour correction: wavelet ([wavelet_blur], [wavelet_decomposition],
      [wavelet_reconstruction]) *)

Module Wavelet.

(** A [(B, C, H, W)] tensor of exact numbers: its shape and its value at
    every index (only indices inside the shape are meaningful). *)
Record Tensor : Type := mkTensor
  { shape : Z * Z * Z * Z;
    data : Z -> Z -> Z -> Z -> Q }.

Definition height (t : Tensor) : Z := snd (fst (shape t)).
Definition width (t : Tensor) : Z := snd (shape t).

Definition shape_eqb (s1 s2 : Z * Z * Z * Z) : bool :=
  let '(b1, c1, h1, w1) := s1 in
  let '(b2, c2, h2, w2) := s2 in
  (b1 =? b2) && (c1 =? c2) && (h1 =? h2) && (w1 =? w2).

Definition zeros_like (t : Tensor) : Tensor :=
  mkTensor (shape t) (fun _ _ _ _ => 0%Q).

Definition batch (t : Tensor) : Z := fst (fst (fst (shape t))).
Definition channels (t : Tensor) : Z := snd (fst (fst (shape t))).

(** One dimension of torch's broadcasting: the two sizes agree, or one of
    them is 1 and the other one is taken; [None] when torch raises. *)
Definition broadcast_dim (n1 n2 : Z) : option Z :=
  if n1 =? n2 then Some n1
  else if n1 =? 1 then Some n2
  else if n2 =? 1 then Some n1
  else None.

Definition broadcast_shapes (s1 s2 : Z * Z * Z * Z) : option (Z * Z * Z * Z) :=
  let '(b1, c1, h1, w1) := s1 in
  let '(b2, c2, h2, w2) := s2 in
  match broadcast_dim b1 b2, broadcast_dim c1 c2,
        broadcast_dim h1 h2, broadcast_dim w1 w2 with
  | Some b, Some c, Some h, Some w => Some (b, c, h, w)
  | _, _, _, _ => None
  end.

(** Where an operand of size [n] is read for index [i] of a result of size
    [m]: a dimension of size 1 is repeated. *)
Definition broadcast_index (n m i : Z) : Z :=
  if (n =? 1) && negb (m =? 1) then 0 else i.

(** The values of [t] seen through a result of shape [s]. *)
Definition expand (t : Tensor) (s : Z * Z * Z * Z) (b c y x : Z) : Q :=
  let '(sb, sc, sh, sw) := s in
  data t (broadcast_index (batch t) sb b) (broadcast_index (channels t) sc c)
         (broadcast_index (height t) sh y) (broadcast_index (width t) sw x).

(** [t1 + t2] with broadcasting; [None] when the shapes do not fit. *)
Definition add (t1 t2 : Tensor) : option Tensor :=
  match broadcast_shapes (shape t1) (shape t2) with
  | Some s =>
      Some (mkTensor s (fun b c y x => (expand t1 s b c y x + expand t2 s b c y x)%Q))
  | None => None
  end.

(** [t1 += t2] and [t1 - t2] for two tensors of one shape, as they occur in
    the decomposition loop: there [t1] and [t2] have the shape of the
    image, which [wavelet_blur] keeps. *)
Definition iadd (t1 t2 : Tensor) : Tensor :=
  mkTensor (shape t1) (fun b c y x => (data t1 b c y x + data t2 b c y x)%Q).

Definition sub (t1 t2 : Tensor) : Tensor :=
  mkTensor (shape t1) (fun b c y x => (data t1 b c y x - data t2 b c y x)%Q).

(** [torch.clamp(t, lo, hi)] *)
Definition clamp (t : Tensor) (lo hi : Q) : Tensor :=
  mkTensor (shape t) (fun b c y x => Qmin (Qmax (data t b c y x) lo) hi).

Definition kernel_vals : list (list Q) :=
  [ [1 # 16; 1 # 8; 1 # 16];
    [1 # 8;  1 # 4; 1 # 8];
    [1 # 16; 1 # 8; 1 # 16] ]%Q.

Definition kernel (i j : nat) : Q := nth j (nth i kernel_vals []) 0%Q.

(** Replicate padding by [radius] on every side: the padded plane at
    [(u, v)] is the plane at the nearest index inside it. *)
Definition padded (image : Tensor) (radius : Z) (b c u v : Z) : Q :=
  data image b c
       (Z.max 0 (Z.min (height image - 1) (u - radius)))
       (Z.max 0 (Z.min (width image - 1) (v - radius))).

Definition wavelet_blur (image : Tensor) (radius : Z) : Tensor :=
  let max_safe_radius := Z.max 1 (Z.min (height image) (width image) / 8) in
  let radius := if radius >? max_safe_radius then max_safe_radius else radius in
  (* grouped 3x3 convolution with dilation [radius] of the padded image *)
  mkTensor (shape image)
    (fun b c y x =>
       fold_right Qplus 0%Q
         (map (fun ij : nat * nat =>
                 let '(i, j) := ij in
                 (kernel i j
                  * padded image radius b c (y + Z.of_nat i * radius)
                           (x + Z.of_nat j * radius))%Q)
              [(0,0); (0,1); (0,2); (1,0); (1,1); (1,2); (2,0); (2,1); (2,2)]%nat)).

(** The loop of [wavelet_decomposition], from level [i] on; [low_freq] is
    [None] until the first iteration binds it. *)
Fixpoint decomposition_loop (levels : nat) (i : Z) (image high_freq : Tensor)
         (low_freq : option Tensor) : Tensor * option Tensor :=
  match levels with
  | O => (high_freq, low_freq)
  | S levels' =>
      let radius := 2 ^ i in
      let low_freq := wavelet_blur image radius in
      let high_freq := iadd high_freq (sub image low_freq) in
      decomposition_loop levels' (i + 1) low_freq high_freq (Some low_freq)
  end.

(** [None]: [low_freq] is unbound at the [return] (only for [levels = 0]). *)
Definition wavelet_decomposition (image : Tensor) (levels : nat)
  : option (Tensor * Tensor) :=
  match decomposition_loop levels 0 image (zeros_like image) None with
  | (high_freq, Some low_freq) => Some (high_freq, low_freq)
  | (_, None) => None
  end.

Section Reconstruction.

(** Bilinear resize to a spatial size (external helper). *)
Variable safe_interpolate_operation : Tensor -> Z * Z -> Tensor.

Definition wavelet_reconstruction (content_feat style_feat : Tensor)
  : option Tensor :=
  let style_feat :=
    if negb (shape_eqb (shape content_feat) (shape style_feat))
    then safe_interpolate_operation
           style_feat (height content_feat, width content_feat)
    else style_feat in
  match wavelet_decomposition content_feat 5,
        wavelet_decomposition style_feat 5 with
  | Some (content_high_freq, _), Some (_, style_low_freq) =>
      let style_low_freq :=
        if negb (shape_eqb (shape content_high_freq) (shape style_low_freq))
        then safe_interpolate_operation
               style_low_freq
               (height content_high_freq, width content_high_freq)
        else style_low_freq in
      match add content_high_freq style_low_freq with
      | Some result => Some (clamp result (-1) 1)
      | None => None (* the shapes cannot be broadcast *)
      end
  | _, _ => None
  end.

End Reconstruction.

End Wavelet.

(* ================================================================== *)
(** * Colour correction: hue-conditional saturation matching
      ([histogram_matching_1d], [hue_conditional_saturation_match]) *)

Module HSV.

Local Open Scope Q_scope.

Definition Qltb (a b : Q) : bool := negb (Qle_bool b a).

(** Stable insertion sort of values tagged with their positions: the
    values and indices of [torch.sort] (ties keep their input order). *)
Fixpoint insert_sorted (x : Q * nat) (l : list (Q * nat)) : list (Q * nat) :=
  match l with
  | [] => [x]
  | y :: l' =>
      if Qltb (fst x) (fst y) then x :: y :: l' else y :: insert_sorted x l'
  end.

Definition sort_indexed (l : list Q) : list (Q * nat) :=
  fold_left (fun acc x => insert_sorted x acc)
            (combine l (seq 0 (length l))) [].

(** [int(q)] for a non-negative rational: [.long()] truncates. *)
Definition floorQ (q : Q) : Z := (Qnum q / Z.pos (Qden q))%Z.

(** [matched_flat.scatter_(0, source_indices, matched_sorted)] *)
Definition scatter (base : list Q) (indices : list nat) (values : list Q)
  : list Q :=
  fold_left (fun acc iv => <[fst iv := snd iv]> acc) (combine indices values) base.

Definition histogram_matching_1d (source reference : list Q) : list Q :=
  let sorted := sort_indexed source in
  let source_sorted := map fst sorted in
  let source_indices := map snd sorted in
  let reference_sorted := map fst (sort_indexed reference) in
  let n_source := length source_sorted in
  let n_reference := length reference_sorted in
  let matched_sorted :=
    if (n_source =? n_reference)%nat then reference_sorted
    else
      (* linspace(0, 1, n_source) * (n_reference - 1), truncated, clamped *)
      map (fun k =>
             let quantile :=
               if (n_source =? 1)%nat then 0
               else inject_Z (Z.of_nat k) / inject_Z (Z.of_nat n_source - 1) in
             let ref_index :=
               floorQ (quantile * inject_Z (Z.of_nat n_reference - 1)) in
             let ref_index :=
               Z.max 0 (Z.min ref_index (Z.of_nat n_reference - 1)) in
             default 0 (reference_sorted !! Z.to_nat ref_index))
          (seq 0 n_source) in
  scatter source source_indices matched_sorted.

Definition num_bins : Z := 12.
Definition bin_width : Q := 1 / inject_Z num_bins.
Definition min_pixels : nat := 100.

(** The hue mask of bin [bin_idx] at one pixel. *)
Definition bin_mask (bin_idx : Z) (h : Q) : bool :=
  let bin_start := inject_Z bin_idx * bin_width in
  let bin_end := inject_Z (bin_idx + 1) * bin_width in
  if (bin_idx =? 0)%Z
  then (Qle_bool 0 h && Qltb h bin_end) || Qle_bool (1 - bin_width) h
  else Qle_bool bin_start h && Qltb h bin_end.

(** [values[mask]] *)
Fixpoint select (mask : list bool) (values : list Q) : list Q :=
  match mask, values with
  | true :: mask', v :: values' => v :: select mask' values'
  | false :: mask', _ :: values' => select mask' values'
  | _, _ => []
  end.

(** [target[mask] = values] *)
Fixpoint assign_masked (mask : list bool) (target values : list Q) : list Q :=
  match mask, target with
  | true :: mask', t :: target' =>
      match values with
      | v :: values' => v :: assign_masked mask' target' values'
      | [] => t :: assign_masked mask' target' []
      end
  | false :: mask', t :: target' => t :: assign_masked mask' target' values
  | _, _ => target
  end.

(** The test guarding the match of one bin. *)
Definition bin_qualifies (n_content n_style : nat) : bool :=
  (min_pixels <? n_content)%nat && (min_pixels <? n_style)%nat.

(** One iteration of [for bin_idx in range(num_bins)]. *)
Definition match_bin (content_h content_s style_h style_s : list Q)
           (matched_s : list Q) (bin_idx : Z) : list Q :=
  let content_mask := map (bin_mask bin_idx) content_h in
  let style_mask := map (bin_mask bin_idx) style_h in
  let content_s_bin := select content_mask content_s in
  let style_s_bin := select style_mask style_s in
  if bin_qualifies (length content_s_bin) (length style_s_bin) then
    let matched_s_bin := histogram_matching_1d content_s_bin style_s_bin in
    assign_masked content_mask matched_s matched_s_bin
  else matched_s.

Definition hue_conditional_saturation_match
           (content_h content_s style_h style_s : list Q) : list Q :=
  fold_left (match_bin content_h content_s style_h style_s)
            (Py.range 0 num_bins) content_s.

(** The guard as the specification words it: "both content and style have
    at least 100 pixels in that bin". *)
Definition spec_bin_qualifies (n_content n_style : nat) : bool :=
  (100 <=? n_content)%nat && (100 <=? n_style)%nat.

End HSV.

(* ================================================================== *)
(** * Colour correction: the HSV conversions of one pixel
      ([rgb_to_hsv_torch], [hsv_to_rgb_torch], [get_saturation_map]) and the
      body of [hsv_saturation_histogram_match] *)

Module Pixel.

Local Open Scope Q_scope.

(** The three channels of one pixel. *)
Definition Triple : Type := (Q * Q * Q)%type.

Definition map3 (f : Q -> Q) (p : Triple) : Triple :=
  let '(a, b, c) := p in (f a, f b, f c).

(** [1e-10] *)
Definition threshold : Q := 1 # 10000000000.

(** [torch.max(rgb, dim=1)[0]] and [torch.min(rgb, dim=1)[0]] *)
Definition max3 (r g b : Q) : Q := Qmax (Qmax r g) b.
Definition min3 (r g b : Q) : Q := Qmin (Qmin r g) b.

(** [x % 6.0]: the remainder has the sign of the divisor. *)
Definition mod6 (x : Q) : Q := x - 6 * inject_Z (Qfloor (x / 6)).

(** [torch.clamp(x, 0.0, 1.0)] *)
Definition clamp01 (x : Q) : Q := Qmin (Qmax x 0) 1.

(** [torch.clamp((x + 1.0) * 0.5, 0.0, 1.0)] *)
Definition to_unit (x : Q) : Q := clamp01 ((x + 1) * (1 # 2)).

(** [rgb_to_hsv_torch] at one pixel.  The three masked assignments run in
    the order red, green, blue, so a later one overwrites an earlier one
    where both masks hold. *)
Definition rgb_to_hsv (rgb : Triple) : Triple :=
  let '(r, g, b) := rgb in
  let maxc := max3 r g b in
  let minc := min3 r g b in
  let rangec := maxc - minc in
  let rangec_nz := if HSV.Qltb threshold rangec then rangec else 1 in
  let h := 0 in
  let mask_r := Qeq_bool maxc r && HSV.Qltb threshold rangec in
  let h := if mask_r then mod6 ((g - b) / rangec_nz) else h in
  let mask_g := Qeq_bool maxc g && HSV.Qltb threshold rangec in
  let h := if mask_g then (b - r) / rangec_nz + 2 else h in
  let mask_b := Qeq_bool maxc b && HSV.Qltb threshold rangec in
  let h := if mask_b then (r - g) / rangec_nz + 4 else h in
  let h := h / 6 in
  let s := if HSV.Qltb threshold maxc then rangec / Qmax maxc threshold else 0 in
  let v := maxc in
  (h, s, v).

(** [hsv_to_rgb_torch] at one pixel; the channels start as zeros and one
    of the six sector masks holds. *)
Definition hsv_to_rgb (hsv : Triple) : Triple :=
  let '(h, s, v) := hsv in
  let h := h * 6 in
  let i := (Qfloor h mod 6)%Z in
  let f := h - inject_Z (Qfloor h) in
  let p := v * (1 - s) in
  let q := v * (1 - s * f) in
  let t := v * (1 - s * (1 - f)) in
  if (i =? 0)%Z then (v, t, p)
  else if (i =? 1)%Z then (q, v, p)
  else if (i =? 2)%Z then (p, v, t)
  else if (i =? 3)%Z then (p, q, v)
  else if (i =? 4)%Z then (t, p, v)
  else if (i =? 5)%Z then (v, p, q)
  else (0, 0, 0).

(** [get_saturation_map] of [wavelet_adaptive_color_correction] at one
    pixel of a tensor in [-1, 1]. *)
Definition get_saturation_map (tensor : Triple) : Q :=
  let '(r, g, b) := map3 to_unit tensor in
  let maxc := max3 r g b in
  let minc := min3 r g b in
  if HSV.Qltb threshold maxc then (maxc - minc) / Qmax maxc threshold else 0.

(** Two triples with equal channels (as rational numbers). *)
Definition same (p q : Triple) : Prop :=
  fst (fst p) == fst (fst q) /\ snd (fst p) == snd (fst q) /\ snd p == snd q.

Definition hue (hsv : Triple) : Q := fst (fst hsv).
Definition saturation (hsv : Triple) : Q := snd (fst hsv).
Definition value (hsv : Triple) : Q := snd hsv.

(** [hsv_saturation_histogram_match] from "Convert from [-1, 1] to [0, 1]
    range" on, for two tensors of one shape given as the lists of their
    pixels. *)
Definition hsv_saturation_histogram_match (content_feat style_feat : list Triple)
  : list Triple :=
  let content_rgb := map (map3 to_unit) content_feat in
  let style_rgb := map (map3 to_unit) style_feat in
  let content_hsv := map rgb_to_hsv content_rgb in
  let style_hsv := map rgb_to_hsv style_rgb in
  let content_h := map hue content_hsv in
  let content_s := map saturation content_hsv in
  let content_v := map value content_hsv in
  let style_h := map hue style_hsv in
  let style_s := map saturation style_hsv in
  let matched_s :=
    HSV.hue_conditional_saturation_match content_h content_s style_h style_s in
  let result_hsv :=
    zip_with (fun hs v => (fst hs, snd hs, v))
             (zip_with pair content_h matched_s) content_v in
  let result_rgb := map hsv_to_rgb result_hsv in
  let result_rgb := map (map3 clamp01) result_rgb in
  map (map3 (fun x => x * 2 - 1)) result_rgb.

End Pixel.

(* ================================================================== *)
(** * Colour correction: the blend of [wavelet_adaptive_color_correction]
      at one value *)

Module Adaptive.

Local Open Scope R_scope.

(** [torch.sigmoid] *)
Definition sigmoid (x : R) : R := 1 / (1 + exp (- x)).

Definition oversaturation_threshold : R := 15 / 100.
Definition blend_sharpness : R := 5.

(** Steps 4 of the function: the weight from the three saturation maps. *)
Definition blend_weight (content_sat style_sat wavelet_sat : R) : R :=
  let sat_difference := content_sat - style_sat in
  let blend_weight :=
    sigmoid (blend_sharpness * (sat_difference - oversaturation_threshold)) in
  let wavelet_oversaturated :=
    if Rlt_dec (oversaturation_threshold * (1 / 2)) (wavelet_sat - style_sat)
    then 1 else 0 in
  let blend_weight := blend_weight * wavelet_oversaturated in
  Rmin (Rmax blend_weight 0) 1.

(** Step 5: [wavelet_result * (1.0 - blend_weight) + hsv_result * blend_weight] *)
Definition blend (wavelet_result hsv_result content_sat style_sat wavelet_sat : R)
  : R :=
  let blend_weight := blend_weight content_sat style_sat wavelet_sat in
  wavelet_result * (1 - blend_weight) + hsv_result * blend_weight.

End Adaptive.

(* ================================================================== *)
(** * The batch-placement rule of Phase 1, as statements *)

Module Placement.

(** Frames in the window of batch [i]: from [i * step] to
    [min(i * step + batch_size, total_frames)]. *)
Definition window_len (total_frames batch_size step : Z) (i : nat) : Z :=
  Z.min (Z.of_nat i * step + batch_size) total_frames - Z.of_nat i * step.

(** The positions [j * step, ..., (j + m - 1) * step] of the range. *)
Definition positions (step : Z) (j m : nat) : list Z :=
  map (fun k : nat => Z.of_nat k * step) (seq j m).

(** Frames in a window [(start_idx, end_idx)]. *)
Definition window_frames (w : Z * Z) : Z := snd w - fst w.

(** Batch [i] is processed exactly when its position is inside the video
    and no batch [0 < j <= i] met the stopping test [stop]. *)
Definition processed_until (stop : Z -> Z -> bool)
           (total_frames batch_size temporal_overlap : Z) : Prop :=
  let '(step, overlap) := encode_step batch_size temporal_overlap in
  forall i : nat,
    (i < length (encode_windows total_frames batch_size temporal_overlap))%nat
    <-> (Z.of_nat i * step < total_frames
         /\ forall j : nat, (0 < j <= i)%nat ->
              stop (window_len total_frames batch_size step j) overlap = false).

(** The rule as the specification words it: the loop terminates when
    "fewer frames remain than temporal_overlap". *)
Definition stops_when_fewer : Z -> Z -> Z -> Prop :=
  processed_until (fun frames overlap => frames <? overlap).

(** The rule with "at most" in place of "fewer than". *)
Definition stops_when_at_most : Z -> Z -> Z -> Prop :=
  processed_until (fun frames overlap => frames <=? overlap).

(** Batch [i] starts at [i * step] and ends at the video's end or
    [batch_size] frames later. *)
Definition starts_at_multiples (total_frames batch_size temporal_overlap : Z)
  : Prop :=
  let '(step, _) := encode_step batch_size temporal_overlap in
  forall (i : nat) (start_idx end_idx : Z),
    encode_windows total_frames batch_size temporal_overlap !! i
    = Some (start_idx, end_idx) ->
    start_idx = Z.of_nat i * step
    /\ end_idx = Z.min (start_idx + batch_size) total_frames.

End Placement.

(* ================================================================== *)
(** * Concrete runs *)

Module Run.

(** Frames are named by a number and carry the name of the alpha plane
    attached to them, if any; the external operators keep the names, so
    that a run shows where each output frame comes from. *)
Definition Frame : Type := (nat * option nat)%type.

Definition has_alpha (f : Frame) : bool :=
  match snd f with Some _ => true | None => false end.
Definition video_transform (v : list Frame) : list Frame := v.
Definition apply_input_noise (scale : Q) (encode_idx : nat) (v : list Frame)
  : list Frame := v.
Definition vae_encode (v : list Frame) : list Frame := v.
Definition alpha_planes (v : list Frame) : list nat := omap snd v.
Definition rgb_planes (v : list Frame) : list nat := map fst v.

(** The alpha operator marks every frame of the samples it is given with
    [1000 + a] for the input alpha [a] at the same position. *)
Definition process_alpha_for_batch (rgb_samples : option (list (list Frame)))
           (alpha_original : option (list nat)) (rgb_original : option (list nat))
  : list (list Frame) :=
  map (fun s =>
         zip_with (fun (f : Frame) a => (fst f, Some (1000 + a)%nat)) s
                  (default [] alpha_original))
      (default [] rgb_samples).

(** Model preparation that never raises. *)
Definition materialize_vae_encoder : Result unit := Ok tt.
Definition set_vae : Result unit := Ok tt.
Definition manage_model_device (t : Target) : Result unit := Ok tt.

(** A colour correction that keeps the frames and has the frame-count
    behaviour of the real methods: the wavelet and AdaIN corrections
    raise when the sample and the stored video differ in their number of
    frames, the others do not look at it. *)
Definition color_correct (c : ColorCorrection) (rgba : bool)
           (sample style : list Frame) : Result (list Frame) :=
  match c with
  | cc_wavelet | cc_wavelet_adaptive | cc_adain =>
      if (length sample =? length style)%nat then Ok sample
      else Raise RuntimeError
  | _ => Ok sample
  end.
Definition rgb_only (sample : list Frame) : list Frame := sample.
Definition to_output (rgba : bool) (f : Frame) : Frame := f.

Definition runner : Runner := mkRunner (Some float16) (Some float16).

Definition Context : Type :=
  @Ctx Frame (list Frame) (list nat) (list nat) (list Frame) unit.

Definition ctx0 : Context := prepare_generation_context.

(** The context as the caller hands it to Phase 1: with the cache context
    of a runner whose VAE is to be cached and is not cached yet. *)
Definition cache : CacheContext := mkCacheContext true false false.
Definition ready : Context := set_cache_context (Some cache) ctx0.

(** [n] input frames, numbered from 0, without alpha. *)
Definition rgb_images (n : nat) : list Frame := map (fun k => (k, None)) (seq 0 n).
(** [n] input frames whose alpha plane carries the frame's number. *)
Definition rgba_images (n : nat) : list Frame :=
  map (fun k => (k, Some k)) (seq 0 n).

Definition encode (ctx : Context) (images : list Frame)
           (batch_size temporal_overlap : Z)
           (color_correction : ColorCorrection) : Result Context :=
  encode_all_batches has_alpha video_transform apply_input_noise vae_encode
                     alpha_planes rgb_planes materialize_vae_encoder set_vae
                     manage_model_device runner (Some ctx) (Some images)
                     batch_size false true temporal_overlap 0%Q
                     color_correction.

Definition phase1 (images : list Frame) (batch_size temporal_overlap : Z) :=
  encode ready images batch_size temporal_overlap cc_none.

(** The decoder's output for batch [b]: [t] RGB frames numbered
    [100 * b + k]. *)
Definition decoded (b t : nat) : list (list Frame) :=
  [map (fun k => (100 * b + k, None)%nat) (seq 0 t)].

Definition postprocess (color_correction : ColorCorrection) (ctx : Context)
  : Result Context :=
  postprocess_all_batches process_alpha_for_batch color_correct
                          rgb_only to_output (Some ctx) true color_correction.

Definition phase4 (ctx : Context) : Result Context := postprocess cc_none ctx.

(** Phase 2 operators that always succeed. *)
Definition load_text_embeddings (d : option DType) : Result unit := Ok tt.
Definition materialize_dit : Result unit := Ok tt.
Definition dit_inference (l : list Frame) : Result (list Frame) := Ok l.
Definition cleanup_text_embeddings (ctx : Context) : Context := ctx.

(** A context whose two latents were already consumed. *)
Definition consumed_latents : Context :=
  set_all_latents (Some [None; None]) ctx0.

(** The context Phase 4 receives: Phase 1's context with the decoded
    samples of Phase 3 stored in it. *)
Definition with_samples (r : Result Context)
           (samples : list (option (list (list Frame)))) : Result Context :=
  let* ctx := r in Ok (set_batch_samples (Some samples) ctx).

(** 17 RGB frames, batch size 9, overlap 4; every batch decodes to its
    conformed length of 9 frames. *)
Definition overlap_run : Result Context :=
  with_samples (phase1 (rgb_images 17) 9 4)
               [Some (decoded 0 9); Some (decoded 1 9); Some (decoded 2 9)].

(** 7 RGB frames, batch size 5, no overlap, wavelet colour correction: the
    second batch has 2 frames and is padded to 5; every batch decodes to
    5 frames. *)
Definition padded_wavelet_run : Result Context :=
  with_samples (encode ready (rgb_images 7) 5 0 cc_wavelet)
               [Some (decoded 0 5); Some (decoded 1 5)].

(** 7 RGBA frames, batch size 5, no overlap: two batches, each decoded to
    5 frames. *)
Definition rgba_run : Result Context :=
  with_samples (phase1 (rgba_images 7) 5 0)
               [Some (decoded 0 5); Some (decoded 1 5)].

(** A 1x1x2x2 tensor with values in [-1, 1]. *)
Definition small_tensor : Wavelet.Tensor :=
  Wavelet.mkTensor (1, 1, 2, 2)
                   (fun b c y x => if (y =? x)%Z then 1 # 2 else - (3 # 4))%Q.

(** A resize that keeps the values and sets the spatial size. *)
Definition resize (t : Wavelet.Tensor) (size : Z * Z) : Wavelet.Tensor :=
  let '(b, c, _, _) := Wavelet.shape t in
  Wavelet.mkTensor (b, c, fst size, snd size) (Wavelet.data t).

(** One channel of two pixels: a constant content and a style with
    values -1 and 1. *)
Definition flat_content : AdaIN.Tensor := [[[0; 0]]]%R.
Definition contrast_style : AdaIN.Tensor := [[[-1; 1]]]%R.

(** [n] pixels of hue 0.3 (bin 3 of 12), with one saturation each. *)
Definition hues (n : nat) : list Q := repeat (3 # 10)%Q n.
Definition saturations (s : Q) (n : nat) : list Q := repeat s n.

End Run.

(* ================================================================== *)
(** * Properties of the batch planner and the frame conformer *)

Ltac zmod := Z.div_mod_to_equations; lia.

Lemma range_In (lo hi k : Z) : In k (Py.range lo hi) <-> lo <= k < hi.
Proof.
  unfold Py.range. rewrite in_map_iff. split.
  - intros (n & <- & Hn). apply in_seq in Hn. lia.
  - intros H. exists (Z.to_nat (k - lo)). split; [lia|].
    apply in_seq. lia.
Qed.

Lemma fold_max_ge (l : list Z) (a : Z) : a <= fold_left Z.max l a.
Proof.
  revert a. induction l as [|x l IH]; intros a; simpl; [lia|].
  specialize (IH (Z.max a x)). lia.
Qed.

Lemma fold_max_In (l : list Z) (a : Z) :
  fold_left Z.max l a = a \/ In (fold_left Z.max l a) l.
Proof.
  revert a. induction l as [|x l IH]; intros a; simpl; [now left|].
  destruct (IH (Z.max a x)) as [E|E]; [|now right; right].
  rewrite E. destruct (Z.max_spec a x) as [[_ ->]|[_ ->]]; auto.
Qed.

Lemma fold_max_upper (l : list Z) (a x : Z) :
  In x l -> x <= fold_left Z.max l a.
Proof.
  revert a. induction l as [|y l IH]; intros a; simpl; [tauto|].
  intros [->|Hx]; [|now apply IH].
  pose proof (fold_max_ge l (Z.max a x)). lia.
Qed.

Lemma max_or_greatest (d : Z) (l : list Z) :
  l <> [] ->
  In (Py.max_or d l) l /\ forall x, In x l -> x <= Py.max_or d l.
Proof.
  destruct l as [|a l]; [congruence|]. intros _. simpl. split.
  - destruct (fold_max_In l a) as [->|H]; auto.
  - intros x [<-|Hx]; [apply fold_max_ge | now apply fold_max_upper].
Qed.

Lemma valid_sizes_In (total_frames k : Z) :
  In k (Planner.valid_sizes total_frames)
  <-> 1 <= k <= total_frames /\ k mod 4 = 1.
Proof.
  unfold Planner.valid_sizes. rewrite filter_In, range_In, Z.eqb_eq. lia.
Qed.

(** The planner's target is the next 4n+1 at or above the frame count. *)
Lemma target_next_4n1 (f : Z) : Planner.target f = Planner.spec_next_4n1 f.
Proof.
  unfold Planner.target, Planner.spec_next_4n1.
  repeat match goal with
         | |- context [?a =? ?b] => destruct (Z.eqb_spec a b)
         end; zmod.
Qed.

Lemma spec_next_4n1_least (f : Z) :
  f <= Planner.spec_next_4n1 f
  /\ Planner.spec_next_4n1 f mod 4 = 1
  /\ forall m, f <= m -> m mod 4 = 1 -> Planner.spec_next_4n1 f <= m.
Proof.
  unfold Planner.spec_next_4n1.
  repeat match goal with
         | |- context [?a =? ?b] => destruct (Z.eqb_spec a b)
         end; (split; [lia|split; [zmod|intros m Hm Hm1; zmod]]).
Qed.

(** The while loop run from position [j * step] visits the remaining
    positions of the range and adds their pads. *)
Lemma waste_loop_sum (total_frames batch_size step : Z) (n : nat) :
  0 < step ->
  (forall k : nat, (k < n)%nat -> Z.of_nat k * step < total_frames) ->
  total_frames <= Z.of_nat n * step ->
  forall (m j fuel : nat) (acc : Z),
    (j + m = n)%nat -> (m <= fuel)%nat ->
    Planner.waste_loop fuel total_frames batch_size step (Z.of_nat j * step) acc
    = Some (acc + Py.sum (map (Planner.pad_at total_frames batch_size)
                              (map (fun k => Z.of_nat k * step) (seq j m)))).
Proof.
  intros Hstep Hlt Hge. induction m as [|m IH]; intros j fuel acc Hj Hfuel.
  - assert (j = n) by lia. subst j.
    destruct fuel; simpl;
      (destruct (Z.ltb_spec (Z.of_nat n * step) total_frames); [lia|]);
      f_equal; lia.
  - destruct fuel as [|fuel]; [lia|].
    cbn [Planner.waste_loop].
    destruct (Z.ltb_spec (Z.of_nat j * step) total_frames) as [_|Hc].
    2:{ specialize (Hlt j). lia. }
    destruct (Z.ltb_spec 0 step) as [_|]; [|lia].
    replace (Z.of_nat j * step + step) with (Z.of_nat (S j) * step) by lia.
    rewrite IH by lia. cbn [seq map Py.sum fold_right].
    unfold Planner.pad_at at 2. rewrite target_next_4n1. f_equal.
    fold (Py.sum (map (Planner.pad_at total_frames batch_size)
                      (map (fun k => Z.of_nat k * step) (seq (S j) m)))).
    lia.
Qed.

Lemma range_step_count (total_frames step : Z) :
  0 < step -> 1 <= total_frames ->
  let n := Z.to_nat ((total_frames + step - 1) / step) in
  (forall k : nat, (k < n)%nat -> Z.of_nat k * step < total_frames)
  /\ total_frames <= Z.of_nat n * step
  /\ (n <= Z.to_nat total_frames)%nat.
Proof.
  intros Hs Ht n.
  assert (Hq : 0 <= (total_frames + step - 1) / step) by (apply Z.div_pos; lia).
  assert (Hn : Z.of_nat n = (total_frames + step - 1) / step) by (subst n; lia).
  pose proof (Z.div_mod (total_frames + step - 1) step ltac:(lia)) as Hdm.
  pose proof (Z.mod_pos_bound (total_frames + step - 1) step Hs) as Hmb.
  repeat split.
  - intros k Hk. assert (Z.of_nat k + 1 <= Z.of_nat n) by lia. nia.
  - nia.
  - assert (Z.of_nat n <= total_frames) by nia. lia.
Qed.

(** C5: the planner returns the step (reset when not positive), the greatest
    4n+1 size up to [total_frames], the padding summed over the simulated
    batches, and [is_optimal] exactly when that padding is zero. *)
Theorem calculate_optimal_batch_params_spec
        (fuel : nat) (total_frames batch_size temporal_overlap : Z) :
  1 <= total_frames -> 1 <= batch_size -> (Z.to_nat total_frames <= fuel)%nat ->
  exists r,
    Planner.calculate_optimal_batch_params
      fuel total_frames batch_size temporal_overlap = Some r
    /\ (Planner.step r, Planner.temporal_overlap r)
       = (if batch_size - temporal_overlap <=? 0
          then (batch_size, 0)
          else (batch_size - temporal_overlap, temporal_overlap))
    /\ (1 <= Planner.best_batch r <= total_frames
        /\ Planner.best_batch r mod 4 = 1
        /\ forall k, 1 <= k <= total_frames -> k mod 4 = 1 ->
                     k <= Planner.best_batch r)
    /\ Planner.padding_waste r
       = Planner.spec_padding_waste total_frames batch_size (Planner.step r)
    /\ (Planner.is_optimal r = true <-> Planner.padding_waste r = 0).
Proof.
  intros Ht Hb Hfuel.
  unfold Planner.calculate_optimal_batch_params.
  destruct (Planner.effective_step batch_size temporal_overlap)
    as [step ov] eqn:Estep.
  assert (Hstep : 0 < step).
  { unfold Planner.effective_step in Estep.
    destruct (Z.leb_spec (batch_size - temporal_overlap) 0);
      inversion Estep; lia. }
  destruct (range_step_count total_frames step Hstep Ht) as (Hlt & Hge & Hn).
  pose proof (waste_loop_sum total_frames batch_size step _ Hstep Hlt Hge
                _ 0%nat fuel 0 eq_refl ltac:(lia)) as Hloop.
  change (Z.of_nat 0 * step) with 0 in Hloop. rewrite Hloop.
  eexists. split; [reflexivity|]. cbn [Planner.step Planner.temporal_overlap
    Planner.best_batch Planner.padding_waste Planner.is_optimal].
  split; [rewrite <- Estep; reflexivity|]. split; [|split].
  - assert (Hne : Planner.valid_sizes total_frames <> []).
    { intros E. assert (H1 : In 1 (Planner.valid_sizes total_frames))
        by (apply valid_sizes_In; split; [lia|reflexivity]).
      rewrite E in H1. destruct H1. }
    destruct (max_or_greatest 1 _ Hne) as [Hin Hmax].
    apply valid_sizes_In in Hin. destruct Hin as [Hr Hm].
    split; [exact Hr|]. split; [exact Hm|].
    intros k Hk Hk1. apply Hmax, valid_sizes_In. auto.
  - unfold Planner.spec_padding_waste, Py.range_step.
    destruct (Z.ltb_spec 0 step); [|lia]. rewrite Z.add_0_l. reflexivity.
  - apply Z.eqb_eq.
Qed.

Lemma calculate_optimal_batch_params_spec_witness :
  exists r,
    Planner.calculate_optimal_batch_params 17 17 9 4 = Some r
    /\ (Planner.step r, Planner.temporal_overlap r) = (5, 4)
    /\ (1 <= Planner.best_batch r <= 17
        /\ Planner.best_batch r mod 4 = 1
        /\ forall k, 1 <= k <= 17 -> k mod 4 = 1 -> k <= Planner.best_batch r)
    /\ Planner.padding_waste r
       = Planner.spec_padding_waste 17 9 (Planner.step r)
    /\ (Planner.is_optimal r = true <-> Planner.padding_waste r = 0).
Proof.
  apply (calculate_optimal_batch_params_spec 17 17 9 4); lia.
Defined.

Lemma last_slice_last {Slice : Type} (videos : list Slice) (f : Slice) :
  last videos = Some f -> Conformer.last_slice videos = [f].
Proof.
  intros H. apply last_Some in H as [l ->].
  unfold Conformer.last_slice. rewrite length_app. simpl.
  replace (length l + 1 - 1)%nat with (length l) by lia.
  apply drop_app_length.
Qed.

Lemma padding_needed_target (t : Z) :
  t mod 4 <> 1 -> Conformer.padding_needed t = Conformer.spec_target t - t.
Proof.
  unfold Conformer.padding_needed, Conformer.spec_target. intros H. zmod.
Qed.

(** C4: a video of [t >= 1] frames comes back unchanged when [t % 4 == 1],
    and otherwise followed by [target - t] copies of its last frame; the
    result always has a 4n+1 length. *)
Theorem cut_videos_spec {Slice : Type} (videos : list Slice) :
  1 <= Z.of_nat (length videos) ->
  let t := Z.of_nat (length videos) in
  exists result f,
    Conformer.cut_videos videos = Some result
    /\ last videos = Some f
    /\ (t mod 4 = 1 -> result = videos)
    /\ (t mod 4 <> 1 ->
        result = videos ++ repeat f (Z.to_nat (Conformer.spec_target t - t)))
    /\ Z.of_nat (length result) mod 4 = 1.
Proof.
  intros Ht t.
  destruct (last videos) as [f|] eqn:Hlast.
  2:{ apply last_None in Hlast. subst videos. simpl in Ht. lia. }
  unfold Conformer.cut_videos. fold t.
  destruct (Z.eqb_spec (t mod 4) 1) as [E|E].
  - exists videos, f. repeat split; auto; congruence.
  - rewrite (last_slice_last videos f Hlast). cbn [Conformer.expand].
    rewrite (padding_needed_target t E).
    eexists _, f. split; [reflexivity|]. split; [reflexivity|].
    split; [congruence|]. split; [reflexivity|].
    rewrite length_app, repeat_length. fold t.
    unfold Conformer.spec_target in *.
    rewrite Nat2Z.inj_add. fold t. zmod.
Qed.

Lemma cut_videos_spec_witness :
  exists result f,
    Conformer.cut_videos [10; 11; 12]%nat = Some result
    /\ last [10; 11; 12]%nat = Some f
    /\ (3 mod 4 = 1 -> result = [10; 11; 12]%nat)
    /\ (3 mod 4 <> 1 ->
        result = [10; 11; 12]%nat
                   ++ repeat f (Z.to_nat (Conformer.spec_target 3 - 3)))
    /\ Z.of_nat (length result) mod 4 = 1.
Proof.
  apply (cut_videos_spec [10; 11; 12]%nat). simpl. lia.
Defined.

(* ================================================================== *)
(** * Phase 1: where the batches are placed and where the loop stops *)

Section Windows.

Variables total_frames batch_size step overlap : Z.
Hypothesis step_pos : 0 < step.

Lemma positions_step (j m : nat) :
  (1 <= j)%nat ->
  encode_windows_from (Placement.positions step j (S m))
                      total_frames batch_size overlap
  = if Placement.window_len total_frames batch_size step j <=? overlap
    then []
    else (Z.of_nat j * step,
          Z.min (Z.of_nat j * step + batch_size) total_frames)
           :: encode_windows_from (Placement.positions step (S j) m)
                                  total_frames batch_size overlap.
Proof.
  intros Hj. unfold Placement.positions.
  cbn [seq map encode_windows_from].
  assert (E : (Z.of_nat j * step =? 0) = false) by (apply Z.eqb_neq; nia).
  rewrite E. reflexivity.
Qed.

Lemma positions_lookup (m : nat) :
  forall (j i : nat) (s e : Z),
    (1 <= j)%nat ->
    encode_windows_from (Placement.positions step j m)
                        total_frames batch_size overlap !! i = Some (s, e) ->
    s = Z.of_nat (j + i) * step /\ e = Z.min (s + batch_size) total_frames.
Proof.
  induction m as [|m IH]; intros j i s e Hj Hl; [discriminate|].
  rewrite (positions_step j m Hj) in Hl.
  destruct (Placement.window_len total_frames batch_size step j <=? overlap);
    [discriminate|].
  destruct i as [|i]; simpl in Hl.
  - inversion Hl; subst. rewrite Nat.add_0_r. auto.
  - apply IH in Hl; [|lia]. now replace (j + S i)%nat with (S j + i)%nat by lia.
Qed.

Lemma positions_length (m : nat) :
  forall j i : nat,
    (1 <= j)%nat ->
    (i < length (encode_windows_from (Placement.positions step j m)
                                     total_frames batch_size overlap))%nat
    <-> (i < m)%nat
        /\ forall k : nat, (j <= k <= j + i)%nat ->
             (Placement.window_len total_frames batch_size step k <=? overlap)
             = false.
Proof.
  induction m as [|m IH]; intros j i Hj.
  - simpl. split; [lia|intros [? _]; lia].
  - rewrite (positions_step j m Hj).
    destruct (Placement.window_len total_frames batch_size step j <=? overlap)
      eqn:Ej.
    + simpl. split; [lia|]. intros [_ H]. specialize (H j ltac:(lia)).
      congruence.
    + destruct i as [|i]; simpl.
      * split; [|lia]. intros _. split; [lia|].
        intros k Hk. now replace k with j by lia.
      * rewrite <- Nat.succ_lt_mono, (IH (S j) i ltac:(lia)).
        split; intros [Hi H]; (split; [lia|]); intros k Hk.
        -- destruct (Nat.eq_dec k j) as [->|]; [exact Ej|apply H; lia].
        -- apply H; lia.
Qed.

End Windows.

Lemma encode_step_pos (batch_size temporal_overlap : Z) :
  1 <= batch_size -> 0 < fst (encode_step batch_size temporal_overlap).
Proof.
  intros Hb. unfold encode_step.
  destruct (0 <? temporal_overlap);
    match goal with |- context [?s <=? 0] => destruct (Z.leb_spec s 0) end;
    simpl; lia.
Qed.

Lemma encode_windows_unfold (total_frames batch_size temporal_overlap : Z) :
  1 <= total_frames -> 1 <= batch_size ->
  let step := fst (encode_step batch_size temporal_overlap) in
  let overlap := snd (encode_step batch_size temporal_overlap) in
  exists n : nat,
    encode_windows total_frames batch_size temporal_overlap
    = (0, Z.min batch_size total_frames)
        :: encode_windows_from (Placement.positions step 1 n)
                               total_frames batch_size overlap
    /\ forall k : nat, (k < S n)%nat <-> Z.of_nat k * step < total_frames.
Proof.
  intros Ht Hb step overlap.
  pose proof (encode_step_pos batch_size temporal_overlap Hb) as Hs. fold step in Hs.
  unfold encode_windows.
  destruct (encode_step batch_size temporal_overlap) as [s o] eqn:E.
  simpl in step, overlap. subst step overlap.
  destruct (range_step_count total_frames s Hs Ht) as (Hlt & Hge & _).
  unfold Py.range_step. destruct (Z.ltb_spec 0 s); [|lia].
  remember (Z.to_nat ((total_frames + s - 1) / s)) as n eqn:En.
  destruct n as [|n]; [simpl in Hge; lia|].
  exists n. split; [reflexivity|].
  intros k. split; [apply Hlt|]. intros Hk.
  destruct (Nat.lt_ge_cases k (S n)) as [|Hge']; [assumption|].
  assert (Z.of_nat (S n) <= Z.of_nat k) by lia. nia.
Qed.

(** C3 (as amended): batch [i] starts at [i * step]; the loop stops at the
    first batch [i > 0] whose window holds at most [temporal_overlap] frames;
    for 17 frames, batch size 9 and overlap 4 the windows are [0,9), [5,14)
    and [10,17). *)
Theorem encode_windows_placement (total_frames batch_size temporal_overlap : Z) :
  1 <= total_frames -> 1 <= batch_size ->
  Placement.starts_at_multiples total_frames batch_size temporal_overlap
  /\ Placement.stops_when_at_most total_frames batch_size temporal_overlap
  /\ encode_windows 17 9 4 = [(0, 9); (5, 14); (10, 17)].
Proof.
  intros Ht Hb.
  destruct (encode_windows_unfold total_frames batch_size temporal_overlap Ht Hb)
    as (n & Ews & Hn).
  pose proof (encode_step_pos batch_size temporal_overlap Hb) as Hs.
  unfold Placement.starts_at_multiples, Placement.stops_when_at_most,
    Placement.processed_until.
  destruct (encode_step batch_size temporal_overlap) as [step overlap].
  simpl in Ews, Hn, Hs. rewrite Ews. split; [|split; [|reflexivity]].
  - intros [|i] s e Hl; simpl in Hl.
    + inversion Hl; subst. split; lia.
    + apply (positions_lookup total_frames batch_size step overlap Hs) in Hl;
        [|lia].
      exact Hl.
  - intros [|i]; simpl.
    + split; [|lia]. intros _. split; [lia|]. intros j Hj. lia.
    + rewrite <- Nat.succ_lt_mono.
      rewrite (positions_length total_frames batch_size step overlap Hs
                                n 1 i (le_n 1)).
      rewrite <- (Hn (S i)).
      split; intros [Hi H]; (split; [lia|]); intros k Hk; apply H; lia.
Qed.

Lemma encode_windows_placement_witness :
  Placement.starts_at_multiples 17 9 4
  /\ Placement.stops_when_at_most 17 9 4
  /\ encode_windows 17 9 4 = [(0, 9); (5, 14); (10, 17)].
Proof.
  apply (encode_windows_placement 17 9 4); lia.
Defined.

(** C3 as stated fails: with 9 frames, batch size 5 and overlap 1 the batch
    at position 8 has exactly one frame left, which is not fewer than the
    overlap, and the loop stops there all the same. *)
Lemma stops_when_fewer_counterexample : ~ Placement.stops_when_fewer 9 5 1.
Proof.
  unfold Placement.stops_when_fewer, Placement.processed_until.
  change (encode_step 5 1) with (4, 1).
  change (encode_windows 9 5 1) with [(0, 5); (4, 9)].
  intros H. destruct (H 2%nat) as [_ H2].
  cut (2 < 2)%nat; [lia|]. apply H2. split; [reflexivity|].
  intros j Hj. assert (Ej : j = 1%nat \/ j = 2%nat) by lia.
  destruct Ej; subst j; reflexivity.
Qed.

(* ================================================================== *)
(** * Phase 1 and Phase 4: frame counts *)

Section NoOverlap.

Variables total_frames batch_size overlap : Z.
Hypothesis batch_pos : 0 < batch_size.
Hypothesis no_overlap : overlap <= 0.

(** Without overlap the loop never breaks, and consecutive windows tile
    the frames from the first position to the end of the video. *)
Lemma tiling_sum (m : nat) :
  forall j : nat,
    (1 <= j)%nat ->
    (forall k : nat, (k < j + m)%nat -> Z.of_nat k * batch_size < total_frames) ->
    total_frames <= Z.of_nat (j + m) * batch_size ->
    Py.sum (map Placement.window_frames
                (encode_windows_from (Placement.positions batch_size j m)
                                     total_frames batch_size overlap))
    = if (m =? 0)%nat then 0 else total_frames - Z.of_nat j * batch_size.
Proof.
  induction m as [|m IH]; intros j Hj Hlt Hge; [reflexivity|].
  rewrite (positions_step total_frames batch_size batch_size overlap
                          batch_pos j m Hj).
  pose proof (Hlt j ltac:(lia)) as Hjlt.
  unfold Placement.window_len.
  destruct (Z.leb_spec (Z.min (Z.of_nat j * batch_size + batch_size) total_frames
                        - Z.of_nat j * batch_size) overlap); [lia|].
  cbn [map Py.sum fold_right].
  fold (Py.sum (map Placement.window_frames
                    (encode_windows_from
                       (Placement.positions batch_size (S j) m)
                       total_frames batch_size overlap))).
  rewrite IH; [|lia| |].
  - unfold Placement.window_frames. simpl. destruct m as [|m]; simpl.
    + replace (j + 1)%nat with (S j) in Hge by lia. nia.
    + pose proof (Hlt (S j) ltac:(lia)). nia.
  - intros k Hk. apply Hlt. lia.
  - now replace (S j + m)%nat with (j + S m)%nat by lia.
Qed.

End NoOverlap.

(** Without temporal overlap the recorded windows add up to the video. *)
Lemma encode_windows_sum_no_overlap (total_frames batch_size temporal_overlap : Z) :
  1 <= total_frames -> 1 <= batch_size ->
  temporal_overlap <= 0 \/ batch_size <= temporal_overlap ->
  Py.sum (map Placement.window_frames
              (encode_windows total_frames batch_size temporal_overlap))
  = total_frames.
Proof.
  intros Ht Hb Hov.
  destruct (encode_windows_unfold total_frames batch_size temporal_overlap Ht Hb)
    as (n & Ews & Hn).
  assert (E : encode_step batch_size temporal_overlap = (batch_size, Z.min temporal_overlap 0)).
  { unfold encode_step. destruct (Z.ltb_spec 0 temporal_overlap).
    - destruct (Z.leb_spec (batch_size - temporal_overlap) 0); [|lia].
      f_equal; lia.
    - destruct (Z.leb_spec batch_size 0); [lia|]. f_equal; lia. }
  rewrite E in Ews, Hn. simpl in Ews, Hn. rewrite Ews.
  cbn [map Py.sum fold_right].
  fold (Py.sum (map Placement.window_frames
                    (encode_windows_from
                       (Placement.positions batch_size 1 n)
                       total_frames batch_size (Z.min temporal_overlap 0)))).
  rewrite (tiling_sum total_frames batch_size (Z.min temporal_overlap 0)
                      ltac:(lia) ltac:(lia) n 1 (le_n 1)).
  - unfold Placement.window_frames. simpl. destruct n as [|n]; simpl.
    + pose proof (proj2 (Hn 1%nat)). lia.
    + pose proof (proj1 (Hn 1%nat) ltac:(lia)). lia.
  - intros k Hk. apply Hn. lia.
  - destruct (Z.lt_ge_cases (Z.of_nat (1 + n) * batch_size) total_frames) as [H|H];
      [|exact H].
    apply Hn in H. lia.
Qed.

(** With 17 frames, batch size 9 and overlap 4, Phase 1 records the original
    lengths 9, 9 and 7, which add up to 25 and not to 17, and Phase 4 raises
    when the second batch no longer fits the 17-frame output. *)
Example overlap_run_raises :
  exists ctx,
    Run.overlap_run = Ok ctx
    /\ total_frames ctx = Some 17
    /\ ori_lengths_of ctx = [9; 9; 7]
    /\ Py.sum (ori_lengths_of ctx) = 25
    /\ Run.phase4 ctx = Raise RuntimeError.
Proof.
  eexists. split; [vm_compute; reflexivity|].
  repeat split; vm_compute; reflexivity.
Qed.

(** Without overlap the same pipeline keeps the length: 7 frames in batches
    of 5 give the original lengths 5 and 2 and a 7-frame output. *)
Example no_overlap_keeps_length :
  exists ctx ctx',
    Run.with_samples (Run.phase1 (Run.rgb_images 7) 5 0)
                     [Some (Run.decoded 0 5); Some (Run.decoded 1 5)] = Ok ctx
    /\ ori_lengths_of ctx = [5; 2]
    /\ Run.phase4 ctx = Ok ctx'
    /\ option_map (@length _) (final_video ctx') = Some 7%nat.
Proof.
  eexists _, _. split; [vm_compute; reflexivity|].
  split; [vm_compute; reflexivity|].
  split; [vm_compute; reflexivity|]. reflexivity.
Qed.

(* ================================================================== *)
(** * Phase 4: the alpha stage *)

Section AlphaStage.

Context {Frame Latent Alpha Rgb Style Embeds : Type}.
Variable process_alpha_for_batch :
  option (list (list Frame)) -> option Alpha -> option Rgb -> list (list Frame).

Lemma alpha_scan_last (samples : list (option (list (@Sample Frame))))
      (alphas : list (option Alpha)) (idxs : list Z) :
  forall acc,
    alpha_scan idxs samples alphas acc
    = match last idxs with
      | Some i => Some (Z.to_nat i)
      | None => acc
      end.
Proof.
  induction idxs as [|i idxs IH]; intros acc; [reflexivity|].
  cbn [alpha_scan].
  assert (E : alpha_scan idxs samples alphas (Some (Z.to_nat i))
              = match last (i :: idxs) with
                | Some i0 => Some (Z.to_nat i0)
                | None => acc
                end).
  { rewrite IH. destruct idxs as [|z idxs']; [reflexivity|].
    change (last (i :: z :: idxs')) with (last (z :: idxs')).
    destruct (last (z :: idxs')) eqn:El; [reflexivity|].
    apply last_None in El. discriminate. }
  destruct (samples !! Z.to_nat i) as [[?|]|];
    destruct (alphas !! Z.to_nat i) as [[?|]|]; exact E.
Qed.

(** Whatever the context and the operator, the alpha stage leaves every
    batch but the last one as it found it. *)
Lemma alpha_stage_keeps_earlier_batches
      (ctx ctx' : @Ctx Frame Latent Alpha Rgb Style Embeds) (i : nat) :
  alpha_stage process_alpha_for_batch ctx = Ok ctx' ->
  (S i < length (default [] (batch_samples ctx)))%nat ->
  default [] (batch_samples ctx') !! i = default [] (batch_samples ctx) !! i.
Proof.
  unfold alpha_stage. intros H Hi.
  destruct (is_rgba ctx); [|now inversion H].
  destruct (all_alpha_channels ctx) as [alphas|]; [|now inversion H].
  destruct (all_input_rgb ctx) as [rgbs|]; [|now inversion H].
  rewrite alpha_scan_last in H.
  set (samples := default [] (batch_samples ctx)) in *.
  destruct (last (Py.range 0 (Z.of_nat (length samples)))) as [k|] eqn:Hlast;
    [|discriminate].
  assert (Hk : Z.to_nat k = (length samples - 1)%nat).
  { unfold Py.range in Hlast. rewrite Z.sub_0_r, Nat2Z.id in Hlast.
    destruct (length samples) as [|n]; [discriminate|].
    rewrite seq_S, map_app in Hlast. cbn [map] in Hlast.
    rewrite last_snoc in Hlast. inversion Hlast. lia. }
  rewrite Hk in H. unfold index, assign in H.
  repeat match type of H with
         | context [?l !! ?n] =>
             destruct (l !! n); cbn [bind] in H; try discriminate
         | context [(?a <? ?b)%nat] =>
             destruct (a <? b)%nat; cbn [bind] in H; try discriminate
         end.
  inversion H; subst ctx'. simpl.
  apply list_lookup_insert_ne. lia.
Qed.

End AlphaStage.

(** C1 at 7 RGBA frames in two batches: the alpha stage dispatches the last
    batch only; the first batch keeps its decoded RGB samples and its alpha
    and input-RGB slots stay unconsumed. *)
Theorem alpha_stage_dispatches_last_batch_only :
  exists ctx ctx',
    Run.rgba_run = Ok ctx
    /\ is_rgba ctx = true
    /\ all_alpha_channels ctx = Some [Some [0; 1; 2; 3; 4]; Some [5; 6; 6; 6; 6]]%nat
    /\ alpha_stage Run.process_alpha_for_batch ctx = Ok ctx'
    /\ batch_samples ctx'
       = Some [Some (Run.decoded 0 5);
               Some (Run.process_alpha_for_batch
                       (Some (Run.decoded 1 5))
                       (Some [5; 6; 6; 6; 6]%nat) (Some [5; 6; 6; 6; 6]%nat))]
    /\ all_alpha_channels ctx' = Some [Some [0; 1; 2; 3; 4]%nat; None]
    /\ all_input_rgb ctx' = Some [Some [0; 1; 2; 3; 4]%nat; None].
Proof.
  eexists _, _. split; [vm_compute; reflexivity|].
  split; [reflexivity|]. split; [reflexivity|].
  split; [vm_compute; reflexivity|]. repeat split.
Qed.

(* ================================================================== *)
(** * Precision detector and Phase 2 *)

Section Phase2.

Context {Frame Latent Alpha Rgb Style Embeds : Type}.

Lemma ensure_precision_cases (ctx : @Ctx Frame Latent Alpha Rgb Style Embeds) (runner : Runner) :
  _ensure_precision_initialized ctx runner
  = match compute_dtype ctx with
    | Some _ => ctx
    | None => set_precision (Some bfloat16) (Some bfloat16) ctx
    end.
Proof.
  unfold _ensure_precision_initialized.
  destruct (compute_dtype ctx); [reflexivity|].
  destruct (dit_dtype runner) as [[]|], (vae_dtype runner); reflexivity.
Qed.

Lemma ensure_precision_keeps_latents (ctx : @Ctx Frame Latent Alpha Rgb Style Embeds) (runner : Runner) :
  all_latents (_ensure_precision_initialized ctx runner) = all_latents ctx
  /\ text_embeds (_ensure_precision_initialized ctx runner) = text_embeds ctx.
Proof.
  rewrite ensure_precision_cases. destruct (compute_dtype ctx); auto.
Qed.

Lemma count_valid_all_none (latents : list (option Latent)) :
  Forall (fun l => l = None) latents -> count_valid latents = 0%nat.
Proof.
  induction 1 as [|x l Hx _ IH]; [reflexivity|]. subst x. exact IH.
Qed.

Variable load_text_embeddings : option DType -> Result Embeds.
Variable materialize_dit : Result unit.
Variable dit_inference : Latent -> Result Latent.
Variable cleanup_text_embeddings :
  @Ctx Frame Latent Alpha Rgb Style Embeds ->
  @Ctx Frame Latent Alpha Rgb Style Embeds.

Lemma upscale_requires_latents (runner : Runner) (ctx : @Ctx Frame Latent Alpha Rgb Style Embeds) :
  all_latents ctx = None \/ all_latents ctx = Some [] ->
  upscale_all_batches load_text_embeddings materialize_dit dit_inference
                      cleanup_text_embeddings runner (Some ctx) true
  = (Raise ValueError, []).
Proof.
  intros H. unfold upscale_all_batches. cbn [negb].
  destruct (ensure_precision_keeps_latents ctx runner) as [-> _].
  destruct H as [-> | ->]; reflexivity.
Qed.

Lemma upscale_nothing_valid (runner : Runner) (ctx : @Ctx Frame Latent Alpha Rgb Style Embeds)
      (latents : list (option Latent)) :
  all_latents ctx = Some latents -> latents <> [] ->
  Forall (fun l => l = None) latents ->
  (forall d, exists e, load_text_embeddings d = Ok e) ->
  exists ctx' trace,
    upscale_all_batches load_text_embeddings materialize_dit dit_inference
                        cleanup_text_embeddings runner (Some ctx) true
    = (Ok ctx', trace)
    /\ all_upscaled_latents ctx' = Some []
    /\ all_latents ctx' = Some latents
    /\ existsb is_dit_work trace = false.
Proof.
  intros Hl Hne Hnone Hload. unfold upscale_all_batches. cbn [negb].
  destruct (ensure_precision_keeps_latents ctx runner) as [El Et].
  set (ctx1 := _ensure_precision_initialized ctx runner) in *.
  rewrite El, Hl.
  assert (Htruthy : truthy (Some latents) = true)
    by (destruct latents; [congruence|reflexivity]).
  rewrite Htruthy. cbn [negb].
  destruct (text_embeds ctx1) as [emb|].
  - rewrite El, Hl.
    change (default [] (Some latents)) with latents.
    rewrite (count_valid_all_none _ Hnone).
    cbn [Nat.eqb]. eexists _, _. split; [reflexivity|]. simpl. rewrite El, Hl. auto.
  - destruct (Hload (compute_dtype ctx1)) as [e He]. rewrite He. cbn [bind].
    cbn [all_latents set_text_embeds]. rewrite El, Hl.
    change (default [] (Some latents)) with latents.
    rewrite (count_valid_all_none _ Hnone). cbn [Nat.eqb].
    eexists _, _. split; [reflexivity|]. simpl. rewrite El, Hl. auto.
Qed.

End Phase2.

(** C9: whatever the runner's weights are, and also when they cannot be
    inspected, a context without a compute dtype gets [bfloat16] for both
    the compute and the autocast dtype, and any later call leaves the context
    as it is. *)
Theorem ensure_precision_always_bfloat16
        {Frame Latent Alpha Rgb Style Embeds : Type}
        (ctx : @Ctx Frame Latent Alpha Rgb Style Embeds) (runner : Runner) :
  compute_dtype ctx = None ->
  let ctx' := _ensure_precision_initialized ctx runner in
  compute_dtype ctx' = Some bfloat16
  /\ autocast_dtype ctx' = Some bfloat16
  /\ forall runner', _ensure_precision_initialized ctx' runner' = ctx'.
Proof.
  intros Hnone ctx'. subst ctx'.
  rewrite (ensure_precision_cases ctx runner), Hnone.
  split; [reflexivity|]. split; [reflexivity|].
  intros runner'. now rewrite ensure_precision_cases.
Qed.

Lemma ensure_precision_always_bfloat16_witness :
  let ctx' := _ensure_precision_initialized Run.ctx0
                (mkRunner (Some float8_e5m2) (Some float16)) in
  compute_dtype ctx' = Some bfloat16
  /\ autocast_dtype ctx' = Some bfloat16
  /\ forall runner', _ensure_precision_initialized ctx' runner' = ctx'.
Proof.
  apply (ensure_precision_always_bfloat16
           Run.ctx0 (mkRunner (Some float8_e5m2) (Some float16))).
  reflexivity.
Defined.

(** C10: with a non-empty [all_latents] holding only [None], Phase 2 returns
    normally with an empty [all_upscaled_latents] and without any DiT work
    (given that the text embeddings load); without [all_latents], or with an
    empty list, it raises [ValueError]. *)
Theorem upscale_all_batches_without_valid_latents
        {Frame Latent Alpha Rgb Style Embeds : Type}
        (load_text_embeddings : option DType -> Result Embeds)
        (materialize_dit : Result unit)
        (dit_inference : Latent -> Result Latent)
        (cleanup_text_embeddings :
           @Ctx Frame Latent Alpha Rgb Style Embeds ->
           @Ctx Frame Latent Alpha Rgb Style Embeds)
        (runner : Runner) (ctx : @Ctx Frame Latent Alpha Rgb Style Embeds)
        (latents : list (option Latent)) :
  all_latents ctx = Some latents -> latents <> [] ->
  Forall (fun l => l = None) latents ->
  (forall d, exists e, load_text_embeddings d = Ok e) ->
  (exists ctx' trace,
      upscale_all_batches load_text_embeddings materialize_dit dit_inference
                          cleanup_text_embeddings runner (Some ctx) true
      = (Ok ctx', trace)
      /\ all_upscaled_latents ctx' = Some []
      /\ existsb is_dit_work trace = false)
  /\ (forall ctx0 : @Ctx Frame Latent Alpha Rgb Style Embeds,
         all_latents ctx0 = None \/ all_latents ctx0 = Some [] ->
         upscale_all_batches load_text_embeddings materialize_dit dit_inference
                             cleanup_text_embeddings runner (Some ctx0) true
         = (Raise ValueError, [])).
Proof.
  intros Hl Hne Hnone Hload. split.
  - destruct (upscale_nothing_valid load_text_embeddings materialize_dit
                dit_inference cleanup_text_embeddings runner ctx latents
                Hl Hne Hnone Hload) as (ctx' & trace & H1 & H2 & _ & H3).
    eauto.
  - intros ctx0. apply upscale_requires_latents.
Qed.

Lemma upscale_all_batches_without_valid_latents_witness :
  (exists ctx' trace,
      upscale_all_batches Run.load_text_embeddings Run.materialize_dit
                          Run.dit_inference Run.cleanup_text_embeddings
                          Run.runner (Some Run.consumed_latents) true
      = (Ok ctx', trace)
      /\ all_upscaled_latents ctx' = Some []
      /\ existsb is_dit_work trace = false)
  /\ (forall ctx0 : Run.Context,
         all_latents ctx0 = None \/ all_latents ctx0 = Some [] ->
         upscale_all_batches Run.load_text_embeddings Run.materialize_dit
                             Run.dit_inference Run.cleanup_text_embeddings
                             Run.runner (Some ctx0) true
         = (Raise ValueError, [])).
Proof.
  apply (upscale_all_batches_without_valid_latents
           Run.load_text_embeddings Run.materialize_dit Run.dit_inference
           Run.cleanup_text_embeddings Run.runner Run.consumed_latents
           [None; None]).
  - reflexivity.
  - discriminate.
  - repeat constructor.
  - intros d. exists tt. reflexivity.
Defined.

(* ================================================================== *)
(** * Phases 1 and 4: what is recorded and how far the cursor gets *)


Lemma assign_ok {A : Type} (l : list A) (i : nat) (x : A) :
  (i < length l)%nat -> assign l i x = Ok (<[i := x]> l).
Proof.
  intros H. unfold assign. destruct (Nat.ltb_spec i (length l)); [reflexivity|lia].
Qed.

Lemma count_batches_length (total_frames batch_size overlap : Z) (idxs : list Z) :
  forall n : nat,
    Forall (fun x => 0 <= x) idxs ->
    count_batches idxs total_frames batch_size overlap n
    = (n + length (encode_windows_from idxs total_frames batch_size overlap))%nat.
Proof.
  induction idxs as [|idx idxs IH]; intros n Hpos; [simpl; lia|].
  inversion Hpos as [|? ? Hidx Hrest]; subst.
  cbn [count_batches encode_windows_from].
  destruct (Z.eqb_spec idx 0) as [->|Hne].
  - simpl. rewrite IH by assumption. simpl. lia.
  - destruct (Z.ltb_spec 0 idx); [|lia]. cbn [andb].
    destruct (Z.min (idx + batch_size) total_frames - idx <=? overlap);
      [simpl; lia|].
    rewrite IH by assumption. simpl. lia.
Qed.

Lemma slice_length {A : Type} (l : list A) (s e : Z) :
  0 <= s -> s <= e -> e <= Z.of_nat (length l) ->
  Z.of_nat (length (Py.slice l s e)) = e - s.
Proof.
  intros Hs Hse He. unfold Py.slice. rewrite length_take, length_drop. lia.
Qed.

Lemma cut_videos_nonempty {Slice : Type} (videos : list Slice) :
  videos <> [] -> exists r, Conformer.cut_videos videos = Some r.
Proof.
  intros Hne. unfold Conformer.cut_videos.
  destruct (_ =? 1); [eauto|].
  destruct (last videos) as [f|] eqn:Hlast.
  - rewrite (last_slice_last videos f Hlast). simpl. eauto.
  - apply last_None in Hlast. contradiction.
Qed.

Lemma conform_ok {Frame : Type} (video : list Frame) :
  video <> [] -> exists v, conform video = Ok v.
Proof.
  intros Hne. unfold conform. destruct (negb _); [|eauto].
  destruct (cut_videos_nonempty video Hne) as [r ->]. eauto.
Qed.

Ltac ctx_simpl :=
  cbn [all_latents all_ori_lengths all_transformed_videos all_alpha_channels
       all_input_rgb total_frames is_rgba batch_samples final_video
       compute_dtype autocast_dtype text_embeds all_upscaled_latents
       cache_context
       set_all_ori_lengths set_all_transformed_videos set_alpha
       set_all_latents set_batch_samples set_final_video set_precision
       set_text_embeds set_all_upscaled_latents set_cache_context
       bind default from_option Datatypes.id negb fst snd].

Lemma windows_valid (total batch_size overlap : Z) (idxs : list Z) :
  1 <= batch_size ->
  Forall (fun x => 0 <= x < total) idxs ->
  Forall (fun w => 0 <= fst w /\ fst w < snd w /\ snd w <= total)
         (encode_windows_from idxs total batch_size overlap).
Proof.
  intros Hb. induction 1 as [|idx idxs Hidx _ IH]; [constructor|].
  cbn [encode_windows_from]. destruct (Z.eqb_spec idx 0) as [->|Hne].
  - constructor; [simpl; lia|exact IH].
  - destruct (_ <=? overlap); constructor; [simpl; lia|exact IH].
Qed.

Lemma range_step_bounds (total step : Z) :
  0 < step -> 1 <= total ->
  Forall (fun x => 0 <= x < total) (Py.range_step total step).
Proof.
  intros Hs Ht. destruct (range_step_count total step Hs Ht) as (Hlt & _ & _).
  unfold Py.range_step. destruct (Z.ltb_spec 0 step); [|lia].
  apply Forall_forall. intros x Hx. apply list_elem_of_In in Hx.
  apply in_map_iff in Hx as (k & <- & Hk). apply in_seq in Hk.
  specialize (Hlt k ltac:(lia)). nia.
Qed.

Lemma omap_map_Some {A B : Type} (f : A -> B) (l : list A) :
  omap (fun x => x) (map (fun a => Some (f a)) l) = map f l.
Proof.
  induction l as [|a l IH]; [reflexivity|]. simpl. f_equal. exact IH.
Qed.

(** The entries of [enumerate(l)], from any first index. *)
Lemma lookup_combine_seq {A : Type} (l : list A) :
  forall k j : nat,
    combine (seq k (length l)) l !! j = (fun x => ((k + j)%nat, x)) <$> l !! j.
Proof.
  induction l as [|x l IH]; intros k j; [reflexivity|].
  destruct j as [|j]; cbn [length seq combine].
  - cbn. now rewrite Nat.add_0_r.
  - change ((?a :: ?r) !! S j) with (r !! j). rewrite IH.
    destruct (l !! j); cbn; [|reflexivity]. do 2 f_equal. lia.
Qed.


(* ================================================================== *)
(** * Batching: coverage, shape and number of the windows *)

Lemma encode_step_shape (batch_size temporal_overlap : Z) :
  1 <= batch_size ->
  let step := fst (encode_step batch_size temporal_overlap) in
  let overlap := snd (encode_step batch_size temporal_overlap) in
  0 < step <= batch_size /\ (0 < overlap -> batch_size = step + overlap).
Proof.
  intros Hb. unfold encode_step.
  destruct (Z.ltb_spec 0 temporal_overlap);
    match goal with |- context [?s <=? 0] => destruct (Z.leb_spec s 0) end;
    simpl; lia.
Qed.

(** X1: Every frame of the video lies in the window of a batch the encoding
    loop processes: the break on a short leftover drops no frame. *)
Theorem encode_windows_cover (total_frames batch_size temporal_overlap f : Z) :
  1 <= batch_size -> 0 <= f < total_frames ->
  Exists (fun w => fst w <= f < snd w)
         (encode_windows total_frames batch_size temporal_overlap).
Proof.
  intros Hb Hf. assert (Ht : 1 <= total_frames) by lia.
  destruct (encode_windows_unfold total_frames batch_size temporal_overlap Ht Hb)
    as (n & Ews & Hn).
  destruct (encode_step_shape batch_size temporal_overlap Hb) as [Hs Hov].
  destruct (encode_step batch_size temporal_overlap) as [step overlap].
  simpl in Ews, Hn, Hs, Hov. rewrite Ews.
  set (rest := encode_windows_from (Placement.positions step 1 n)
                                   total_frames batch_size overlap) in *.
  pose proof (positions_length total_frames batch_size step overlap
                               ltac:(lia) n 1) as Hlen. fold rest in Hlen.
  pose proof (positions_lookup total_frames batch_size step overlap
                               ltac:(lia) n 1) as Hlook. fold rest in Hlook.
  assert (Hq : 0 <= f / step) by (apply Z.div_pos; lia).
  pose proof (Z.div_mod f step ltac:(lia)) as Hdm.
  pose proof (Z.mod_pos_bound f step ltac:(lia)) as Hmb.
  (* the window at index [i] of the whole list *)
  assert (Hwin : forall i : nat, (i <= length rest)%nat ->
            exists w, ((0, Z.min batch_size total_frames) :: rest) !! i = Some w
                      /\ fst w = Z.of_nat i * step
                      /\ snd w = Z.min (Z.of_nat i * step + batch_size) total_frames).
  { intros [|i] Hi.
    - eexists. split; [reflexivity|]. simpl. split; [lia|f_equal; lia].
    - destruct (lookup_lt_is_Some_2 rest i ltac:(lia)) as [[s e] Hw].
      exists (s, e). split; [exact Hw|].
      destruct (Hlook i s e (le_n 1) Hw) as [-> ->]. simpl.
      replace (Z.of_nat (1 + i)) with (Z.of_nat (S i)) by lia. auto. }
  (* the last processed window ends the video *)
  assert (Hlast : total_frames <= Z.of_nat (length rest) * step + batch_size).
  { destruct (Nat.lt_ge_cases (length rest) n) as [Hln|Hln].
    2:{ assert (~ (S (length rest) < S n)%nat) by lia.
        rewrite Hn in H. nia. }
    destruct (Placement.window_len total_frames batch_size step
                                   (S (length rest)) <=? overlap) eqn:Ew.
    - apply Z.leb_le in Ew. unfold Placement.window_len in Ew.
      assert (Z.of_nat (S (length rest)) * step < total_frames)
        by (apply Hn; lia).
      nia.
    - exfalso. apply (Nat.lt_irrefl (length rest)). apply Hlen; [lia|].
      split; [exact Hln|]. intros k Hk.
      destruct (Nat.eq_dec k (S (length rest))) as [->|Hne]; [exact Ew|].
      assert (Hprev : (length rest - 1 < length rest)%nat) by lia.
      apply (Hlen _ (le_n 1)) in Hprev. apply (proj2 Hprev). lia. }
  destruct (Z_le_gt_dec (f / step) (Z.of_nat (length rest))) as [Hle|Hgt].
  - destruct (Hwin (Z.to_nat (f / step)) ltac:(lia)) as (w & Hw & Hs1 & He1).
    apply Exists_exists. exists w. split; [eapply list_elem_of_lookup_2; eauto|].
    rewrite Hs1, He1, Z2Nat.id by lia. nia.
  - destruct (Hwin (length rest) (le_n _)) as (w & Hw & Hs1 & He1).
    apply Exists_exists. exists w. split; [eapply list_elem_of_lookup_2; eauto|].
    rewrite Hs1, He1. nia.
Qed.

Lemma encode_windows_cover_witness :
  Exists (fun w => fst w <= 16 < snd w) (encode_windows 17 9 4).
Proof. apply (encode_windows_cover 17 9 4 16); lia. Defined.

Lemma windows_bounded (total batch_size overlap : Z) (idxs : list Z) :
  1 <= batch_size ->
  Forall (fun x => 0 <= x < total) idxs ->
  Forall (fun w => 0 <= fst w /\ fst w < snd w /\ snd w <= total
                   /\ snd w - fst w <= batch_size)
         (encode_windows_from idxs total batch_size overlap).
Proof.
  intros Hb. induction 1 as [|idx idxs Hidx _ IH]; [constructor|].
  cbn [encode_windows_from]. destruct (Z.eqb_spec idx 0) as [->|Hne].
  - constructor; [simpl; lia|exact IH].
  - destruct (_ <=? overlap); constructor; [simpl; lia|exact IH].
Qed.

Lemma encode_windows_valid (total_frames batch_size temporal_overlap : Z) :
  1 <= total_frames -> 1 <= batch_size ->
  Forall (fun w => 0 <= fst w /\ fst w < snd w /\ snd w <= total_frames
                   /\ snd w - fst w <= batch_size)
         (encode_windows total_frames batch_size temporal_overlap).
Proof.
  intros Ht Hb. unfold encode_windows.
  pose proof (encode_step_pos batch_size temporal_overlap Hb) as Hs.
  destruct (encode_step batch_size temporal_overlap) as [step overlap].
  simpl in Hs. apply windows_bounded; [exact Hb|].
  now apply range_step_bounds.
Qed.

Lemma encode_windows_nonempty (total_frames batch_size temporal_overlap : Z) :
  1 <= total_frames -> 1 <= batch_size ->
  encode_windows total_frames batch_size temporal_overlap <> [].
Proof.
  intros Ht Hb.
  destruct (encode_windows_unfold total_frames batch_size temporal_overlap Ht Hb)
    as (n & -> & _). discriminate.
Qed.

(** X2: Every processed batch is a non-empty window inside the video of at most
    [batch_size] frames, there is at least one, and the slots allocated by
    the counting loop are exactly as many as the batches processed. *)
Theorem encode_windows_well_formed (total_frames batch_size temporal_overlap : Z) :
  1 <= total_frames -> 1 <= batch_size ->
  encode_windows total_frames batch_size temporal_overlap <> []
  /\ Forall (fun w => 0 <= fst w /\ fst w < snd w /\ snd w <= total_frames
                      /\ snd w - fst w <= batch_size)
            (encode_windows total_frames batch_size temporal_overlap)
  /\ count_batches
       (Py.range_step total_frames (fst (encode_step batch_size temporal_overlap)))
       total_frames batch_size (snd (encode_step batch_size temporal_overlap)) 0
     = length (encode_windows total_frames batch_size temporal_overlap).
Proof.
  intros Ht Hb.
  destruct (encode_windows_unfold total_frames batch_size temporal_overlap Ht Hb)
    as (n & Ews & _).
  pose proof (encode_step_pos batch_size temporal_overlap Hb) as Hs.
  split; [rewrite Ews; discriminate|].
  unfold encode_windows.
  destruct (encode_step batch_size temporal_overlap) as [step overlap].
  simpl in Hs |- *.
  pose proof (range_step_bounds total_frames step Hs Ht) as Hrange.
  split; [now apply windows_bounded|].
  rewrite count_batches_length; [reflexivity|].
  eapply Forall_impl; [exact Hrange|]. simpl. intros. lia.
Qed.

Lemma encode_windows_well_formed_witness :
  encode_windows 7 5 0 <> []
  /\ Forall (fun w => 0 <= fst w /\ fst w < snd w /\ snd w <= 7
                      /\ snd w - fst w <= 5)
            (encode_windows 7 5 0)
  /\ count_batches (Py.range_step 7 (fst (encode_step 5 0))) 7 5
                   (snd (encode_step 5 0)) 0
     = length (encode_windows 7 5 0).
Proof. apply (encode_windows_well_formed 7 5 0); lia. Defined.

(** For a batch size of at least 1 the step and overlap the planner reports
    are the ones the encoding loop uses exactly when the requested overlap
    is not negative. *)
Lemma planner_step_matches_encoder (batch_size temporal_overlap : Z) :
  1 <= batch_size ->
  (Planner.effective_step batch_size temporal_overlap
   = encode_step batch_size temporal_overlap
   <-> 0 <= temporal_overlap).
Proof.
  intros Hb. unfold Planner.effective_step, encode_step.
  destruct (Z.ltb_spec 0 temporal_overlap);
    repeat match goal with
           | |- context [?s <=? 0] => destruct (Z.leb_spec s 0)
           end;
    split; intros Heq; try lia; try reflexivity;
    try (inversion Heq; lia); try (f_equal; lia).
Qed.

(* ================================================================== *)
(** * Phase 1: what every slot of the context holds afterwards *)

Section Phase1Stores.

Context {Frame Latent Alpha Rgb Style Embeds : Type}.
Variable has_alpha : Frame -> bool.
Variable video_transform : list Frame -> Style.
Variable apply_input_noise : Q -> nat -> Style -> Style.
Variable vae_encode : Style -> Latent.
Variable alpha_planes : list Frame -> Alpha.
Variable rgb_planes : list Frame -> Rgb.
Variable materialize_vae_encoder : Result unit.
Variable set_vae : Result unit.
Variable manage_model_device : Target -> Result unit.
Variable images : list Frame.
Variable input_noise_scale : Q.
Variable color_correction : ColorCorrection.

(** One iteration of the encoding loop whose slots are all in range. *)
Lemma encode_loop_step (s e : Z) (windows : list (Z * Z)) (k : nat)
    (ctx : @Ctx Frame Latent Alpha Rgb Style Embeds) (v : list Frame)
    (lats : list (option Latent)) (oris : list (option Z))
    (tvs : list (option Style)) (alphas : list (option Alpha))
    (rgbs : list (option Rgb)) :
conform (Py.slice images s e) = Ok v ->
all_latents ctx = Some lats -> (k < length lats)%nat ->
all_ori_lengths ctx = Some oris -> (k < length oris)%nat ->
(is_none color_correction = false ->
 all_transformed_videos ctx = Some tvs /\ (k < length tvs)%nat) ->
(is_rgba ctx = true ->
 default (replicate (length lats) None) (all_alpha_channels ctx) = alphas
 /\ (k < length alphas)%nat
 /\ default (replicate (length lats) None) (all_input_rgb ctx) = rgbs
 /\ (k < length rgbs)%nat) ->
encode_loop video_transform apply_input_noise vae_encode alpha_planes
            rgb_planes images input_noise_scale color_correction
            ((s, e) :: windows) k ctx
= encode_loop video_transform apply_input_noise vae_encode alpha_planes
              rgb_planes images input_noise_scale color_correction
              windows (S k)
    (mkCtx (compute_dtype ctx) (autocast_dtype ctx) (text_embeds ctx)
           (total_frames ctx) (is_rgba ctx)
           (Some (<[k := Some (vae_encode
                                 (transform_batch video_transform
                                    apply_input_noise input_noise_scale k v))]>
                    lats))
           (all_upscaled_latents ctx)
           (Some (<[k := Some (Z.of_nat (length (Py.slice images s e)))]> oris))
           (if is_none color_correction then all_transformed_videos ctx
            else Some (<[k := Some (transform_batch video_transform
                                      apply_input_noise input_noise_scale k v)]>
                         tvs))
           (if is_rgba ctx then Some (<[k := Some (alpha_planes v)]> alphas)
            else all_alpha_channels ctx)
           (if is_rgba ctx then Some (<[k := Some (rgb_planes v)]> rgbs)
            else all_input_rgb ctx)
           (batch_samples ctx) (final_video ctx) (cache_context ctx)).
Proof.
intros Hv Hl Hkl Ho Hko Htv Ha.
destruct ctx as [cd ad te tf rgba lat up ori tv al rg bs fv cc].
cbn [all_latents all_ori_lengths all_transformed_videos
     all_alpha_channels all_input_rgb total_frames is_rgba
     compute_dtype autocast_dtype text_embeds all_upscaled_latents
     batch_samples final_video cache_context] in *.
subst lat ori.
cbn [encode_loop]. rewrite Hv. ctx_simpl.
rewrite (assign_ok oris k) by exact Hko. ctx_simpl.
destruct (is_none color_correction) eqn:Ecc; ctx_simpl;
  [|destruct (Htv eq_refl) as [-> Hkt]; ctx_simpl;
    rewrite (assign_ok tvs k) by exact Hkt; ctx_simpl];
  (destruct rgba; ctx_simpl;
   [destruct (Ha eq_refl) as (Hal & Hka & Hrg & Hkr);
    rewrite Hal, Hrg;
    rewrite (assign_ok alphas k) by exact Hka; ctx_simpl;
    rewrite (assign_ok rgbs k) by exact Hkr; ctx_simpl|]);
  rewrite (assign_ok lats k) by exact Hkl; ctx_simpl; reflexivity.
Qed.

Lemma take_insert_snoc {A : Type} (l : list A) (k : nat) (x : A) :
(k < length l)%nat -> take (S k) (<[k := x]> l) = take k l ++ [x].
Proof.
intros Hk. rewrite (take_S_r _ k x).
- now rewrite take_insert_ge by lia.
- now apply list_lookup_insert_eq.
Qed.

(** The encoding loop from slot [k] on: the context it returns. *)
Lemma encode_loop_stores (windows : list (Z * Z)) (vids : list (list Frame)) :
Forall2 (fun w v => conform (Py.slice images (fst w) (snd w)) = Ok v)
        windows vids ->
forall (k : nat) (ctx : @Ctx Frame Latent Alpha Rgb Style Embeds)
       (lats : list (option Latent)) (oris : list (option Z))
       (tvs : list (option Style)) (alphas : list (option Alpha))
       (rgbs : list (option Rgb)),
  all_latents ctx = Some lats -> length lats = (k + length windows)%nat ->
  all_ori_lengths ctx = Some oris -> length oris = (k + length windows)%nat ->
  (is_none color_correction = false ->
   all_transformed_videos ctx = Some tvs
   /\ length tvs = (k + length windows)%nat) ->
  (is_rgba ctx = true ->
   default (replicate (length lats) None) (all_alpha_channels ctx) = alphas
   /\ length alphas = (k + length windows)%nat
   /\ default (replicate (length lats) None) (all_input_rgb ctx) = rgbs
   /\ length rgbs = (k + length windows)%nat) ->
  encode_loop video_transform apply_input_noise vae_encode alpha_planes
              rgb_planes images input_noise_scale color_correction
              windows k ctx
  = Ok (mkCtx (compute_dtype ctx) (autocast_dtype ctx) (text_embeds ctx)
              (total_frames ctx) (is_rgba ctx)
              (Some (take k lats
                       ++ map (fun p : nat * list Frame =>
                                 Some (vae_encode
                                         (transform_batch video_transform
                                            apply_input_noise input_noise_scale
                                            (fst p) (snd p))))
                              (combine (seq k (length vids)) vids)))
              (all_upscaled_latents ctx)
              (Some (take k oris
                       ++ map (fun w => Some (Z.of_nat (length
                                 (Py.slice images (fst w) (snd w)))))
                              windows))
              (if is_none color_correction then all_transformed_videos ctx
               else Some (take k tvs
                            ++ map (fun p : nat * list Frame =>
                                      Some (transform_batch video_transform
                                              apply_input_noise
                                              input_noise_scale
                                              (fst p) (snd p)))
                                   (combine (seq k (length vids)) vids)))
              (match is_rgba ctx, windows with
               | true, _ :: _ =>
                   Some (take k alphas
                           ++ map (fun v => Some (alpha_planes v)) vids)
               | _, _ => all_alpha_channels ctx
               end)
              (match is_rgba ctx, windows with
               | true, _ :: _ =>
                   Some (take k rgbs ++ map (fun v => Some (rgb_planes v)) vids)
               | _, _ => all_input_rgb ctx
               end)
              (batch_samples ctx) (final_video ctx) (cache_context ctx)).
Proof.
induction 1 as [|[s e] v windows vids Hv Hrest IH];
  intros k ctx lats oris tvs alphas rgbs Hl Hll Ho Hol Htv Ha.
- simpl in Hll, Hol. rewrite Nat.add_0_r in Hll, Hol.
  cbn [encode_loop map length seq combine].
  rewrite !app_nil_r, !take_ge by lia.
  destruct ctx as [cd ad te tf rgba lat up ori tv al rg bs fv cc].
  cbn [all_latents all_ori_lengths all_transformed_videos
       all_alpha_channels all_input_rgb total_frames is_rgba
       compute_dtype autocast_dtype text_embeds all_upscaled_latents
       batch_samples final_video cache_context] in *.
  subst lat ori. f_equal.
  destruct (is_none color_correction); [|destruct (Htv eq_refl) as [-> Htl];
                                         rewrite take_ge by (simpl in Htl; lia)];
    destruct rgba; reflexivity.
- simpl in Hv. simpl length in *.
  rewrite (encode_loop_step s e windows k ctx v lats oris tvs alphas rgbs
             Hv Hl ltac:(lia) Ho ltac:(lia)).
  2:{ intros E. destruct (Htv E) as [-> Htl]. split; [reflexivity|lia]. }
  2:{ intros E. destruct (Ha E) as (H1 & H2 & H3 & H4).
      repeat split; try assumption; lia. }
  rewrite (IH (S k) _
              (<[k := Some (vae_encode
                              (transform_batch video_transform apply_input_noise
                                               input_noise_scale k v))]> lats)
              (<[k := Some (Z.of_nat (length (Py.slice images s e)))]> oris)
              (<[k := Some (transform_batch video_transform apply_input_noise
                                            input_noise_scale k v)]> tvs)
              (<[k := Some (alpha_planes v)]> alphas)
              (<[k := Some (rgb_planes v)]> rgbs)); ctx_simpl.
  + f_equal. cbn [seq combine map fst snd].
    f_equal.
    * rewrite take_insert_snoc by lia. f_equal.
      now rewrite <- app_assoc.
    * rewrite take_insert_snoc by lia. f_equal.
      now rewrite <- app_assoc.
    * destruct (is_none color_correction) eqn:Ecc; [reflexivity|].
      destruct (Htv eq_refl) as [_ Htl].
      rewrite take_insert_snoc by lia. f_equal.
      now rewrite <- app_assoc.
    * destruct (is_rgba ctx) eqn:Ergba; [|reflexivity].
      destruct (Ha eq_refl) as (_ & Hal & _ & _).
      destruct windows as [|w windows].
      -- inversion Hrest; subst. cbn [map length] in *.
         rewrite <- (take_insert_snoc alphas k) by lia.
         rewrite take_ge by (rewrite length_insert; lia). reflexivity.
      -- rewrite take_insert_snoc by lia. f_equal.
         now rewrite <- app_assoc.
    * destruct (is_rgba ctx) eqn:Ergba; [|reflexivity].
      destruct (Ha eq_refl) as (_ & _ & _ & Hrl).
      destruct windows as [|w windows].
      -- inversion Hrest; subst. cbn [map length] in *.
         rewrite <- (take_insert_snoc rgbs k) by lia.
         rewrite take_ge by (rewrite length_insert; lia). reflexivity.
      -- rewrite take_insert_snoc by lia. f_equal.
         now rewrite <- app_assoc.
  + reflexivity.
  + rewrite length_insert. lia.
  + reflexivity.
  + rewrite length_insert. lia.
  + intros E. rewrite E. split; [reflexivity|].
    destruct (Htv E) as [_ Htl]. rewrite length_insert. lia.
  + intros E. rewrite E. ctx_simpl.
    destruct (Ha E) as (_ & H2 & _ & H4).
    rewrite !length_insert. repeat split; lia.
Qed.

Lemma windows_conform (windows : list (Z * Z)) :
Forall (fun w => 0 <= fst w /\ fst w < snd w
                 /\ snd w <= Z.of_nat (length images)) windows ->
exists vids,
  Forall2 (fun w v => conform (Py.slice images (fst w) (snd w)) = Ok v)
          windows vids.
Proof.
induction 1 as [|[s e] windows (Hs & Hse & He) _ (vids & IH)].
- exists []. constructor.
- simpl in Hs, Hse, He.
  destruct (conform_ok (Py.slice images s e)) as [v Hv].
  { pose proof (slice_length images s e Hs ltac:(lia) He) as Hlen.
    intros E. rewrite E in Hlen. simpl in Hlen. lia. }
  exists (v :: vids). constructor; assumption.
Qed.

(** The head of the [try] block on a context that carries a cache context,
  when the preparation calls do not raise: the VAE is marked as newly
  cached when it is to be cached and is not cached yet. *)
Lemma prepare_vae_ok (ctx : @Ctx Frame Latent Alpha Rgb Style Embeds)
    (cc : CacheContext) :
cache_context ctx = Some cc ->
materialize_vae_encoder = Ok tt -> set_vae = Ok tt ->
manage_model_device to_vae_device = Ok tt ->
prepare_vae materialize_vae_encoder set_vae manage_model_device ctx
= Ok (set_cache_context
        (Some (if vae_cache cc && negb (cached_vae cc)
               then mkCacheContext (vae_cache cc) (cached_vae cc) true
               else cc)) ctx).
Proof.
intros Hcc Hm Hs Hd. unfold prepare_vae. rewrite Hm, Hcc. cbn [bind].
destruct (vae_cache cc && negb (cached_vae cc)).
- rewrite Hs. cbn [bind]. rewrite Hd. reflexivity.
- cbn [bind]. rewrite Hd. cbn [bind]. f_equal.
  destruct ctx. cbn in Hcc. subst. reflexivity.
Qed.

(** Without a cache context the head of the [try] block raises: the error
  of the materialization, or the [KeyError] of the lookup. *)
Lemma prepare_vae_without_cache_context
    (ctx : @Ctx Frame Latent Alpha Rgb Style Embeds) :
cache_context ctx = None ->
prepare_vae materialize_vae_encoder set_vae manage_model_device ctx
= match materialize_vae_encoder with
  | Ok _ => Raise KeyError
  | Raise e => Raise e
  end.
Proof.
intros Hcc. unfold prepare_vae.
destruct materialize_vae_encoder; cbn [bind]; [|reflexivity].
rewrite Hcc. reflexivity.
Qed.

Lemma ensure_precision_keeps_cache_context
    (ctx : @Ctx Frame Latent Alpha Rgb Style Embeds) (runner : Runner) :
cache_context (_ensure_precision_initialized ctx runner) = cache_context ctx.
Proof.
unfold _ensure_precision_initialized.
destruct (compute_dtype ctx); [reflexivity|].
destruct (dit_dtype runner), (vae_dtype runner);
  repeat match goal with |- context [if ?b then _ else _] => destruct b end;
  reflexivity.
Qed.

(** Phase 1 never returns normally on a context without cache context. *)
Lemma encode_all_batches_needs_cache_context (runner : Runner)
    (ctx : @Ctx Frame Latent Alpha Rgb Style Embeds)
    (imgs : option (list Frame)) (batch_size : Z) (preserve_vram debug : bool)
    (temporal_overlap : Z) :
cache_context ctx = None ->
exists e,
  encode_all_batches has_alpha video_transform apply_input_noise vae_encode
                     alpha_planes rgb_planes materialize_vae_encoder set_vae
                     manage_model_device runner (Some ctx) imgs batch_size
                     preserve_vram debug temporal_overlap input_noise_scale
                     color_correction
  = Raise e.
Proof.
intros Hcc. unfold encode_all_batches.
destruct debug; cbn [negb]; [|eauto].
destruct imgs as [imgs|]; [|eauto].
destruct (_ =? 0); [eauto|].
destruct (index imgs 0) as [first|e]; cbn [bind]; [|eauto].
destruct (encode_step batch_size temporal_overlap) as [step overlap].
rewrite prepare_vae_without_cache_context
  by (ctx_simpl; rewrite ensure_precision_keeps_cache_context; exact Hcc).
destruct materialize_vae_encoder as [u|e]; cbn [bind];
  destruct preserve_vram; try destruct (manage_model_device to_cpu); eauto.
Qed.

(** On the context [prepare_generation_context] returns, the first thing to
  fail is the lookup of the cache context. *)
Lemma encode_all_batches_key_error (runner : Runner)
    (batch_size : Z) (preserve_vram : bool) (temporal_overlap : Z) :
images <> [] ->
materialize_vae_encoder = Ok tt ->
(preserve_vram = true -> manage_model_device to_cpu = Ok tt) ->
encode_all_batches has_alpha video_transform apply_input_noise vae_encode
                   alpha_planes rgb_planes materialize_vae_encoder set_vae
                   manage_model_device runner
                   (Some (@prepare_generation_context
                            Frame Latent Alpha Rgb Style Embeds))
                   (Some images) batch_size preserve_vram true
                   temporal_overlap input_noise_scale color_correction
= Raise KeyError.
Proof.
intros Hne Hm Hd. unfold encode_all_batches. cbn [negb].
rewrite ensure_precision_cases. unfold prepare_generation_context.
ctx_simpl.
destruct (Z.eqb_spec (Z.of_nat (length images)) 0) as [E|_].
{ destruct images; [contradiction|discriminate]. }
unfold index. destruct images as [|first rest]; [contradiction|].
cbn [lookup list_lookup bind].
destruct (encode_step batch_size temporal_overlap) as [step overlap].
rewrite prepare_vae_without_cache_context by reflexivity.
rewrite Hm. cbn [bind].
destruct preserve_vram; [|reflexivity]. now rewrite Hd.
Qed.

Lemma encode_all_batches_ok (runner : Runner) (cc : CacheContext)
      (batch_size : Z) (preserve_vram : bool) (temporal_overlap : Z) :
images <> [] -> 1 <= batch_size ->
materialize_vae_encoder = Ok tt -> set_vae = Ok tt ->
(forall t, manage_model_device t = Ok tt) ->
exists (ctx : @Ctx Frame Latent Alpha Rgb Style Embeds)
       (vids : list (list Frame)),
  encode_all_batches has_alpha video_transform apply_input_noise vae_encode
                     alpha_planes rgb_planes materialize_vae_encoder set_vae
                     manage_model_device runner
                     (Some (set_cache_context (Some cc)
                                              prepare_generation_context))
                     (Some images) batch_size preserve_vram true
                     temporal_overlap input_noise_scale color_correction
  = Ok ctx
  /\ Forall2 (fun w v => conform (Py.slice images (fst w) (snd w)) = Ok v)
             (encode_windows (Z.of_nat (length images))
                             batch_size temporal_overlap) vids
  /\ all_latents ctx
     = Some (map (fun p : nat * list Frame =>
                    Some (vae_encode
                            (transform_batch video_transform apply_input_noise
                                             input_noise_scale (fst p) (snd p))))
                 (enumerate vids))
  /\ all_ori_lengths ctx
     = Some (map (fun w => Some (snd w - fst w))
                 (encode_windows (Z.of_nat (length images))
                                 batch_size temporal_overlap))
  /\ all_transformed_videos ctx
     = (if is_none color_correction then None
        else Some (map (fun p : nat * list Frame =>
                          Some (transform_batch video_transform
                                  apply_input_noise input_noise_scale
                                  (fst p) (snd p)))
                       (enumerate vids)))
  /\ all_alpha_channels ctx
     = (if is_rgba ctx then Some (map (fun v => Some (alpha_planes v)) vids)
        else None)
  /\ all_input_rgb ctx
     = (if is_rgba ctx then Some (map (fun v => Some (rgb_planes v)) vids)
        else None)
  /\ is_rgba ctx = from_option has_alpha false (head images)
  /\ total_frames ctx = Some (Z.of_nat (length images))
  /\ cache_context ctx
     = Some (if vae_cache cc && negb (cached_vae cc)
             then mkCacheContext (vae_cache cc) (cached_vae cc) true
             else cc)
  /\ all_upscaled_latents ctx = Some []
  /\ batch_samples ctx = Some []
  /\ final_video ctx = None.
Proof.
intros Hne Hb Hm Hs Hd. unfold encode_all_batches. cbn [negb].
rewrite ensure_precision_cases. unfold prepare_generation_context.
ctx_simpl.
set (total := Z.of_nat (length images)).
assert (Ht : 1 <= total).
{ subst total. destruct (Nat.eq_dec (length images) 0%nat) as [E|]; [|lia].
  apply nil_length_inv in E. contradiction. }
destruct (Z.eqb_spec total 0); [lia|].
unfold index. rewrite <- head_lookup.
destruct (head images) as [first|] eqn:Ehead.
2:{ apply head_None in Ehead. contradiction. }
cbn [bind from_option].
destruct (encode_windows_unfold total batch_size temporal_overlap Ht Hb)
  as (nw & Ews & _).
unfold encode_windows in *.
pose proof (encode_step_pos batch_size temporal_overlap Hb) as Hstep.
destruct (encode_step batch_size temporal_overlap) as [step overlap].
simpl in Hstep, Ews.
pose proof (range_step_bounds total step Hstep Ht) as Hrange.
rewrite count_batches_length
  by (eapply Forall_impl; [exact Hrange|]; simpl; intros; lia).
cbn [Nat.add].
pose proof (windows_valid total batch_size overlap _ Hb Hrange) as Hvalid.
set (windows := encode_windows_from (Py.range_step total step)
                                    total batch_size overlap) in *.
destruct (windows_conform windows Hvalid) as [vids Hvids].
erewrite (prepare_vae_ok _ cc);
  [|reflexivity|exact Hm|exact Hs|exact (Hd to_vae_device)].
cbn [bind].
rewrite (encode_loop_stores windows vids Hvids 0 _
           (replicate (length windows) None)
           (replicate (length windows) None)
           (replicate (length windows) None)
           (replicate (length windows) None)
           (replicate (length windows) None)); ctx_simpl;
  rewrite ?length_replicate; try reflexivity.
- assert (Hfin : forall r : Result (@Ctx Frame Latent Alpha Rgb Style Embeds),
             (if preserve_vram
              then match manage_model_device to_cpu with
                   | Ok _ => r
                   | Raise e => Raise e
                   end
              else r) = r).
  { intros r. destruct preserve_vram; [|reflexivity].
    now rewrite (Hd to_cpu). }
  rewrite Hfin.
  eexists. exists vids. split; [reflexivity|]. ctx_simpl.
  cbn [take app]. unfold enumerate.
  split; [exact Hvids|]. split; [reflexivity|]. split.
  + f_equal. apply map_ext_Forall.
    eapply Forall_impl; [exact Hvalid|]. intros [s e] (H1 & H2 & H3).
    simpl in *. f_equal. apply slice_length; lia.
  + split; [destruct (is_none color_correction); reflexivity|].
    split; [|split; [|repeat split; reflexivity]];
      destruct (has_alpha first); try reflexivity;
      rewrite Ews; reflexivity.
- intros ->. cbn [negb]. split; reflexivity.
- intros _. repeat split; reflexivity.
Qed.

(** X3: Phase 1 on a context that carries a cache context succeeds for every
  non-empty input and every batch size of at least 1, when the
  preparation of the VAE does not raise, and leaves in slot [i] of each
  store what belongs to the [i]-th window: the latent of its conformed and
  transformed frames (with the input noise of the batch, if any), its
  number of frames before padding, its transformed frames when a colour
  correction is requested, and its alpha and RGB planes when the input
  has an alpha channel.  The VAE is marked as newly cached when it was to
  be cached. *)
Theorem encode_all_batches_stores (runner : Runner) (cc : CacheContext)
      (batch_size : Z) (preserve_vram : bool) (temporal_overlap : Z) :
images <> [] -> 1 <= batch_size ->
materialize_vae_encoder = Ok tt -> set_vae = Ok tt ->
(forall t, manage_model_device t = Ok tt) ->
exists (ctx : @Ctx Frame Latent Alpha Rgb Style Embeds)
       (vids : list (list Frame)),
  encode_all_batches has_alpha video_transform apply_input_noise vae_encode
                     alpha_planes rgb_planes materialize_vae_encoder set_vae
                     manage_model_device runner
                     (Some (set_cache_context (Some cc)
                                              prepare_generation_context))
                     (Some images) batch_size preserve_vram true
                     temporal_overlap input_noise_scale color_correction
  = Ok ctx
  /\ Forall2 (fun w v => conform (Py.slice images (fst w) (snd w)) = Ok v)
             (encode_windows (Z.of_nat (length images))
                             batch_size temporal_overlap) vids
  /\ all_latents ctx
     = Some (map (fun p : nat * list Frame =>
                    Some (vae_encode
                            (transform_batch video_transform apply_input_noise
                                             input_noise_scale (fst p) (snd p))))
                 (enumerate vids))
  /\ all_ori_lengths ctx
     = Some (map (fun w => Some (snd w - fst w))
                 (encode_windows (Z.of_nat (length images))
                                 batch_size temporal_overlap))
  /\ all_transformed_videos ctx
     = (if is_none color_correction then None
        else Some (map (fun p : nat * list Frame =>
                          Some (transform_batch video_transform
                                  apply_input_noise input_noise_scale
                                  (fst p) (snd p)))
                       (enumerate vids)))
  /\ all_alpha_channels ctx
     = (if is_rgba ctx then Some (map (fun v => Some (alpha_planes v)) vids)
        else None)
  /\ all_input_rgb ctx
     = (if is_rgba ctx then Some (map (fun v => Some (rgb_planes v)) vids)
        else None)
  /\ is_rgba ctx = from_option has_alpha false (head images)
  /\ total_frames ctx = Some (Z.of_nat (length images))
  /\ cache_context ctx
     = Some (if vae_cache cc && negb (cached_vae cc)
             then mkCacheContext (vae_cache cc) (cached_vae cc) true
             else cc).
Proof.
intros Hne Hb Hm Hs Hd.
destruct (encode_all_batches_ok runner cc batch_size preserve_vram
            temporal_overlap Hne Hb Hm Hs Hd)
  as (ctx & vids & H1 & H2 & H3 & H4 & H5 & H6 & H7 & H8 & H9 & H10 & _).
exists ctx, vids.
exact (conj H1 (conj H2 (conj H3 (conj H4 (conj H5 (conj H6 (conj H7
         (conj H8 (conj H9 H10))))))))).
Qed.

End Phase1Stores.

Lemma encode_all_batches_stores_witness :
  exists (ctx : Run.Context) (vids : list (list Run.Frame)),
    encode_all_batches Run.has_alpha Run.video_transform Run.apply_input_noise
                       Run.vae_encode Run.alpha_planes Run.rgb_planes
                       Run.materialize_vae_encoder Run.set_vae
                       Run.manage_model_device Run.runner
                       (Some (set_cache_context (Some Run.cache)
                                                prepare_generation_context))
                       (Some (Run.rgba_images 7)) 5 false true 0 (1 # 2)
                       cc_wavelet
    = Ok ctx
    /\ Forall2 (fun w v =>
                  conform (Py.slice (Run.rgba_images 7) (fst w) (snd w)) = Ok v)
               (encode_windows (Z.of_nat (length (Run.rgba_images 7))) 5 0) vids
    /\ all_latents ctx
       = Some (map (fun p : nat * list Run.Frame =>
                      Some (Run.vae_encode
                              (transform_batch Run.video_transform
                                 Run.apply_input_noise (1 # 2) (fst p) (snd p))))
                   (enumerate vids))
    /\ all_ori_lengths ctx
       = Some (map (fun w => Some (snd w - fst w))
                   (encode_windows (Z.of_nat (length (Run.rgba_images 7))) 5 0))
    /\ all_transformed_videos ctx
       = (if is_none cc_wavelet then None
          else Some (map (fun p : nat * list Run.Frame =>
                            Some (transform_batch Run.video_transform
                                    Run.apply_input_noise (1 # 2)
                                    (fst p) (snd p)))
                         (enumerate vids)))
    /\ all_alpha_channels ctx
       = (if is_rgba ctx then Some (map (fun v => Some (Run.alpha_planes v)) vids)
          else None)
    /\ all_input_rgb ctx
       = (if is_rgba ctx then Some (map (fun v => Some (Run.rgb_planes v)) vids)
          else None)
    /\ is_rgba ctx = from_option Run.has_alpha false (head (Run.rgba_images 7))
    /\ total_frames ctx = Some (Z.of_nat (length (Run.rgba_images 7)))
    /\ cache_context ctx
       = Some (if vae_cache Run.cache && negb (cached_vae Run.cache)
               then mkCacheContext (vae_cache Run.cache)
                                   (cached_vae Run.cache) true
               else Run.cache).
Proof.
  apply (encode_all_batches_stores
           Run.has_alpha Run.video_transform Run.apply_input_noise
           Run.vae_encode Run.alpha_planes Run.rgb_planes
           Run.materialize_vae_encoder Run.set_vae Run.manage_model_device
           (Run.rgba_images 7) (1 # 2) cc_wavelet Run.runner Run.cache
           5 false 0).
  - discriminate.
  - lia.
  - reflexivity.
  - reflexivity.
  - intros t. reflexivity.
Defined.

(* ================================================================== *)
(** * Frame conformer: empty input, idempotence and the round trip with
      the trimming of Phase 4 *)

Lemma padding_needed_bounds (t : Z) :
  t mod 4 <> 1 ->
  1 <= Conformer.padding_needed t <= 3
  /\ (t + Conformer.padding_needed t) mod 4 = 1.
Proof. intros H. unfold Conformer.padding_needed. zmod. Qed.

Lemma cut_videos_shape {Slice : Type} (videos r : list Slice) :
  Conformer.cut_videos videos = Some r ->
  videos <> []
  /\ Z.of_nat (length r) mod 4 = 1
  /\ exists pad, r = videos ++ pad /\ (length pad <= 3)%nat.
Proof.
  unfold Conformer.cut_videos.
  destruct (Z.eqb_spec (Z.of_nat (length videos) mod 4) 1) as [E|E].
  - intros [= <-]. split; [|split; [exact E|]].
    + intros ->. simpl in E. discriminate.
    + exists []. rewrite app_nil_r. split; [reflexivity|simpl; lia].
  - destruct (last videos) as [f|] eqn:Hlast.
    + rewrite (last_slice_last videos f Hlast). cbn [Conformer.expand].
      intros [= <-].
      destruct (padding_needed_bounds _ E) as [Hb Hm].
      split; [intros ->; discriminate|]. split.
      * rewrite length_app, repeat_length.
        rewrite Nat2Z.inj_add, Z2Nat.id by lia. exact Hm.
      * eexists. split; [reflexivity|]. rewrite repeat_length. lia.
    + apply last_None in Hlast. subst videos. discriminate.
Qed.

(** X4: The conformer fails exactly on the empty video (there is no last frame
    to repeat), and it leaves a conformed video alone: conforming twice is
    conforming once. *)
Theorem cut_videos_empty_and_idempotent {Slice : Type} (videos : list Slice) :
  (Conformer.cut_videos videos = None <-> videos = [])
  /\ forall r, Conformer.cut_videos videos = Some r ->
               Conformer.cut_videos r = Some r.
Proof.
  split; [split|].
  - intros H. destruct videos as [|s videos]; [reflexivity|].
    destruct (cut_videos_nonempty (s :: videos)) as [r Hr]; [discriminate|].
    congruence.
  - intros ->. reflexivity.
  - intros r H. apply cut_videos_shape in H as (_ & Hm & _).
    unfold Conformer.cut_videos. rewrite Hm. reflexivity.
Qed.

(** X5: The padding step of the encoder and the trimming step of the
    post-processor are inverse to each other: a non-empty batch is conformed
    to a length of the form 4n+1 by adding at most three frames, and cutting
    the result back to the recorded original length gives the batch again. *)
Theorem conform_trim_round_trip {Frame : Type} (video : list Frame) :
  video <> [] ->
  exists v,
    conform video = Ok v
    /\ Z.of_nat (length v) mod 4 = 1
    /\ (length video <= length v <= length video + 3)%nat
    /\ (let ori_length := Z.of_nat (length video) in
        if ori_length <? Z.of_nat (length v) then Py.take ori_length v else v)
       = video.
Proof.
  intros Hne. unfold conform.
  destruct (Z.eqb_spec (Z.of_nat (length video) mod 4) 1) as [E|E]; cbn [negb].
  - exists video. repeat split; try lia; try assumption.
    cbv zeta. rewrite Z.ltb_irrefl. reflexivity.
  - destruct (cut_videos_nonempty video Hne) as [r Hr]. rewrite Hr.
    exists r. split; [reflexivity|].
    destruct (cut_videos_shape video r Hr) as (_ & Hm & pad & -> & Hpad).
    split; [exact Hm|]. rewrite length_app. split; [lia|].
    cbv zeta.
    destruct (Z.ltb_spec (Z.of_nat (length video))
                         (Z.of_nat (length video + length pad))) as [Hlt|Hge].
    + unfold Py.take. destruct (Z.leb_spec 0 (Z.of_nat (length video))); [|lia].
      rewrite Nat2Z.id. apply take_app_length.
    + assert (length pad = 0%nat) as Hz by lia.
      apply nil_length_inv in Hz. subst pad. apply app_nil_r.
Qed.

Lemma conform_trim_round_trip_witness :
  exists v,
    conform [1; 2; 3]%nat = Ok v
    /\ Z.of_nat (length v) mod 4 = 1
    /\ (length [1; 2; 3]%nat <= length v <= length [1; 2; 3]%nat + 3)%nat
    /\ (let ori_length := Z.of_nat (length [1; 2; 3]%nat) in
        if ori_length <? Z.of_nat (length v) then Py.take ori_length v else v)
       = [1; 2; 3]%nat.
Proof. apply (conform_trim_round_trip [1; 2; 3]%nat). discriminate. Defined.

(* ================================================================== *)
(** * Phase 4: how far the cursor gets *)

Section Phase4Cursor.

Context {Frame Latent Alpha Rgb Style Embeds : Type}.
Variable color_correct :
  ColorCorrection -> bool -> list Frame -> Style -> Result (list Frame).
Variable rgb_only : list Frame -> list Frame.
Variable to_output : bool -> Frame -> Frame.
Variable color_correction : ColorCorrection.
Variable total : Z.

Lemma trim_length (L : Z) (sample : list Frame) :
  0 <= L <= Z.of_nat (length sample) ->
  Z.of_nat (length (if L <? Z.of_nat (length sample)
                    then Py.take L sample else sample)) = L.
Proof.
  intros H. destruct (Z.ltb_spec L (Z.of_nat (length sample))); [|lia].
  unfold Py.take. destruct (Z.leb_spec 0 L); [|lia].
  rewrite length_take. lia.
Qed.

Lemma write_frames_fits (video : list (option Frame)) (cur : Z)
      (sample : list Frame) :
  0 <= cur -> cur + Z.of_nat (length sample) <= Z.of_nat (length video) ->
  exists video',
    write_frames video cur sample = Ok video'
    /\ length video' = length video.
Proof.
  intros Hc Hfit. unfold write_frames.
  rewrite !Z.min_l by lia.
  destruct (Z.eqb_spec (cur + Z.of_nat (length sample) - cur)
                       (Z.of_nat (length sample))); [|lia].
  eexists. split; [reflexivity|].
  rewrite !length_app, length_map, length_take, length_drop. lia.
Qed.

(** One sample of a batch without alpha, when the colour correction of
    the batch (if there is one to run) returns as many frames as it is
    given: the cursor advances by the original length of the batch. *)
Lemma postprocess_sample_step
      (ctx : @Ctx Frame Latent Alpha Rgb Style Embeds) (cur L : Z) (k : nat)
      (sample : list Frame) (oris : list (option Z)) :
  all_ori_lengths ctx = Some oris ->
  oris !! k = Some (Some L) ->
  is_rgba ctx = false ->
  0 <= L <= Z.of_nat (length sample) ->
  0 <= cur -> cur + L <= total ->
  (forall v, final_video ctx = Some v -> length v = Z.to_nat total) ->
  (is_none color_correction = false ->
   forall tv s,
     default [] (all_transformed_videos ctx) !! k = Some (Some tv) ->
     Z.of_nat (length s) = L ->
     exists s', color_correct color_correction false s tv = Ok s'
                /\ length s' = length s) ->
  exists ctx' v,
    postprocess_sample color_correct rgb_only to_output color_correction
                       total k sample (ctx, cur) = Ok (ctx', cur + L)
    /\ all_ori_lengths ctx' = Some (<[k := None]> oris)
    /\ is_rgba ctx' = false
    /\ batch_samples ctx' = batch_samples ctx
    /\ final_video ctx' = Some v /\ length v = Z.to_nat total
    /\ forall j, j <> k ->
         default [] (all_transformed_videos ctx') !! j
         = default [] (all_transformed_videos ctx) !! j.
Proof.
  intros Ho Hk Hrgba HL Hcur Hfit Hfv Hcc.
  assert (Hlen : (k < length oris)%nat) by (eapply lookup_lt_Some; eauto).
  destruct ctx as [cd ad te tf rgba lat up ori tv al rg bs fv cc].
  cbn [all_ori_lengths is_rgba final_video batch_samples
       all_transformed_videos] in *. subst ori rgba.
  unfold postprocess_sample. ctx_simpl.
  rewrite (Z.min_l (Z.of_nat k)) by lia.
  destruct (Z.ltb_spec (Z.of_nat k) 0); [lia|].
  rewrite Nat2Z.id. unfold index. rewrite Hk. ctx_simpl.
  pose proof (trim_length L sample HL) as Htrim.
  set (trimmed := if L <? Z.of_nat (length sample)
                  then Py.take L sample else sample) in *.
  assert (Htail :
    forall (tv' : option (list (option Style))) (s : list Frame),
      Z.of_nat (length s) = L ->
      (forall j, j <> k -> default [] tv' !! j = default [] tv !! j) ->
      exists ctx' v,
        (let '(ctx0, sample0) :=
           (mkCtx cd ad te tf false lat up (Some oris) tv' al rg bs fv cc, s) in
         let ctx1 := set_all_ori_lengths (Some (<[k := None]> oris)) ctx0 in
         let sample1 := map (to_output (is_rgba ctx1)) sample0 in
         let batch_frames := Z.of_nat (length sample1) in
         let video :=
           match final_video ctx1 with
           | Some v => v
           | None => replicate (Z.to_nat total) None
           end in
         let* video := write_frames video cur sample1 in
         Ok (set_final_video (Some video) ctx1, cur + batch_frames))
        = Ok (ctx', cur + L)
        /\ all_ori_lengths ctx' = Some (<[k := None]> oris)
        /\ is_rgba ctx' = false
        /\ batch_samples ctx' = bs
        /\ final_video ctx' = Some v /\ length v = Z.to_nat total
        /\ forall j, j <> k ->
             default [] (all_transformed_videos ctx') !! j = default [] tv !! j).
  { intros tv' s Hs Hj. ctx_simpl.
    destruct fv as [v|]; [pose proof (Hfv v eq_refl) as Hv|];
      match goal with
      | |- context [write_frames ?video ?c ?smp] =>
          destruct (write_frames_fits video c smp) as (v' & Hw & Hl);
          [ lia
          | rewrite ?length_map, ?length_replicate; lia
          | rewrite Hw ]
      end;
      ctx_simpl; rewrite ?length_map, Hs;
      eexists _, v'; (split; [reflexivity|]); ctx_simpl;
      rewrite Hl, ?length_replicate; auto 10. }
  destruct (is_none color_correction) eqn:Ecc; cbn [negb].
  - cbn [bind]. apply Htail; [exact Htrim|reflexivity].
  - destruct tv as [tvs|]; [|cbn [bind]; apply Htail; [exact Htrim|reflexivity]].
    destruct (tvs !! k) as [[tvv|]|] eqn:Etv;
      [|cbn [bind]; apply Htail; [exact Htrim|reflexivity]..].
    destruct (Hcc eq_refl tvv trimmed Etv Htrim) as (s' & Hs' & Hl').
    rewrite Hs'. cbn [bind]. apply Htail; [lia|].
    intros j Hj. cbn [default]. apply list_lookup_insert_ne. lia.
Qed.

Lemma postprocess_loop_cursor (ds : list (list Frame)) :
  forall (Ls : list Z) (k : nat) (ctx : @Ctx Frame Latent Alpha Rgb Style Embeds)
         (cur : Z) (oris : list (option Z))
         (slots : list (option (list (@Sample Frame)))),
    Forall2 (fun L d => 0 <= L <= Z.of_nat (length d)) Ls ds ->
    all_ori_lengths ctx = Some oris -> skipn k oris = map Some Ls ->
    batch_samples ctx = Some slots -> length slots = (k + length ds)%nat ->
    is_rgba ctx = false ->
    0 <= cur -> cur + Py.sum Ls <= total ->
    (forall v, final_video ctx = Some v -> length v = Z.to_nat total) ->
    (is_none color_correction = false ->
     forall (j : nat) (L : Z) tv s,
       (k <= j)%nat -> oris !! j = Some (Some L) ->
       default [] (all_transformed_videos ctx) !! j = Some (Some tv) ->
       Z.of_nat (length s) = L ->
       exists s', color_correct color_correction false s tv = Ok s'
                  /\ length s' = length s) ->
    exists ctx',
      postprocess_loop color_correct rgb_only to_output color_correction total
                       (combine (seq k (length ds)) (map (fun d => Some [d]) ds))
                       (ctx, cur)
      = Ok (ctx', cur + Py.sum Ls)
      /\ (forall v, final_video ctx' = Some v -> length v = Z.to_nat total)
      /\ ((exists v, final_video ctx = Some v) \/ ds <> [] ->
          exists v, final_video ctx' = Some v).
Proof.
  induction ds as [|d ds IH];
    intros Ls k ctx cur oris slots HF Ho Hdrop Hb Hbl Hrgba Hcur Hfit Hfv Hcc.
  - inversion HF; subst. exists ctx. simpl. rewrite Z.add_0_r.
    split; [reflexivity|]. split; [exact Hfv|]. intros [H|H]; congruence.
  - inversion HF as [|L ? Ls' ? HL HF']; subst.
    assert (Hk : oris !! k = Some (Some L)).
    { rewrite <- (Nat.add_0_r k), <- lookup_drop, Hdrop. reflexivity. }
    assert (Hdrop' : skipn (S k) oris = map Some Ls').
    { rewrite (drop_S _ _ _ Hk) in Hdrop. now inversion Hdrop. }
    assert (HLs : 0 <= Py.sum Ls').
    { clear -HF'. induction HF'; simpl; lia. }
    cbn [Py.sum fold_right] in Hfit. fold (Py.sum Ls') in Hfit.
    destruct (postprocess_sample_step ctx cur L k d oris Ho Hk Hrgba HL Hcur
                                      ltac:(lia) Hfv)
      as (ctx1 & v & Hstep & Ho1 & Hrgba1 & Hb1 & Hv1 & Hvl & Htv1).
    { intros Ecc tv s Htv Hs.
      exact (Hcc Ecc k L tv s (Nat.le_refl k) Hk Htv Hs). }
    simpl length in Hbl.
    cbn [length seq map combine postprocess_loop postprocess_samples].
    rewrite Hstep. cbn [bind]. rewrite Hb1, Hb.
    change (default [] (Some slots)) with slots.
    rewrite assign_ok by lia. cbn [bind].
    destruct (IH Ls' (S k)
                 (set_batch_samples (Some (<[k := None]> slots)) ctx1)
                 (cur + L) (<[k := None]> oris) (<[k := None]> slots))
      as (ctx' & Hrun & Hfv' & Hsome).
    + exact HF'.
    + ctx_simpl. exact Ho1.
    + rewrite drop_insert_lt by lia. exact Hdrop'.
    + reflexivity.
    + rewrite length_insert. simpl in Hbl. lia.
    + ctx_simpl. exact Hrgba1.
    + lia.
    + lia.
    + ctx_simpl. intros v0 E. rewrite Hv1 in E. now inversion E; subst.
    + intros Ecc j L' tv s Hj Hoj Htvj Hs.
      cbn [all_transformed_videos set_batch_samples] in Htvj.
      rewrite list_lookup_insert_ne in Hoj by lia.
      rewrite Htv1 in Htvj by lia.
      exact (Hcc Ecc j L' tv s ltac:(lia) Hoj Htvj Hs).
    + exists ctx'. cbn [Py.sum fold_right]. fold (Py.sum Ls').
      rewrite Z.add_assoc. split; [exact Hrun|]. split; [exact Hfv'|].
      intros _. apply Hsome. left. exists v. ctx_simpl. exact Hv1.
Qed.

End Phase4Cursor.




Section LengthPreserved.

Context {Frame Latent Alpha Rgb Style Embeds : Type}.
Variable has_alpha : Frame -> bool.
Variable video_transform : list Frame -> Style.
Variable apply_input_noise : Q -> nat -> Style -> Style.
Variable vae_encode : Style -> Latent.
Variable alpha_planes : list Frame -> Alpha.
Variable rgb_planes : list Frame -> Rgb.
Variable materialize_vae_encoder : Result unit.
Variable set_vae : Result unit.
Variable manage_model_device : Target -> Result unit.
Variable process_alpha_for_batch :
  option (list (list Frame)) -> option Alpha -> option Rgb -> list (list Frame).
Variable color_correct :
  ColorCorrection -> bool -> list Frame -> Style -> Result (list Frame).
Variable rgb_only : list Frame -> list Frame.
Variable to_output : bool -> Frame -> Frame.

(** Phase 4 up to the end of its [try] block, on the context of a run
    without alpha whose recorded lengths add up to the video, when each
    colour correction that runs keeps the frames of its sample. *)
Lemma postprocess_run_cursor
      (ctx1 : @Ctx Frame Latent Alpha Rgb Style Embeds)
      (color_correction : ColorCorrection) (total : Z)
      (Ls : list Z) (decoded : list (list Frame)) :
  all_ori_lengths ctx1 = Some (map Some Ls) ->
  is_rgba ctx1 = false ->
  Forall2 (fun L d => 0 <= L <= Z.of_nat (length d)) Ls decoded ->
  decoded <> [] -> 0 <= total -> Py.sum Ls = total ->
  (is_none color_correction = false ->
   forall (j : nat) (L : Z) tv s,
     Ls !! j = Some L ->
     default [] (all_transformed_videos ctx1) !! j = Some (Some tv) ->
     Z.of_nat (length s) = L ->
     exists s', color_correct color_correction false s tv = Ok s'
                /\ length s' = length s) ->
  exists ctx4 video,
    postprocess_run process_alpha_for_batch color_correct rgb_only to_output
      (set_batch_samples (Some (map (fun d => Some [d]) decoded)) ctx1)
      color_correction total
    = Ok (ctx4, total)
    /\ final_video ctx4 = Some video
    /\ Z.of_nat (length video) = total.
Proof.
  intros Ho Hrgba HF Hne Ht Hsum Hcc. unfold postprocess_run, alpha_stage.
  ctx_simpl. rewrite Hrgba. ctx_simpl. unfold enumerate. rewrite length_map.
  destruct (postprocess_loop_cursor color_correct rgb_only to_output
              color_correction total decoded Ls 0
              (set_final_video None
                 (set_batch_samples (Some (map (fun d => Some [d]) decoded)) ctx1))
              0 (map Some Ls) (map (fun d => Some [d]) decoded))
    as (ctx4 & Hrun & Hlen & Hsome);
    [ exact HF | ctx_simpl; exact Ho | reflexivity | reflexivity
    | rewrite length_map; reflexivity | ctx_simpl; exact Hrgba | lia | lia
    | ctx_simpl; discriminate | | ].
  { intros Ecc j L tv s _ Hj Htv Hs.
    cbn [all_transformed_videos set_final_video set_batch_samples] in Htv.
    apply (Hcc Ecc j L tv s); [|exact Htv|exact Hs].
    rewrite list_lookup_fmap in Hj.
    destruct (Ls !! j); [now inversion Hj|discriminate]. }
  unfold Sample in *. rewrite Hrun. cbn [bind]. rewrite Z.add_0_l, Hsum.
  destruct (Hsome (or_intror Hne)) as [video Hv]. rewrite Hv.
  exists ctx4, video. split; [reflexivity|]. split; [exact Hv|].
  rewrite (Hlen video Hv). lia.
Qed.

(** A window of [4n+1] frames is stored as it is: the transformed video
    of the batch has the frames of the window. *)
Lemma unpadded_windows (images : list Frame) (windows : list (Z * Z))
      (vids : list (list Frame)) :
  Forall (fun w => 0 <= fst w /\ fst w < snd w
                   /\ snd w <= Z.of_nat (length images)) windows ->
  Forall (fun w => Placement.window_frames w mod 4 = 1) windows ->
  Forall2 (fun w v => conform (Py.slice images (fst w) (snd w)) = Ok v)
          windows vids ->
  Forall2 (fun w v => Z.of_nat (length v) = Placement.window_frames w)
          windows vids.
Proof.
  intros Hvalid Hmod Hvids.
  induction Hvids as [|[s e] v ws vs Hv _ IH]; [constructor|].
  inversion Hvalid as [|? ? (Hs & Hse & He) Hvalid']; subst.
  inversion Hmod as [|? ? Hm Hmod']; subst.
  constructor; [|exact (IH Hvalid' Hmod')].
  unfold Placement.window_frames in *. simpl in *.
  pose proof (slice_length images s e Hs ltac:(lia) He) as Hsl.
  unfold conform in Hv. rewrite Hsl in Hv.
  destruct (Z.eqb_spec ((e - s) mod 4) 1); [|contradiction].
  cbn [negb] in Hv. injection Hv as <-. exact Hsl.
Qed.

(** The colour corrections Phase 4 runs on the context of Phase 1, when no
    batch was padded: each one meets a sample and a stored video of the
    same number of frames. *)
Lemma corrections_fit (images : list Frame) (windows : list (Z * Z))
      (vids : list (list Frame)) (input_noise_scale : Q)
      (color_correction : ColorCorrection)
      (tvs : option (list (option Style))) :
  Forall (fun w => 0 <= fst w /\ fst w < snd w
                   /\ snd w <= Z.of_nat (length images)) windows ->
  Forall2 (fun w v => conform (Py.slice images (fst w) (snd w)) = Ok v)
          windows vids ->
  tvs = (if is_none color_correction then None
         else Some (map (fun p : nat * list Frame =>
                           Some (transform_batch video_transform
                                   apply_input_noise input_noise_scale
                                   (fst p) (snd p)))
                        (enumerate vids))) ->
  is_none color_correction = true
  \/ (Forall (fun w => Placement.window_frames w mod 4 = 1) windows
      /\ forall (k : nat) (v s : list Frame),
           length s = length v ->
           exists s',
             color_correct color_correction false s
                           (transform_batch video_transform apply_input_noise
                                            input_noise_scale k v)
             = Ok s'
             /\ length s' = length s) ->
  is_none color_correction = false ->
  forall (j : nat) (L : Z) tv s,
    map Placement.window_frames windows !! j = Some L ->
    default [] tvs !! j = Some (Some tv) ->
    Z.of_nat (length s) = L ->
    exists s', color_correct color_correction false s tv = Ok s'
               /\ length s' = length s.
Proof.
  intros Hvalid Hvids Htv Hcolour Ecc j L tv s HL Htvj Hlen.
  destruct Hcolour as [Hnone|[Hmod Hcc]]; [congruence|].
  rewrite Htv, Ecc in Htvj. cbn [default from_option Datatypes.id] in Htvj.
  unfold enumerate in Htvj.
  rewrite list_lookup_fmap, lookup_combine_seq in Htvj.
  destruct (vids !! j) as [v|] eqn:Hv; [|discriminate].
  cbn in Htvj. injection Htvj as <-.
  rewrite list_lookup_fmap in HL.
  destruct (windows !! j) as [w|] eqn:Ew; [|discriminate].
  cbn in HL. injection HL as <-.
  pose proof (unpadded_windows images windows vids Hvalid Hmod Hvids) as Hunp.
  pose proof (Forall2_lookup_lr _ _ _ _ _ _ Hunp Ew Hv) as Hwv.
  cbn in Hwv. apply (Hcc j v s). lia.
Qed.


End LengthPreserved.



(** With the wavelet correction and a padded batch the run does not reach
    the end either: 7 frames in batches of 5 give the original lengths 5
    and 2, the second batch is stored with the 5 frames it was padded to,
    and the correction of its 2-frame sample against them raises. *)
Example padded_batch_correction_raises :
  exists ctx,
    Run.padded_wavelet_run = Ok ctx
    /\ ori_lengths_of ctx = [5; 2]
    /\ option_map (map (option_map (@length _))) (all_transformed_videos ctx)
       = Some [Some 5%nat; Some 5%nat]
    /\ Run.postprocess cc_wavelet ctx = Raise RuntimeError
    /\ exists ctx', Run.postprocess cc_hsv ctx = Ok ctx'
                    /\ option_map (@length _) (final_video ctx') = Some 7%nat.
Proof.
  eexists. split; [vm_compute; reflexivity|].
  split; [vm_compute; reflexivity|].
  split; [vm_compute; reflexivity|].
  split; [vm_compute; reflexivity|].
  eexists. split; [vm_compute; reflexivity|]. reflexivity.
Qed.

(* ================================================================== *)
(** * Wavelet colour correction *)

Section WaveletFacts.

Import Wavelet.
Local Open Scope Q_scope.

Lemma shape_eqb_refl (s : Z * Z * Z * Z) : shape_eqb s s = true.
Proof.
  destruct s as [[[b c] h] w]. unfold shape_eqb.
  now rewrite !Z.eqb_refl.
Qed.

(** The loop telescopes: what it adds to [high_freq], plus the last blur,
    is the image it started from.  No shape changes on the way. *)
Lemma decomposition_loop_telescopes (levels : nat) :
  forall (i : Z) (image high_freq : Tensor) (low_freq : option Tensor),
  exists low,
    snd (decomposition_loop (S levels) i image high_freq low_freq) = Some low
    /\ shape low = shape image
    /\ shape (fst (decomposition_loop (S levels) i image high_freq low_freq))
       = shape high_freq
    /\ forall b c y x,
         data (fst (decomposition_loop (S levels) i image high_freq low_freq))
              b c y x
         + data low b c y x
         == data high_freq b c y x + data image b c y x.
Proof.
  induction levels as [|levels IH]; intros i image high_freq low_freq.
  - exists (wavelet_blur image (2 ^ i)). cbn [decomposition_loop fst snd].
    repeat split. intros b c y x. cbn [iadd sub data]. ring.
  - destruct (IH (i + 1)%Z (wavelet_blur image (2 ^ i))
                 (iadd high_freq (sub image (wavelet_blur image (2 ^ i))))
                 (Some (wavelet_blur image (2 ^ i))))
      as (low & Hlow & Hsl & Hsh & Hsum).
    exists low.
    change (decomposition_loop (S (S levels)) i image high_freq low_freq)
      with (decomposition_loop (S levels) (i + 1)%Z
              (wavelet_blur image (2 ^ i))
              (iadd high_freq (sub image (wavelet_blur image (2 ^ i))))
              (Some (wavelet_blur image (2 ^ i)))).
    split; [exact Hlow|]. split; [exact Hsl|]. split; [exact Hsh|].
    intros b c y x. rewrite Hsum. cbn [iadd sub data]. ring.
Qed.

Lemma wavelet_decomposition_sum (image : Tensor) (levels : nat) :
  exists high low,
    wavelet_decomposition image (S levels) = Some (high, low)
    /\ shape high = shape image
    /\ shape low = shape image
    /\ forall b c y x,
         data high b c y x + data low b c y x == data image b c y x.
Proof.
  destruct (decomposition_loop_telescopes levels 0%Z image (zeros_like image) None)
    as (low & Hlow & Hsl & Hsh & Hsum).
  unfold wavelet_decomposition.
  destruct (decomposition_loop (S levels) 0 image (zeros_like image) None)
    as [high o]. cbn [fst snd] in *. subst o.
  exists high, low. repeat split; auto.
  intros b c y x. rewrite Hsum. cbn [zeros_like data]. ring.
Qed.

Lemma broadcast_dim_same (n : Z) : broadcast_dim n n = Some n.
Proof. unfold broadcast_dim. now rewrite Z.eqb_refl. Qed.

Lemma broadcast_index_same (n i : Z) : broadcast_index n n i = i.
Proof. unfold broadcast_index. now destruct (n =? 1)%Z. Qed.

(** On two tensors of one shape the sum is taken index by index. *)
Lemma add_same_shape (t1 t2 : Tensor) :
  shape t2 = shape t1 ->
  exists r,
    add t1 t2 = Some r
    /\ shape r = shape t1
    /\ forall b c y x, data r b c y x = (data t1 b c y x + data t2 b c y x)%Q.
Proof.
  intros Hs. unfold add, expand, batch, channels, height, width.
  rewrite Hs. destruct (shape t1) as [[[sb sc] sh] sw].
  cbn [broadcast_shapes fst snd]. rewrite !broadcast_dim_same.
  eexists. split; [reflexivity|]. split; [reflexivity|].
  intros b c y x. cbn [data]. now rewrite !broadcast_index_same.
Qed.

Lemma clamp_inside (q : Q) : -1 <= q <= 1 -> Qmin (Qmax q (-1)) 1 == q.
Proof.
  intros [Hlo Hhi].
  rewrite Q.min_l; [apply Q.max_l; exact Hlo|].
  apply Q.max_lub; [exact Hhi|discriminate].
Qed.

End WaveletFacts.

(** C6: in exact arithmetic the decomposition of [x] satisfies
    [high_freq + low_freq = x], and where [x] lies in [-1, 1] the wavelet
    reconstruction of [x] against itself gives [x] back. *)
Theorem wavelet_reconstruction_same_input
        (safe_interpolate_operation : Wavelet.Tensor -> Z * Z -> Wavelet.Tensor)
        (x : Wavelet.Tensor) (b c i j : Z) :
  (-1 <= Wavelet.data x b c i j <= 1)%Q ->
  exists high_freq low_freq result,
    Wavelet.wavelet_decomposition x 5 = Some (high_freq, low_freq)
    /\ (Wavelet.data high_freq b c i j + Wavelet.data low_freq b c i j
        == Wavelet.data x b c i j)%Q
    /\ Wavelet.wavelet_reconstruction safe_interpolate_operation x x = Some result
    /\ Wavelet.shape result = Wavelet.shape x
    /\ (Wavelet.data result b c i j == Wavelet.data x b c i j)%Q.
Proof.
  intros Hx.
  destruct (wavelet_decomposition_sum x 4) as (high & low & Hd & Hsh & Hsl & Hsum).
  destruct (add_same_shape high low) as (r & Hadd & Hr & Hdata);
    [congruence|].
  exists high, low, (Wavelet.clamp r (-1) 1).
  split; [exact Hd|]. split; [apply Hsum|].
  unfold Wavelet.wavelet_reconstruction.
  rewrite shape_eqb_refl. cbn [negb]. rewrite Hd, Hsh, Hsl, shape_eqb_refl.
  cbn [negb]. rewrite Hadd.
  split; [reflexivity|]. split; [cbn [Wavelet.clamp Wavelet.shape]; congruence|].
  cbn [Wavelet.clamp Wavelet.data]. rewrite Hdata.
  pose proof (Hsum b c i j) as Hs. rewrite <- Hs in Hx.
  rewrite (clamp_inside _ Hx). exact Hs.
Qed.

Lemma wavelet_reconstruction_same_input_witness :
  exists high_freq low_freq result,
    Wavelet.wavelet_decomposition Run.small_tensor 5 = Some (high_freq, low_freq)
    /\ (Wavelet.data high_freq 0 0 0 1 + Wavelet.data low_freq 0 0 0 1
        == Wavelet.data Run.small_tensor 0 0 0 1)%Q
    /\ Wavelet.wavelet_reconstruction Run.resize Run.small_tensor Run.small_tensor
       = Some result
    /\ Wavelet.shape result = Wavelet.shape Run.small_tensor
    /\ (Wavelet.data result 0 0 0 1 == Wavelet.data Run.small_tensor 0 0 0 1)%Q.
Proof.
  apply (wavelet_reconstruction_same_input Run.resize Run.small_tensor 0 0 0 1).
  vm_compute. split; discriminate.
Defined.

(* ================================================================== *)
(** * Hue-conditional saturation matching *)

(** C8 at the threshold: a hue bin holding exactly 100 content and 100 style
    pixels has at least 100 of each, yet the guard rejects it and the
    content's saturation stays as it was; one more pixel on both sides and
    the bin is matched.  The guard asks for more than [min_pixels]. *)
Theorem hue_bin_of_100_pixels_not_matched :
  HSV.spec_bin_qualifies 100 100 = true
  /\ HSV.bin_qualifies 100 100 = false
  /\ length (HSV.select (map (HSV.bin_mask 3) (Run.hues 100))
                        (Run.saturations (9 # 10) 100)) = 100%nat
  /\ HSV.hue_conditional_saturation_match
       (Run.hues 100) (Run.saturations (9 # 10) 100)
       (Run.hues 100) (Run.saturations (1 # 10) 100)
     = Run.saturations (9 # 10) 100
  /\ HSV.hue_conditional_saturation_match
       (Run.hues 101) (Run.saturations (9 # 10) 101)
       (Run.hues 101) (Run.saturations (1 # 10) 101)
     = Run.saturations (1 # 10) 101
  /\ forall n_content n_style : nat,
       HSV.bin_qualifies n_content n_style = true
       <-> (101 <= n_content /\ 101 <= n_style)%nat.
Proof.
  split; [reflexivity|]. split; [reflexivity|].
  split; [vm_compute; reflexivity|].
  split; [vm_compute; reflexivity|].
  split; [vm_compute; reflexivity|].
  intros n m. unfold HSV.bin_qualifies, HSV.min_pixels.
  rewrite andb_true_iff, !Nat.ltb_lt. lia.
Qed.

(* ================================================================== *)
(** * AdaIN statistics *)

Section AdaINFacts.

Import AdaIN.
Local Open Scope R_scope.

Lemma eps_pos : 0 < eps.
Proof. unfold eps. lra. Qed.

Lemma Rsum_affine (a b : R) (l : list R) :
  Rsum (map (fun v => a * v + b) l) = a * Rsum l + b * INR (length l).
Proof.
  induction l as [|x l IH]; [simpl; ring|].
  cbn [map Rsum fold_right length]. fold (Rsum (map (fun v => a * v + b) l)).
  fold (Rsum l). rewrite IH, S_INR. ring.
Qed.

Lemma Rsum_scale (a : R) (f : R -> R) (l : list R) :
  Rsum (map (fun v => a * f v) l) = a * Rsum (map f l).
Proof.
  induction l as [|x l IH]; [simpl; ring|].
  cbn [map Rsum fold_right]. fold (Rsum (map (fun v => a * f v) l)).
  fold (Rsum (map f l)). rewrite IH. ring.
Qed.

Lemma Rsum_squares_nonneg (m : R) (l : list R) :
  0 <= Rsum (map (fun v => (v - m) * (v - m)) l).
Proof.
  induction l as [|x l IH]; [simpl; lra|].
  cbn [map Rsum fold_right].
  fold (Rsum (map (fun v => (v - m) * (v - m)) l)).
  pose proof (Rle_0_sqr (x - m)) as H. unfold Rsqr in H. lra.
Qed.

Lemma INR_length_ge (x : Plane) : (2 <= length x)%nat -> 2 <= INR (length x).
Proof. intros H. apply le_INR in H. simpl in H. lra. Qed.

Lemma var_nonneg (x : Plane) : (2 <= length x)%nat -> 0 <= var x.
Proof.
  intros H. apply INR_length_ge in H. unfold var, Rdiv.
  apply Rmult_le_pos; [apply Rsum_squares_nonneg|].
  left. apply Rinv_0_lt_compat. lra.
Qed.

Lemma adain_plane_affine (content style : Plane) :
  adain_plane content style
  = map (fun v => slope content style * v
                  + (mean style - slope content style * mean content))
        content.
Proof.
  unfold adain_plane, slope, calc_mean_std. cbn [fst snd].
  apply map_ext. intros v. unfold Rdiv. ring.
Qed.

Lemma adain_plane_mean (content style : Plane) :
  (2 <= length content)%nat ->
  mean (adain_plane content style) = mean style.
Proof.
  intros H. apply INR_length_ge in H.
  rewrite adain_plane_affine. unfold mean at 1.
  rewrite Rsum_affine, length_map.
  generalize (mean style) (slope content style). intros ms k.
  unfold mean. field. apply Rgt_not_eq. lra.
Qed.

Lemma adain_plane_var (content style : Plane) :
  (2 <= length content)%nat ->
  var (adain_plane content style)
  = slope content style * slope content style * var content.
Proof.
  intros H. unfold var at 1. rewrite (adain_plane_mean content style H).
  rewrite adain_plane_affine. rewrite map_map, length_map.
  rewrite (map_ext _ (fun v => slope content style * slope content style
                               * ((v - mean content) * (v - mean content)))).
  2:{ intros v. ring. }
  rewrite (Rsum_scale _ (fun v => (v - mean content) * (v - mean content))).
  unfold var, Rdiv. ring.
Qed.

Lemma slope_squared (content style : Plane) :
  (2 <= length content)%nat -> (2 <= length style)%nat ->
  slope content style * slope content style
  = (var style + eps) / (var content + eps).
Proof.
  intros Hc Hs. pose proof (var_nonneg _ Hc). pose proof (var_nonneg _ Hs).
  pose proof eps_pos.
  unfold slope, calc_mean_std. cbn [snd].
  transitivity (sqrt (var style + eps) * sqrt (var style + eps)
                * / (sqrt (var content + eps) * sqrt (var content + eps))).
  - rewrite Rinv_mult. ring.
  - rewrite !sqrt_sqrt by lra. reflexivity.
Qed.

Lemma adain_plane_statistics (content style : Plane) :
  (2 <= length content)%nat -> (2 <= length style)%nat ->
  mean (adain_plane content style) = mean style
  /\ var (adain_plane content style)
     = (var style + eps) * (var content / (var content + eps))
  /\ std (adain_plane content style) <= snd (calc_mean_std style).
Proof.
  intros Hc Hs. pose proof (var_nonneg _ Hc) as Hvc.
  pose proof (var_nonneg _ Hs) as Hvs. pose proof eps_pos as He.
  assert (Hv : var (adain_plane content style)
               = (var style + eps) * (var content / (var content + eps))).
  { rewrite adain_plane_var, slope_squared by assumption.
    unfold Rdiv. ring. }
  split; [now apply adain_plane_mean|]. split; [exact Hv|].
  unfold std, calc_mean_std. cbn [snd]. apply sqrt_le_1_alt. rewrite Hv.
  assert (Hr : var content / (var content + eps) <= 1).
  { unfold Rdiv. apply (Rmult_le_reg_r (var content + eps)); [lra|].
    rewrite Rmult_assoc, Rinv_l by lra. lra. }
  assert (0 <= var content / (var content + eps)).
  { unfold Rdiv. apply Rmult_le_pos; [lra|].
    left. apply Rinv_0_lt_compat. lra. }
  nra.
Qed.

Lemma plane_zip (content style : list (list Plane)) (b c : nat)
      (cp sp : Plane) :
  plane content b c = Some cp -> plane style b c = Some sp ->
  plane (zip_with (zip_with adain_plane) content style) b c
  = Some (adain_plane cp sp).
Proof.
  unfold AdaIN.plane. intros Hc Hs. rewrite lookup_zip_with.
  destruct (content !! b) as [cb|]; [|discriminate].
  destruct (style !! b) as [sb|]; [|discriminate].
  change (zip_with adain_plane cb sb !! c = Some (adain_plane cp sp)).
  rewrite lookup_zip_with, Hc, Hs. reflexivity.
Qed.

End AdaINFacts.

(** C7 (as amended): on planes of at least two values, every channel of the
    AdaIN result has exactly the style's mean, and its variance is the
    style's epsilon-regularised variance scaled by
    [var_c / (var_c + eps)]; its standard deviation never exceeds the
    style's regularised one. *)
Theorem adain_result_statistics
        (content_feat style_feat result : AdaIN.Tensor) (b c : nat)
        (cp sp : AdaIN.Plane) :
  AdaIN.adaptive_instance_normalization content_feat style_feat = Some result ->
  AdaIN.plane content_feat b c = Some cp ->
  AdaIN.plane style_feat b c = Some sp ->
  (2 <= length cp)%nat -> (2 <= length sp)%nat ->
  exists rp,
    AdaIN.plane result b c = Some rp
    /\ AdaIN.mean rp = AdaIN.mean sp
    /\ (AdaIN.var rp
        = (AdaIN.var sp + AdaIN.eps)
          * (AdaIN.var cp / (AdaIN.var cp + AdaIN.eps)))%R
    /\ (AdaIN.std rp <= snd (AdaIN.calc_mean_std sp))%R.
Proof.
  intros Hr Hc Hs Hlc Hls. unfold AdaIN.adaptive_instance_normalization in Hr.
  destruct (_ && _); [|discriminate]. inversion Hr; subst result.
  exists (AdaIN.adain_plane cp sp).
  split; [now apply plane_zip|]. now apply adain_plane_statistics.
Qed.

Lemma adain_result_statistics_witness :
  exists rp,
    AdaIN.plane [[AdaIN.adain_plane [0; 0] [-1; 1]]]%R 0 0 = Some rp
    /\ AdaIN.mean rp = AdaIN.mean [-1; 1]%R
    /\ (AdaIN.var rp
        = (AdaIN.var [-1; 1] + AdaIN.eps)
          * (AdaIN.var [0; 0] / (AdaIN.var [0; 0] + AdaIN.eps)))%R
    /\ (AdaIN.std rp <= snd (AdaIN.calc_mean_std [-1; 1]))%R.
Proof.
  apply (adain_result_statistics Run.flat_content Run.contrast_style
           [[AdaIN.adain_plane [0; 0] [-1; 1]]]%R 0 0 [0; 0]%R [-1; 1]%R);
    try reflexivity; simpl; lia.
Defined.

Section AdaINCounterexample.

Import AdaIN.
Local Open Scope R_scope.

Lemma var_flat : var [0; 0] = 0.
Proof. unfold var, mean, Rsum. simpl. field. Qed.

Lemma var_contrast : var [-1; 1] = 2.
Proof. unfold var, mean, Rsum. simpl. field. Qed.

Lemma var_flat_result : var (adain_plane [0; 0] [-1; 1]) = 0.
Proof.
  destruct (adain_plane_statistics [0; 0] [-1; 1]) as (_ & Hv & _);
    [simpl; lia|simpl; lia|].
  rewrite Hv, var_flat. unfold Rdiv. ring.
Qed.

Lemma sqrt_eps_small : sqrt (0 + eps) <= 1 / 2.
Proof.
  replace (1 / 2) with (sqrt (1 / 2 * (1 / 2))) by (apply sqrt_square; lra).
  apply sqrt_le_1_alt. unfold eps. lra.
Qed.

Lemma sqrt_above_one (x : R) : 1 < x -> 1 < sqrt x.
Proof.
  intros H. rewrite <- sqrt_1 at 1. apply sqrt_lt_1_alt. lra.
Qed.

End AdaINCounterexample.

(** C7 as stated fails: a constant content stays constant under AdaIN, so
    the result's standard deviation is 0 (or [sqrt eps] with the epsilon
    inside), while the style's is [sqrt 2]. *)
Lemma adain_std_counterexample :
  ~ AdaIN.matches_style_statistics AdaIN.std Run.flat_content Run.contrast_style
  /\ ~ AdaIN.matches_style_statistics
         (fun p => snd (AdaIN.calc_mean_std p))
         Run.flat_content Run.contrast_style.
Proof.
  pose proof AdaIN.eps as e. split; intros H;
    destruct (H [[AdaIN.adain_plane [0; 0] [-1; 1]]]%R 0%nat 0%nat
                (AdaIN.adain_plane [0; 0] [-1; 1])%R [-1; 1]%R
                eq_refl eq_refl eq_refl) as [_ Hstd];
    apply Rabs_def2 in Hstd; destruct Hstd as [_ Hlo].
  - unfold AdaIN.std in Hlo. rewrite var_flat_result, var_contrast, sqrt_0 in Hlo.
    pose proof (sqrt_above_one 2 ltac:(lra)). unfold AdaIN.eps in Hlo. lra.
  - unfold AdaIN.calc_mean_std in Hlo. cbn [snd] in Hlo.
    rewrite var_flat_result, var_contrast in Hlo.
    pose proof sqrt_eps_small.
    pose proof (sqrt_above_one (2 + AdaIN.eps) ltac:(unfold AdaIN.eps; lra)).
    unfold AdaIN.eps in *. lra.
Qed.

(* ================================================================== *)
(** * Batch planner: termination, the best batch in closed form, and the
      planned padding against the padding the encoder applies *)

(** While the position does not advance the loop uses up any bound. *)
Lemma waste_loop_stuck (total_frames batch_size step : Z) (fuel : nat) :
  forall current_frame acc : Z,
    (if 0 <? step then step else batch_size) <= 0 ->
    current_frame < total_frames ->
    Planner.waste_loop fuel total_frames batch_size step current_frame acc = None.
Proof.
  induction fuel as [|fuel IH]; intros cur acc Hinc Hcur; cbn [Planner.waste_loop];
    (destruct (Z.ltb_spec cur total_frames); [|lia]); [reflexivity|].
  apply IH; [exact Hinc|lia].
Qed.

(** A loop whose position advances returns within [total_frames] steps. *)
Lemma waste_loop_halts (total_frames batch_size step : Z) (fuel : nat) :
  forall current_frame acc : Z,
    0 < (if 0 <? step then step else batch_size) ->
    (Z.to_nat (total_frames - current_frame) <= fuel)%nat ->
    exists w,
      Planner.waste_loop fuel total_frames batch_size step current_frame acc
      = Some w.
Proof.
  induction fuel as [|fuel IH]; intros cur acc Hinc Hfuel; cbn [Planner.waste_loop];
    (destruct (Z.ltb_spec cur total_frames); [|eauto]); [lia|].
  apply IH; [exact Hinc|lia].
Qed.

(** X6: On a video with at least one frame the planner returns exactly when the
    position of its loop advances: when the step is positive, or else when
    the batch size is.  For any other arguments its loop never ends. *)
Theorem planner_returns_iff (total_frames batch_size temporal_overlap : Z) :
  1 <= total_frames ->
  (exists fuel r,
      Planner.calculate_optimal_batch_params
        fuel total_frames batch_size temporal_overlap = Some r)
  <-> (0 < batch_size - temporal_overlap \/ 0 < batch_size).
Proof.
  intros Ht. unfold Planner.calculate_optimal_batch_params,
    Planner.effective_step.
  split.
  - intros (fuel & r & H).
    destruct (Z.leb_spec (batch_size - temporal_overlap) 0) as [Hs|Hs]; [|lia].
    destruct (Z_lt_le_dec 0 batch_size) as [|Hb]; [lia|].
    rewrite waste_loop_stuck in H; [discriminate| |lia].
    destruct (Z.ltb_spec 0 batch_size); lia.
  - intros H. exists (Z.to_nat total_frames).
    destruct (Z.leb_spec (batch_size - temporal_overlap) 0) as [Hs|Hs].
    + destruct (waste_loop_halts total_frames batch_size batch_size
                  (Z.to_nat total_frames) 0 0) as [w Hw].
      * destruct (Z.ltb_spec 0 batch_size); lia.
      * lia.
      * rewrite Hw. eauto.
    + destruct (waste_loop_halts total_frames batch_size
                  (batch_size - temporal_overlap)
                  (Z.to_nat total_frames) 0 0) as [w Hw].
      * destruct (Z.ltb_spec 0 (batch_size - temporal_overlap)); lia.
      * lia.
      * rewrite Hw. eauto.
Qed.

Lemma planner_returns_iff_witness :
  (exists fuel r, Planner.calculate_optimal_batch_params fuel 3 0 0 = Some r)
  <-> (0 < 0 - 0 \/ 0 < 0).
Proof. apply (planner_returns_iff 3 0 0). lia. Defined.

(** X7: Whenever the planner returns, its best batch is the closed form
    [total_frames - (total_frames - 1) mod 4] for a video with at least one
    frame, and 1 for a video without frames. *)
Theorem planner_best_batch_closed_form
        (fuel : nat) (total_frames batch_size temporal_overlap : Z)
        (r : Planner.BatchParams) :
  Planner.calculate_optimal_batch_params
    fuel total_frames batch_size temporal_overlap = Some r ->
  Planner.best_batch r
  = if 1 <=? total_frames then total_frames - (total_frames - 1) mod 4 else 1.
Proof.
  unfold Planner.calculate_optimal_batch_params.
  destruct (Planner.effective_step batch_size temporal_overlap) as [step ov].
  destruct (Planner.waste_loop _ _ _ _ _ _); [|discriminate].
  intros [= <-]. cbn [Planner.best_batch].
  destruct (Z.leb_spec 1 total_frames) as [Ht|Ht].
  - set (c := total_frames - (total_frames - 1) mod 4).
    assert (Hc : In c (Planner.valid_sizes total_frames)).
    { apply valid_sizes_In. subst c. zmod. }
    assert (Hne : Planner.valid_sizes total_frames <> []).
    { intros E. rewrite E in Hc. destruct Hc. }
    destruct (max_or_greatest 1 _ Hne) as [Hin Hmax].
    apply valid_sizes_In in Hin. specialize (Hmax c Hc).
    subst c. zmod.
  - unfold Planner.valid_sizes, Py.range.
    replace (Z.to_nat (total_frames + 1 - 1)) with 0%nat by lia.
    reflexivity.
Qed.

Lemma planner_best_batch_closed_form_witness :
  Planner.best_batch
    {| Planner.step := 5; Planner.temporal_overlap := 4;
       Planner.best_batch := 17; Planner.padding_waste := 1;
       Planner.is_optimal := false |}
  = if 1 <=? 19 then 19 - (19 - 1) mod 4 else 1.
Proof.
  apply (planner_best_batch_closed_form 19 19 9 4). reflexivity.
Defined.

Lemma pad_at_bounds (total_frames batch_size p : Z) :
  0 <= Planner.pad_at total_frames batch_size p <= 3.
Proof.
  unfold Planner.pad_at, Planner.spec_next_4n1. cbv zeta.
  repeat match goal with
         | |- context [?a =? 1] => destruct (Z.eqb_spec a 1)
         end; zmod.
Qed.

Lemma sum_pad_at_bounds (total_frames batch_size : Z) (idxs : list Z) :
  0 <= Py.sum (map (Planner.pad_at total_frames batch_size) idxs)
  <= 3 * Z.of_nat (length idxs).
Proof.
  induction idxs as [|p idxs IH]; [simpl; lia|].
  cbn [map Py.sum fold_right length].
  fold (Py.sum (map (Planner.pad_at total_frames batch_size) idxs)).
  pose proof (pad_at_bounds total_frames batch_size p). lia.
Qed.

(** The padding of the windows the encoder keeps is part of the padding
    summed over all positions. *)
Lemma windows_padding_le (total_frames batch_size overlap : Z) (idxs : list Z) :
  Py.sum (map (fun w => Planner.target (Placement.window_frames w)
                        - Placement.window_frames w)
              (encode_windows_from idxs total_frames batch_size overlap))
  <= Py.sum (map (Planner.pad_at total_frames batch_size) idxs).
Proof.
  induction idxs as [|idx idxs IH]; [simpl; lia|].
  cbn [encode_windows_from map Py.sum fold_right].
  fold (Py.sum (map (Planner.pad_at total_frames batch_size) idxs)).
  pose proof (sum_pad_at_bounds total_frames batch_size idxs) as Hrest.
  pose proof (pad_at_bounds total_frames batch_size idx) as Hpad.
  assert (Hwin : forall s,
             Planner.target (Placement.window_frames
                               (s, Z.min (s + batch_size) total_frames))
             - Placement.window_frames (s, Z.min (s + batch_size) total_frames)
             = Planner.pad_at total_frames batch_size s).
  { intros s. unfold Placement.window_frames, Planner.pad_at. cbn [fst snd].
    rewrite target_next_4n1.
    replace (Z.min (s + batch_size) total_frames - s)
      with (Z.min batch_size (total_frames - s)) by lia.
    reflexivity. }
  destruct (Z.eqb_spec idx 0) as [->|Hne].
  - cbn [map Py.sum fold_right].
    specialize (Hwin 0). rewrite Z.add_0_l in Hwin. rewrite Hwin.
    fold (Py.sum (map (fun w => Planner.target (Placement.window_frames w)
                                - Placement.window_frames w)
                      (encode_windows_from idxs total_frames batch_size overlap))).
    lia.
  - destruct (_ <=? overlap); cbn [map Py.sum fold_right]; [lia|].
    rewrite Hwin.
    fold (Py.sum (map (fun w => Planner.target (Placement.window_frames w)
                                - Placement.window_frames w)
                      (encode_windows_from idxs total_frames batch_size overlap))).
    lia.
Qed.

Lemma effective_step_encode_step (batch_size temporal_overlap : Z) :
  1 <= batch_size -> 0 <= temporal_overlap ->
  Planner.effective_step batch_size temporal_overlap
  = encode_step batch_size temporal_overlap.
Proof.
  intros Hb Ho. unfold Planner.effective_step, encode_step.
  destruct (Z.ltb_spec 0 temporal_overlap); [reflexivity|].
  replace temporal_overlap with 0 by lia. rewrite Z.sub_0_r.
  destruct (Z.leb_spec batch_size 0); [lia|reflexivity].
Qed.

(** X8: For a batch size of at least 1 and an overlap that is not negative,
    the planner reports the step and overlap the encoder uses; the padding
    it announces is an upper bound on the padding the encoder applies to the
    batches it processes (the planner also counts the positions the encoder
    skips after its break), and it is at most three frames for each
    position of the range. *)
Theorem planner_waste_bounds_encoder_padding
        (fuel : nat) (total_frames batch_size temporal_overlap : Z) :
  1 <= total_frames -> 1 <= batch_size -> 0 <= temporal_overlap ->
  (Z.to_nat total_frames <= fuel)%nat ->
  exists r,
    Planner.calculate_optimal_batch_params
      fuel total_frames batch_size temporal_overlap = Some r
    /\ (Planner.step r, Planner.temporal_overlap r)
       = encode_step batch_size temporal_overlap
    /\ Py.sum (map (fun w => Planner.target (Placement.window_frames w)
                             - Placement.window_frames w)
                   (encode_windows total_frames batch_size temporal_overlap))
       <= Planner.padding_waste r
    /\ Planner.padding_waste r
       <= 3 * Z.of_nat (length (Py.range_step total_frames (Planner.step r))).
Proof.
  intros Ht Hb Ho Hfuel.
  unfold Planner.calculate_optimal_batch_params, encode_windows.
  rewrite (effective_step_encode_step batch_size temporal_overlap Hb Ho).
  pose proof (encode_step_pos batch_size temporal_overlap Hb) as Hstep.
  destruct (encode_step batch_size temporal_overlap) as [step ov].
  simpl in Hstep.
  destruct (range_step_count total_frames step Hstep Ht) as (Hlt & Hge & Hn).
  pose proof (waste_loop_sum total_frames batch_size step _ Hstep Hlt Hge
                _ 0%nat fuel 0 eq_refl ltac:(lia)) as Hloop.
  change (Z.of_nat 0 * step) with 0 in Hloop. rewrite Hloop.
  eexists. split; [reflexivity|].
  cbn [Planner.padding_waste Planner.step Planner.temporal_overlap].
  split; [reflexivity|]. rewrite Z.add_0_l.
  assert (Hr : map (fun k : nat => Z.of_nat k * step)
                   (seq 0 (Z.to_nat ((total_frames + step - 1) / step)))
               = Py.range_step total_frames step).
  { unfold Py.range_step. destruct (Z.ltb_spec 0 step); [reflexivity|lia]. }
  rewrite Hr. split.
  - apply windows_padding_le.
  - apply sum_pad_at_bounds.
Qed.

Lemma planner_waste_bounds_encoder_padding_witness :
  exists r,
    Planner.calculate_optimal_batch_params 12 12 20 15 = Some r
    /\ (Planner.step r, Planner.temporal_overlap r) = encode_step 20 15
    /\ Py.sum (map (fun w => Planner.target (Placement.window_frames w)
                             - Placement.window_frames w)
                   (encode_windows 12 20 15))
       <= Planner.padding_waste r
    /\ Planner.padding_waste r
       <= 3 * Z.of_nat (length (Py.range_step 12 (Planner.step r))).
Proof.
  apply (planner_waste_bounds_encoder_padding 12 12 20 15); lia.
Defined.

(* ================================================================== *)
(** * Phase 2: a run that succeeds and a run whose inference fails *)

Section Phase2Runs.

Context {Frame Latent Alpha Rgb Style Embeds : Type}.
Variable load_text_embeddings : option DType -> Result Embeds.
Variable materialize_dit : Result unit.
Variable dit_inference : Latent -> Result Latent.
Variable cleanup_text_embeddings :
@Ctx Frame Latent Alpha Rgb Style Embeds ->
@Ctx Frame Latent Alpha Rgb Style Embeds.

(** The inference events of the valid entries of a slice of the
  enumeration. *)
Lemma inference_events_cons (j : nat) (x : option Latent)
    (items : list (option Latent)) :
map (fun p : nat * option Latent => EvInference (fst p))
    (List.filter (fun p : nat * option Latent =>
                    match snd p with Some _ => true | None => false end)
                 (combine (seq j (S (length items))) (x :: items)))
= (match x with Some _ => [EvInference j] | None => [] end)
    ++ map (fun p : nat * option Latent => EvInference (fst p))
           (List.filter (fun p : nat * option Latent =>
                           match snd p with Some _ => true | None => false end)
                        (combine (seq (S j) (length items)) items)).
Proof. destruct x; reflexivity. Qed.

Lemma count_valid_cons (x : option Latent) (items : list (option Latent)) :
count_valid (x :: items)
= ((match x with Some _ => 1 | None => 0 end) + count_valid items)%nat.
Proof. destruct x; reflexivity. Qed.

(** The loop over the entries from index [j] on, all of whose inferences
  succeed: every valid latent is replaced by [None] in [all_latents] and
  its result is stored in the next free slot of [all_upscaled_latents]. *)
Lemma upscale_loop_ok (inf : Latent -> Latent) (items : list (option Latent)) :
forall (j u : nat) (ctx : @Ctx Frame Latent Alpha Rgb Style Embeds)
       (lats ups : list (option Latent)) (trace : list Event),
  (forall l, In (Some l) items -> dit_inference l = Ok (inf l)) ->
  all_latents ctx = Some lats -> drop j lats = items ->
  all_upscaled_latents ctx = Some ups ->
  length ups = (u + count_valid items)%nat ->
  upscale_loop dit_inference (combine (seq j (length items)) items) u ctx trace
  = (Ok (set_all_latents
           (Some (take j lats ++ replicate (length items) None))
           (set_all_upscaled_latents
              (Some (take u ups
                       ++ map (fun l => Some (inf l)) (omap (fun x => x) items)))
              ctx)),
     trace
       ++ map (fun p : nat * option Latent => EvInference (fst p))
              (List.filter (fun p : nat * option Latent =>
                              match snd p with Some _ => true | None => false end)
                           (combine (seq j (length items)) items))).
Proof.
induction items as [|x items IH]; intros j u ctx lats ups trace Hinf Hl Hd Hu Hul.
- cbn [length seq combine upscale_loop List.filter map omap replicate].
  rewrite !app_nil_r.
  assert (length lats <= j)%nat.
  { destruct (Nat.le_gt_cases (length lats) j) as [|Hlt]; [assumption|].
    apply (f_equal length) in Hd. rewrite length_drop in Hd. simpl in Hd. lia. }
  unfold count_valid in Hul. simpl in Hul.
  rewrite (take_ge lats), (take_ge ups) by lia.
  destruct ctx. cbn in Hl, Hu. subst. reflexivity.
- assert (Hj : (j < length lats)%nat).
  { apply (f_equal length) in Hd. rewrite length_drop in Hd.
    simpl in Hd. lia. }
  assert (Hjx : lats !! j = Some x).
  { pose proof (lookup_drop lats j 0) as H0.
    rewrite Hd, Nat.add_0_r in H0. symmetry. exact H0. }
  assert (Hnext : drop (S j) lats = items).
  { pose proof (drop_S lats x j Hjx) as H1. congruence. }
  change (length (x :: items)) with (S (length items)).
  rewrite inference_events_cons. rewrite count_valid_cons in Hul.
  cbn [seq combine upscale_loop].
  destruct x as [l|].
  + rewrite (Hinf l (or_introl eq_refl)). cbn [bind]. rewrite Hu.
    change (default [] (Some ups)) with ups.
    rewrite (assign_ok ups u) by lia. cbn [bind].
    cbn [all_latents set_all_upscaled_latents]. rewrite Hl.
    change (default [] (Some lats)) with lats.
    rewrite (assign_ok lats j) by exact Hj. cbn [bind].
    rewrite (IH (S j) (S u) _ (<[j := None]> lats)
                (<[u := Some (inf l)]> ups));
      [ | intros l' Hl'; apply Hinf; right; exact Hl'
        | reflexivity
        | rewrite drop_insert_lt by lia; exact Hnext
        | reflexivity
        | rewrite length_insert; lia ].
    f_equal; [|rewrite <- app_assoc; reflexivity].
    f_equal. destruct ctx. ctx_simpl.
    rewrite (take_insert_snoc lats j) by exact Hj.
    rewrite (take_insert_snoc ups u) by lia.
    rewrite <- !app_assoc. reflexivity.
  + rewrite (IH (S j) u ctx lats ups);
      [ | intros l' Hl'; apply Hinf; right; exact Hl'
        | exact Hl | exact Hnext | exact Hu | simpl in Hul; lia ].
    f_equal. f_equal. destruct ctx. ctx_simpl.
    rewrite (take_S_r lats j None) by exact Hjx.
    rewrite <- app_assoc. reflexivity.
Qed.



Lemma truthy_count_valid (latents : list (option Latent)) :
count_valid latents <> 0%nat -> truthy (Some latents) = true.
Proof. destruct latents; [intros H; now contradiction H|reflexivity]. Qed.

(** The events before the loop, and the context the loop starts from. *)
Lemma upscale_all_batches_enters_loop (runner : Runner)
    (ctx : @Ctx Frame Latent Alpha Rgb Style Embeds)
    (latents : list (option Latent)) :
all_latents ctx = Some latents -> count_valid latents <> 0%nat ->
(forall d, exists e, load_text_embeddings d = Ok e) ->
materialize_dit = Ok tt ->
exists (cd ad : option DType) (te : option Embeds),
  upscale_all_batches load_text_embeddings materialize_dit dit_inference
                      cleanup_text_embeddings runner (Some ctx) true
  = (let '(r, trace) :=
       upscale_loop dit_inference (enumerate latents) 0
         (mkCtx cd ad te (total_frames ctx) (is_rgba ctx) (Some latents)
                (Some (replicate (count_valid latents) None))
                (all_ori_lengths ctx) (all_transformed_videos ctx)
                (all_alpha_channels ctx) (all_input_rgb ctx)
                (batch_samples ctx) (final_video ctx) (cache_context ctx))
         ((match text_embeds ctx with
           | None => [EvLoadTextEmbeddings]
           | Some _ => []
           end) ++ [EvConfigureDiffusion; EvSetSeed] ++ [EvMaterializeDiT]) in
     match r with
     | Ok ctx' =>
         (Ok (cleanup_text_embeddings ctx'),
          trace ++ [EvCleanupDiT; EvCleanupTextEmbeddings])
     | Raise e => (Raise e, trace ++ [EvCleanupDiT; EvCleanupTextEmbeddings])
     end).
Proof.
intros Hl Hvalid Hload Hmat. unfold upscale_all_batches. cbn [negb].
rewrite ensure_precision_cases.
destruct ctx as [cd ad te tf rgba lat up ori tv al rg bs fv cc].
cbn [all_latents] in Hl. subst lat.
destruct cd as [d|]; ctx_simpl;
  rewrite (truthy_count_valid latents Hvalid); cbn [negb]; rewrite Hmat;
  (destruct te as [emb|];
   [|match goal with
     | |- context [load_text_embeddings ?d] =>
         destruct (Hload d) as [emb He]; rewrite He
     end];
   ctx_simpl;
   (destruct (Nat.eqb_spec (count_valid latents) 0); [contradiction|]);
   eexists _, _, _; rewrite <- !app_assoc; reflexivity).
Qed.

Lemma upscale_all_batches_ok (runner : Runner)
      (ctx : @Ctx Frame Latent Alpha Rgb Style Embeds)
      (latents : list (option Latent)) (inf : Latent -> Latent) :
all_latents ctx = Some latents -> count_valid latents <> 0%nat ->
(forall d, exists e, load_text_embeddings d = Ok e) ->
materialize_dit = Ok tt ->
(forall l, dit_inference l = Ok (inf l)) ->
exists (cd ad : option DType) (te : option Embeds),
  upscale_all_batches load_text_embeddings materialize_dit dit_inference
                      cleanup_text_embeddings runner (Some ctx) true
  = (Ok (cleanup_text_embeddings
           (mkCtx cd ad te (total_frames ctx) (is_rgba ctx)
                  (Some (replicate (length latents) None))
                  (Some (map (fun l => Some (inf l))
                             (omap (fun x => x) latents)))
                  (all_ori_lengths ctx) (all_transformed_videos ctx)
                  (all_alpha_channels ctx) (all_input_rgb ctx)
                  (batch_samples ctx) (final_video ctx) (cache_context ctx))),
     (match text_embeds ctx with
      | None => [EvLoadTextEmbeddings]
      | Some _ => []
      end)
       ++ [EvConfigureDiffusion; EvSetSeed; EvMaterializeDiT]
       ++ map (fun p : nat * option Latent => EvInference (fst p))
              (List.filter (fun p : nat * option Latent =>
                              match snd p with Some _ => true | None => false end)
                           (enumerate latents))
       ++ [EvCleanupDiT; EvCleanupTextEmbeddings]).
Proof.
intros Hl Hvalid Hload Hmat Hinf.
destruct (upscale_all_batches_enters_loop runner ctx latents Hl Hvalid
            Hload Hmat) as (cd & ad & te & ->).
unfold enumerate.
rewrite (upscale_loop_ok inf latents 0 0 _ latents
           (replicate (count_valid latents) None));
  [ | intros l _; apply Hinf | reflexivity | reflexivity | reflexivity
    | rewrite length_replicate; reflexivity ].
exists cd, ad, te. ctx_simpl. cbn [take app].
f_equal. rewrite <- !app_assoc. reflexivity.
Qed.



End Phase2Runs.



(* ================================================================== *)
(** * Phase 3: decoding, its slots and its validation *)

Section Phase3Runs.

Context {Frame Latent Alpha Rgb Style Embeds : Type}.
Variable materialize_vae : Result unit.
Variable vae_decode : Latent -> Result (list (list Frame)).

Lemma ensure_precision_keeps_stores
    (ctx : @Ctx Frame Latent Alpha Rgb Style Embeds) (runner : Runner) :
all_upscaled_latents (_ensure_precision_initialized ctx runner)
= all_upscaled_latents ctx
/\ all_ori_lengths (_ensure_precision_initialized ctx runner)
   = all_ori_lengths ctx
/\ batch_samples (_ensure_precision_initialized ctx runner) = batch_samples ctx
/\ total_frames (_ensure_precision_initialized ctx runner) = total_frames ctx
/\ is_rgba (_ensure_precision_initialized ctx runner) = is_rgba ctx.
Proof.
rewrite ensure_precision_cases. destruct (compute_dtype ctx); auto.
Qed.

Lemma count_valid_cons_any {A : Type} (x : option A) (items : list (option A)) :
count_valid (x :: items)
= ((match x with Some _ => 1 | None => 0 end) + count_valid items)%nat.
Proof. destruct x; reflexivity. Qed.

Lemma drop_cons_inv {A : Type} (l : list A) (j : nat) (x : A) (items : list A) :
drop j l = x :: items ->
(j < length l)%nat /\ l !! j = Some x /\ drop (S j) l = items.
Proof.
intros Hd.
assert (Hjx : l !! j = Some x).
{ pose proof (lookup_drop l j 0) as H0.
  rewrite Hd, Nat.add_0_r in H0. symmetry. exact H0. }
split; [apply lookup_lt_Some in Hjx; exact Hjx|]. split; [exact Hjx|].
pose proof (drop_S l x j Hjx) as H1. congruence.
Qed.

(** The decoding loop from entry [j] on, when every decoder call succeeds
  and the free slots of [batch_samples] suffice. *)
Lemma decode_loop_ok (dec : Latent -> list (list Frame))
    (items : list (option Latent)) :
forall (j d : nat) (ctx : @Ctx Frame Latent Alpha Rgb Style Embeds)
       (ups : list (option Latent))
       (bs : list (option (list (list Frame)))),
  (forall l, In (Some l) items -> vae_decode l = Ok (dec l)) ->
  all_upscaled_latents ctx = Some ups -> drop j ups = items ->
  batch_samples ctx = Some bs ->
  (d + count_valid items <= length bs)%nat ->
  decode_loop vae_decode (combine (seq j (length items)) items) d ctx
  = Ok (set_all_upscaled_latents
          (Some (take j ups ++ replicate (length items) None))
          (set_batch_samples
             (Some (take d bs
                      ++ map (fun l => Some (dec l)) (omap (fun x => x) items)
                      ++ drop (d + count_valid items) bs))
             ctx)).
Proof.
induction items as [|x items IH]; intros j d ctx ups bs Hdec Hu Hd Hb Hslots.
- cbn [length seq combine decode_loop map omap replicate app].
  unfold count_valid. cbn [List.filter length]. rewrite Nat.add_0_r.
  simpl. rewrite take_drop, app_nil_r.
  assert (length ups <= j)%nat.
  { destruct (Nat.le_gt_cases (length ups) j) as [|Hlt]; [assumption|].
    apply (f_equal length) in Hd. rewrite length_drop in Hd. simpl in Hd. lia. }
  rewrite (take_ge ups) by lia.
  destruct ctx. cbn in Hu, Hb. subst. reflexivity.
- destruct (drop_cons_inv ups j x items Hd) as (Hj & Hjx & Hnext).
  change (length (x :: items)) with (S (length items)).
  rewrite count_valid_cons_any in Hslots |- *.
  cbn [seq combine decode_loop].
  destruct x as [l|].
  + rewrite (Hdec l (or_introl eq_refl)). cbn [bind]. rewrite Hb.
    change (default [] (Some bs)) with bs.
    rewrite (assign_ok bs d) by lia. cbn [bind].
    cbn [all_upscaled_latents set_batch_samples]. rewrite Hu.
    change (default [] (Some ups)) with ups.
    rewrite (assign_ok ups j) by exact Hj. cbn [bind].
    rewrite (IH (S j) (S d) _ (<[j := None]> ups)
                (<[d := Some (dec l)]> bs));
      [ | intros l' Hl'; apply Hdec; right; exact Hl'
        | reflexivity
        | rewrite drop_insert_lt by lia; exact Hnext
        | reflexivity
        | rewrite length_insert; lia ].
    f_equal. destruct ctx. ctx_simpl.
    rewrite (take_insert_snoc ups j) by exact Hj.
    rewrite (take_insert_snoc bs d) by lia.
    rewrite drop_insert_lt by lia.
    rewrite <- !app_assoc.
    replace (S d + count_valid items)%nat with (d + (1 + count_valid items))%nat
      by lia.
    reflexivity.
  + rewrite (IH (S j) d ctx ups bs);
      [ | intros l' Hl'; apply Hdec; right; exact Hl'
        | exact Hu | exact Hnext | exact Hb | simpl in Hslots; lia ].
    f_equal. destruct ctx. ctx_simpl.
    rewrite (take_S_r ups j None) by exact Hjx.
    rewrite <- app_assoc. reflexivity.
Qed.

(** The decoding loop when the valid entries outnumber the free slots of
  [batch_samples]: the store into the first missing slot raises. *)
Lemma decode_loop_overflow (dec : Latent -> list (list Frame))
    (items : list (option Latent)) :
forall (j d : nat) (ctx : @Ctx Frame Latent Alpha Rgb Style Embeds)
       (ups : list (option Latent))
       (bs : list (option (list (list Frame)))),
  (forall l, In (Some l) items -> vae_decode l = Ok (dec l)) ->
  all_upscaled_latents ctx = Some ups -> drop j ups = items ->
  batch_samples ctx = Some bs ->
  (d <= length bs < d + count_valid items)%nat ->
  decode_loop vae_decode (combine (seq j (length items)) items) d ctx
  = Raise IndexError.
Proof.
induction items as [|x items IH]; intros j d ctx ups bs Hdec Hu Hd Hb Hslots.
- unfold count_valid in Hslots. simpl in Hslots. lia.
- destruct (drop_cons_inv ups j x items Hd) as (Hj & Hjx & Hnext).
  change (length (x :: items)) with (S (length items)).
  rewrite count_valid_cons_any in Hslots.
  cbn [seq combine decode_loop].
  destruct x as [l|].
  + rewrite (Hdec l (or_introl eq_refl)). cbn [bind]. rewrite Hb.
    change (default [] (Some bs)) with bs.
    destruct (Nat.eq_dec d (length bs)) as [->|Hlt].
    * unfold assign. rewrite Nat.ltb_irrefl. reflexivity.
    * rewrite (assign_ok bs d) by lia. cbn [bind].
      cbn [all_upscaled_latents set_batch_samples]. rewrite Hu.
      change (default [] (Some ups)) with ups.
      rewrite (assign_ok ups j) by exact Hj. cbn [bind].
      apply (IH (S j) (S d) _ (<[j := None]> ups)
                (<[d := Some (dec l)]> bs));
        [ intros l' Hl'; apply Hdec; right; exact Hl'
        | reflexivity
        | rewrite drop_insert_lt by lia; exact Hnext
        | reflexivity
        | rewrite length_insert; lia ].
  + apply (IH (S j) d ctx ups bs);
      [ intros l' Hl'; apply Hdec; right; exact Hl'
      | exact Hu | exact Hnext | exact Hb | simpl in Hslots; lia ].
Qed.

Lemma count_valid_replicate_None {A : Type} (n : nat) :
count_valid (replicate n (@None A)) = 0%nat.
Proof. induction n as [|n IH]; [reflexivity|exact IH]. Qed.

(** Phase 3 refuses a context without upscaled latents. *)
Lemma decode_requires_upscaled (runner : Runner)
    (ctx : @Ctx Frame Latent Alpha Rgb Style Embeds) :
all_upscaled_latents ctx = None \/ all_upscaled_latents ctx = Some [] ->
decode_all_batches materialize_vae vae_decode runner (Some ctx) true
= Raise ValueError.
Proof.
intros H. unfold decode_all_batches. cbn [negb].
destruct (ensure_precision_keeps_stores ctx runner) as (-> & _).
destruct H as [-> | ->]; reflexivity.
Qed.

Lemma decode_all_batches_ok (runner : Runner)
    (ctx : @Ctx Frame Latent Alpha Rgb Style Embeds)
    (ups : list (option Latent)) (oris : list (option Z))
    (dec : Latent -> list (list Frame)) :
all_upscaled_latents ctx = Some ups -> ups <> [] ->
all_ori_lengths ctx = Some oris ->
(count_valid ups <= count_valid oris)%nat ->
materialize_vae = Ok tt ->
(forall l, vae_decode l = Ok (dec l)) ->
exists cd ad : option DType,
  decode_all_batches materialize_vae vae_decode runner (Some ctx) true
  = Ok (mkCtx cd ad (text_embeds ctx) (total_frames ctx) (is_rgba ctx)
              (all_latents ctx) None (Some oris)
              (all_transformed_videos ctx) (all_alpha_channels ctx)
              (all_input_rgb ctx)
              (Some (map (fun l => Some (dec l)) (omap (fun x => x) ups)
                       ++ replicate (count_valid oris - count_valid ups) None))
              (final_video ctx) (cache_context ctx)).
Proof.
intros Hu Hne Ho Hslots Hmat Hdec.
unfold decode_all_batches. cbn [negb].
rewrite ensure_precision_cases.
assert (Htruthy : truthy (Some ups) = true)
  by (destruct ups; [congruence|reflexivity]).
destruct ctx as [cd ad te tf rgba lat up ori tv al rg bs fv cc].
cbn [all_upscaled_latents all_ori_lengths] in Hu, Ho. subst up ori.
destruct cd as [d|]; ctx_simpl; rewrite Htruthy, Hmat; ctx_simpl;
  unfold enumerate;
  (rewrite (decode_loop_ok dec ups 0 0 _ ups
              (replicate (count_valid oris) None));
   [ | intros l _; apply Hdec
     | reflexivity | reflexivity | reflexivity
     | rewrite length_replicate; simpl; exact Hslots ]);
  ctx_simpl; cbn [take app Nat.add]; rewrite drop_replicate;
  eexists _, _; reflexivity.
Qed.

(** X11: When every operator succeeds and Phase 1 recorded at least as many
  original lengths as there are upscaled latents, Phase 3 stores the
  decoded samples of the valid latents, in order and without gaps, in the
  first slots of [batch_samples], leaves the recorded lengths alone and
  deletes [all_upscaled_latents]; a second call on the returned context is
  therefore refused. *)
Theorem decode_all_batches_stores (runner : Runner)
      (ctx : @Ctx Frame Latent Alpha Rgb Style Embeds)
      (ups : list (option Latent)) (oris : list (option Z))
      (dec : Latent -> list (list Frame)) :
all_upscaled_latents ctx = Some ups -> ups <> [] ->
all_ori_lengths ctx = Some oris ->
(count_valid ups <= count_valid oris)%nat ->
materialize_vae = Ok tt ->
(forall l, vae_decode l = Ok (dec l)) ->
exists ctx' : @Ctx Frame Latent Alpha Rgb Style Embeds,
  decode_all_batches materialize_vae vae_decode runner (Some ctx) true = Ok ctx'
  /\ batch_samples ctx'
     = Some (map (fun l => Some (dec l)) (omap (fun x => x) ups)
               ++ replicate (count_valid oris - count_valid ups) None)
  /\ all_upscaled_latents ctx' = None
  /\ all_ori_lengths ctx' = Some oris
  /\ decode_all_batches materialize_vae vae_decode runner (Some ctx') true
     = Raise ValueError.
Proof.
intros Hu Hne Ho Hslots Hmat Hdec.
destruct (decode_all_batches_ok runner ctx ups oris dec Hu Hne Ho Hslots
            Hmat Hdec) as (cd & ad & ->).
eexists. split; [reflexivity|]. ctx_simpl. repeat split; try reflexivity.
apply decode_requires_upscaled. left. reflexivity.
Qed.

(** X12: When the valid upscaled latents outnumber the original lengths recorded
  by Phase 1, the slots of [batch_samples] run out and Phase 3 raises
  [IndexError]. *)
Theorem decode_all_batches_slot_overflow (runner : Runner)
      (ctx : @Ctx Frame Latent Alpha Rgb Style Embeds)
      (ups : list (option Latent)) (oris : list (option Z))
      (dec : Latent -> list (list Frame)) :
all_upscaled_latents ctx = Some ups ->
all_ori_lengths ctx = Some oris ->
(count_valid oris < count_valid ups)%nat ->
materialize_vae = Ok tt ->
(forall l, vae_decode l = Ok (dec l)) ->
decode_all_batches materialize_vae vae_decode runner (Some ctx) true
= Raise IndexError.
Proof.
intros Hu Ho Hslots Hmat Hdec.
unfold decode_all_batches. cbn [negb].
destruct (ensure_precision_keeps_stores ctx runner) as (Eu & Eo & _).
set (ctx0 := _ensure_precision_initialized ctx runner) in *.
rewrite Eu, Hu, Eo, Ho, Hmat.
assert (Htruthy : truthy (Some ups) = true).
{ destruct ups; [|reflexivity]. unfold count_valid in Hslots.
  simpl in Hslots. lia. }
rewrite Htruthy. cbn [negb bind].
change (default [] (Some ups)) with ups.
unfold enumerate.
rewrite (decode_loop_overflow dec ups 0 0 _ ups
           (replicate (count_valid oris) None));
  [ reflexivity
  | intros l _; apply Hdec
  | ctx_simpl; exact (eq_trans Eu Hu)
  | reflexivity
  | reflexivity
  | rewrite length_replicate; simpl; lia ].
Qed.

End Phase3Runs.

Lemma decode_all_batches_stores_witness :
  exists ctx' : Run.Context,
    decode_all_batches
      (Ok tt) (fun l : list Run.Frame => Ok [l]) Run.runner
      (Some (set_all_ori_lengths
               (Some [Some 5; Some 2])
               (set_all_upscaled_latents
                  (Some [Some (Run.rgb_images 5); Some (Run.rgb_images 2)])
                  Run.ctx0))) true
    = Ok ctx'
    /\ batch_samples ctx'
       = Some (map (fun l => Some [l])
                   (omap (fun x => x)
                         [Some (Run.rgb_images 5); Some (Run.rgb_images 2)])
                 ++ replicate
                      (count_valid [Some 5; Some 2]
                       - count_valid [Some (Run.rgb_images 5);
                                      Some (Run.rgb_images 2)]) None)
    /\ all_upscaled_latents ctx' = None
    /\ all_ori_lengths ctx' = Some [Some 5; Some 2]
    /\ decode_all_batches
         (Ok tt) (fun l : list Run.Frame => Ok [l]) Run.runner (Some ctx') true
       = Raise ValueError.
Proof.
  apply (decode_all_batches_stores
           (Ok tt) (fun l : list Run.Frame => Ok [l]) Run.runner
           (set_all_ori_lengths
              (Some [Some 5; Some 2])
              (set_all_upscaled_latents
                 (Some [Some (Run.rgb_images 5); Some (Run.rgb_images 2)])
                 Run.ctx0))
           [Some (Run.rgb_images 5); Some (Run.rgb_images 2)]
           [Some 5; Some 2] (fun l => [l])).
  - reflexivity.
  - discriminate.
  - reflexivity.
  - vm_compute. lia.
  - reflexivity.
  - intros l. reflexivity.
Defined.

Lemma decode_all_batches_slot_overflow_witness :
  decode_all_batches
    (Ok tt) (fun l : list Run.Frame => Ok [l]) Run.runner
    (Some (set_all_ori_lengths
             (Some [Some 5; None])
             (set_all_upscaled_latents
                (Some [Some (Run.rgb_images 5); Some (Run.rgb_images 2)])
                Run.ctx0))) true
  = Raise IndexError.
Proof.
  apply (decode_all_batches_slot_overflow
           (Ok tt) (fun l : list Run.Frame => Ok [l]) Run.runner
           (set_all_ori_lengths
              (Some [Some 5; None])
              (set_all_upscaled_latents
                 (Some [Some (Run.rgb_images 5); Some (Run.rgb_images 2)])
                 Run.ctx0))
           [Some (Run.rgb_images 5); Some (Run.rgb_images 2)]
           [Some 5; None] (fun l => [l])).
  - reflexivity.
  - reflexivity.
  - vm_compute. lia.
  - reflexivity.
  - intros l. reflexivity.
Defined.

(* ================================================================== *)
(** * The four phases in sequence *)

Section Handover.

Context {Frame Latent Alpha Rgb Style Embeds : Type}.
Variable has_alpha : Frame -> bool.
Variable video_transform : list Frame -> Style.
Variable apply_input_noise : Q -> nat -> Style -> Style.
Variable vae_encode : Style -> Latent.
Variable alpha_planes : list Frame -> Alpha.
Variable rgb_planes : list Frame -> Rgb.
Variable materialize_vae_encoder : Result unit.
Variable set_vae : Result unit.
Variable manage_model_device : Target -> Result unit.
Variable load_text_embeddings : option DType -> Result Embeds.
Variable materialize_dit : Result unit.
Variable dit_inference : Latent -> Result Latent.
Variable cleanup_text_embeddings :
@Ctx Frame Latent Alpha Rgb Style Embeds ->
@Ctx Frame Latent Alpha Rgb Style Embeds.
Variable materialize_vae : Result unit.
Variable vae_decode : Latent -> Result (list (list Frame)).
Variable process_alpha_for_batch :
option (list (list Frame)) -> option Alpha -> option Rgb -> list (list Frame).
Variable color_correct :
ColorCorrection -> bool -> list Frame -> Style -> Result (list Frame).
Variable rgb_only : list Frame -> list Frame.
Variable to_output : bool -> Frame -> Frame.

Lemma postprocess_requires_samples
    (ctx : @Ctx Frame Latent Alpha Rgb Style Embeds)
    (color_correction : ColorCorrection) :
batch_samples ctx = None \/ batch_samples ctx = Some [] ->
postprocess_all_batches process_alpha_for_batch color_correct rgb_only
                        to_output (Some ctx) true color_correction
= Raise ValueError.
Proof.
intros H. unfold postprocess_all_batches. cbn [negb].
destruct H as [-> | ->]; reflexivity.
Qed.

(** X13: A phase refuses a context the phase before it has not filled.  On
  the dictionary [prepare_generation_context] returns, Phases 2, 3 and 4
  raise [ValueError], and Phase 1 itself raises [KeyError]: the
  dictionary has no cache context, which the caller has to add.  On the
  context Phase 1 returns once the cache context is there, Phases 3 and
  4 still raise [ValueError]. *)
Theorem phases_refuse_out_of_order (runner : Runner) (cc : CacheContext)
      (images : list Frame) (batch_size : Z) (preserve_vram : bool)
      (temporal_overlap : Z) (input_noise_scale : Q)
      (color_correction : ColorCorrection) :
images <> [] -> 1 <= batch_size ->
materialize_vae_encoder = Ok tt -> set_vae = Ok tt ->
(forall t, manage_model_device t = Ok tt) ->
upscale_all_batches load_text_embeddings materialize_dit dit_inference
                    cleanup_text_embeddings runner
                    (Some (@prepare_generation_context
                             Frame Latent Alpha Rgb Style Embeds)) true
= (Raise ValueError, [])
/\ decode_all_batches materialize_vae vae_decode runner
                      (Some (@prepare_generation_context
                               Frame Latent Alpha Rgb Style Embeds)) true
   = Raise ValueError
/\ postprocess_all_batches process_alpha_for_batch color_correct rgb_only
                           to_output
                           (Some (@prepare_generation_context
                                    Frame Latent Alpha Rgb Style Embeds))
                           true color_correction
   = Raise ValueError
/\ encode_all_batches has_alpha video_transform apply_input_noise vae_encode
                      alpha_planes rgb_planes materialize_vae_encoder set_vae
                      manage_model_device runner
                      (Some (@prepare_generation_context
                               Frame Latent Alpha Rgb Style Embeds))
                      (Some images) batch_size preserve_vram true
                      temporal_overlap input_noise_scale color_correction
   = Raise KeyError
/\ exists ctx1 : @Ctx Frame Latent Alpha Rgb Style Embeds,
     encode_all_batches has_alpha video_transform apply_input_noise
                        vae_encode alpha_planes rgb_planes
                        materialize_vae_encoder set_vae manage_model_device
                        runner
                        (Some (set_cache_context (Some cc)
                                                 prepare_generation_context))
                        (Some images) batch_size preserve_vram true
                        temporal_overlap input_noise_scale color_correction
     = Ok ctx1
     /\ decode_all_batches materialize_vae vae_decode runner (Some ctx1) true
        = Raise ValueError
     /\ postprocess_all_batches process_alpha_for_batch color_correct
                                rgb_only to_output (Some ctx1) true
                                color_correction
        = Raise ValueError.
Proof.
intros Hne Hb Hm Hs Hd.
split; [apply upscale_requires_latents; right; reflexivity|].
split; [apply decode_requires_upscaled; right; reflexivity|].
split; [apply postprocess_requires_samples; right; reflexivity|].
split.
{ apply encode_all_batches_key_error; [exact Hne|exact Hm|].
  intros _. apply Hd. }
destruct (encode_all_batches_ok
            (Embeds := Embeds) has_alpha video_transform apply_input_noise
            vae_encode alpha_planes rgb_planes materialize_vae_encoder
            set_vae manage_model_device images input_noise_scale
            color_correction runner cc batch_size preserve_vram
            temporal_overlap Hne Hb Hm Hs Hd)
  as (ctx1 & vids & H1 & _ & _ & _ & _ & _ & _ & _ & _ & _ & Hu & Hsm & _).
exists ctx1. split; [exact H1|]. split.
- apply decode_requires_upscaled. right. exact Hu.
- apply postprocess_requires_samples. right. exact Hsm.
Qed.

(** X14: After the early return of Phase 2 (latents present, none of them
  valid) the context holds an empty list of upscaled latents, which
  Phase 3 refuses. *)
Theorem phase2_early_return_blocks_phase3 (runner : Runner)
      (ctx : @Ctx Frame Latent Alpha Rgb Style Embeds)
      (latents : list (option Latent)) :
all_latents ctx = Some latents -> latents <> [] ->
Forall (fun l => l = None) latents ->
(forall d, exists e, load_text_embeddings d = Ok e) ->
exists (ctx' : @Ctx Frame Latent Alpha Rgb Style Embeds) (trace : list Event),
  upscale_all_batches load_text_embeddings materialize_dit dit_inference
                      cleanup_text_embeddings runner (Some ctx) true
  = (Ok ctx', trace)
  /\ decode_all_batches materialize_vae vae_decode runner (Some ctx') true
     = Raise ValueError.
Proof.
intros Hl Hne Hnone Hload.
destruct (upscale_nothing_valid load_text_embeddings materialize_dit
            dit_inference cleanup_text_embeddings runner ctx latents
            Hl Hne Hnone Hload) as (ctx' & trace & H1 & H2 & _).
exists ctx', trace. split; [exact H1|].
apply decode_requires_upscaled. right. exact H2.
Qed.

Lemma count_valid_map_Some {A B : Type} (f : A -> B) (l : list A) :
count_valid (map (fun a => Some (f a)) l) = length l.
Proof.
unfold count_valid. induction l as [|a l IH]; [reflexivity|].
simpl. now rewrite IH.
Qed.

Lemma length_enumerate {A : Type} (l : list A) : length (enumerate l) = length l.
Proof.
unfold enumerate. rewrite length_combine, length_seq. lia.
Qed.

(** Phases 1 to 3 from a context with a cache context, when no operator
  raises and the cleanup of Phase 2 changes nothing but the text
  embeddings. *)
Lemma phases_1_2_3 (runner : Runner) (cc : CacheContext) (images : list Frame)
    (batch_size : Z) (preserve_vram : bool) (temporal_overlap : Z)
    (input_noise_scale : Q) (color_correction : ColorCorrection)
    (inf : Latent -> Latent) (dec : Latent -> list (list Frame)) :
images <> [] -> 1 <= batch_size ->
materialize_vae_encoder = Ok tt -> set_vae = Ok tt ->
(forall t, manage_model_device t = Ok tt) ->
(forall d, exists e, load_text_embeddings d = Ok e) ->
materialize_dit = Ok tt ->
(forall l, dit_inference l = Ok (inf l)) ->
(forall c, exists te, cleanup_text_embeddings c = set_text_embeds te c) ->
materialize_vae = Ok tt ->
(forall l, vae_decode l = Ok (dec l)) ->
exists (ctx1 ctx2 ctx3 : @Ctx Frame Latent Alpha Rgb Style Embeds)
       (trace : list Event) (vids : list (list Frame)),
  encode_all_batches has_alpha video_transform apply_input_noise vae_encode
                     alpha_planes rgb_planes materialize_vae_encoder set_vae
                     manage_model_device runner
                     (Some (set_cache_context (Some cc)
                                              prepare_generation_context))
                     (Some images) batch_size preserve_vram true
                     temporal_overlap input_noise_scale color_correction
  = Ok ctx1
  /\ upscale_all_batches load_text_embeddings materialize_dit dit_inference
                         cleanup_text_embeddings runner (Some ctx1) true
     = (Ok ctx2, trace)
  /\ decode_all_batches materialize_vae vae_decode runner (Some ctx2) true
     = Ok ctx3
  /\ Forall2 (fun w v => conform (Py.slice images (fst w) (snd w)) = Ok v)
             (encode_windows (Z.of_nat (length images))
                             batch_size temporal_overlap) vids
  /\ batch_samples ctx3
     = Some (map (fun p : nat * list Frame =>
                    Some (dec (inf (vae_encode
                                      (transform_batch video_transform
                                         apply_input_noise input_noise_scale
                                         (fst p) (snd p))))))
                 (enumerate vids))
  /\ all_ori_lengths ctx3
     = Some (map (fun w => Some (snd w - fst w))
                 (encode_windows (Z.of_nat (length images))
                                 batch_size temporal_overlap))
  /\ all_latents ctx3 = Some (replicate (length vids) None)
  /\ all_upscaled_latents ctx3 = None
  /\ total_frames ctx3 = Some (Z.of_nat (length images))
  /\ is_rgba ctx3 = from_option has_alpha false (head images)
  /\ final_video ctx3 = None
  /\ all_transformed_videos ctx3
     = (if is_none color_correction then None
        else Some (map (fun p : nat * list Frame =>
                          Some (transform_batch video_transform
                                  apply_input_noise input_noise_scale
                                  (fst p) (snd p)))
                       (enumerate vids))).
Proof.
intros Hne Hb Hm Hs Hd Hload Hmat Hinf Hclean Hmatv Hdec.
assert (Ht : 1 <= Z.of_nat (length images)).
{ destruct images; [contradiction|simpl; lia]. }
destruct (encode_all_batches_ok
            (Embeds := Embeds) has_alpha video_transform apply_input_noise
            vae_encode alpha_planes rgb_planes materialize_vae_encoder
            set_vae manage_model_device images input_noise_scale
            color_correction runner cc batch_size preserve_vram
            temporal_overlap Hne Hb Hm Hs Hd)
  as (ctx1 & vids & H1 & Hvids & Hlat & Hori & Htv & _ & _ & Hrgba & Htot
      & _ & _ & _ & Hfv).
pose proof (encode_windows_nonempty _ batch_size temporal_overlap Ht Hb)
  as Hwne.
pose proof (Forall2_length _ _ _ Hvids) as Hlen.
assert (Hvne : vids <> []).
{ intros ->. destruct (encode_windows _ _ _); [contradiction|discriminate]. }
pose proof (length_enumerate vids) as Hen.
assert (Hene : enumerate vids <> []).
{ intros E. rewrite E in Hen. destruct vids; [contradiction|discriminate]. }
destruct (upscale_all_batches_ok load_text_embeddings materialize_dit
            dit_inference cleanup_text_embeddings runner ctx1 _ inf Hlat)
  as (cd & ad & te & H2); try assumption.
{ rewrite count_valid_map_Some.
  destruct (enumerate vids); [contradiction|discriminate]. }
rewrite omap_map_Some, length_map in H2.
match type of H2 with
| _ = (Ok (cleanup_text_embeddings ?c), _) =>
    destruct (Hclean c) as [te' Hc]; rewrite Hc in H2
end.
match type of H2 with
| _ = (Ok ?c2, _) =>
    destruct (decode_all_batches_ok materialize_vae vae_decode runner c2
                (map (fun l => Some (inf l))
                     (map (fun p : nat * list Frame =>
                             vae_encode
                               (transform_batch video_transform
                                  apply_input_noise input_noise_scale
                                  (fst p) (snd p)))
                          (enumerate vids)))
                (map (fun w => Some (snd w - fst w))
                     (encode_windows (Z.of_nat (length images))
                                     batch_size temporal_overlap))
                dec) as (cd3 & ad3 & H3);
      [ reflexivity
      | destruct (enumerate vids); [contradiction|discriminate]
      | ctx_simpl; exact Hori
      | rewrite !count_valid_map_Some, length_map; lia
      | exact Hmatv
      | exact Hdec
      | ]
end.
eexists ctx1, _, _, _, vids.
split; [exact H1|]. split; [exact H2|]. split; [exact H3|].
split; [exact Hvids|]. ctx_simpl.
rewrite !count_valid_map_Some, length_map, omap_map_Some, map_map.
replace (length (encode_windows (Z.of_nat (length images)) batch_size
                                temporal_overlap) - length (enumerate vids))%nat
  with 0%nat by lia.
cbn [replicate]. rewrite app_nil_r, map_map, Hen.
repeat split; try reflexivity; assumption.
Qed.

(** X15: From a context that carries a cache context, and when no operator
  raises, Phases 1 to 3 hand to Phase 4 one decoded batch for every
  window of the encoder, in order: the decoder's output for the upscaled
  latent of the window's conformed and transformed frames.  Every latent
  has been consumed on the way. *)
Theorem pipeline_decodes_every_window (runner : Runner) (cc : CacheContext)
      (images : list Frame) (batch_size : Z) (preserve_vram : bool)
      (temporal_overlap : Z) (input_noise_scale : Q)
      (color_correction : ColorCorrection)
      (inf : Latent -> Latent) (dec : Latent -> list (list Frame)) :
images <> [] -> 1 <= batch_size ->
materialize_vae_encoder = Ok tt -> set_vae = Ok tt ->
(forall t, manage_model_device t = Ok tt) ->
(forall d, exists e, load_text_embeddings d = Ok e) ->
materialize_dit = Ok tt ->
(forall l, dit_inference l = Ok (inf l)) ->
(forall c, exists te, cleanup_text_embeddings c = set_text_embeds te c) ->
materialize_vae = Ok tt ->
(forall l, vae_decode l = Ok (dec l)) ->
exists (ctx1 ctx2 ctx3 : @Ctx Frame Latent Alpha Rgb Style Embeds)
       (trace : list Event) (vids : list (list Frame)),
  encode_all_batches has_alpha video_transform apply_input_noise vae_encode
                     alpha_planes rgb_planes materialize_vae_encoder set_vae
                     manage_model_device runner
                     (Some (set_cache_context (Some cc)
                                              prepare_generation_context))
                     (Some images) batch_size preserve_vram true
                     temporal_overlap input_noise_scale color_correction
  = Ok ctx1
  /\ upscale_all_batches load_text_embeddings materialize_dit dit_inference
                         cleanup_text_embeddings runner (Some ctx1) true
     = (Ok ctx2, trace)
  /\ decode_all_batches materialize_vae vae_decode runner (Some ctx2) true
     = Ok ctx3
  /\ Forall2 (fun w v => conform (Py.slice images (fst w) (snd w)) = Ok v)
             (encode_windows (Z.of_nat (length images))
                             batch_size temporal_overlap) vids
  /\ batch_samples ctx3
     = Some (map (fun p : nat * list Frame =>
                    Some (dec (inf (vae_encode
                                      (transform_batch video_transform
                                         apply_input_noise input_noise_scale
                                         (fst p) (snd p))))))
                 (enumerate vids))
  /\ all_latents ctx3 = Some (replicate (length vids) None)
  /\ all_upscaled_latents ctx3 = None.
Proof.
intros Hne Hb Hm Hs Hd Hload Hmat Hinf Hclean Hmatv Hdec.
destruct (phases_1_2_3 runner cc images batch_size preserve_vram
            temporal_overlap input_noise_scale color_correction inf dec
            Hne Hb Hm Hs Hd Hload Hmat Hinf Hclean Hmatv Hdec)
  as (ctx1 & ctx2 & ctx3 & trace & vids & H1 & H2 & H3 & H4 & H5 & _ & H7
      & H8 & _).
exists ctx1, ctx2, ctx3, trace, vids.
exact (conj H1 (conj H2 (conj H3 (conj H4 (conj H5 (conj H7 H8)))))).
Qed.

Lemma set_batch_samples_same (ctx : @Ctx Frame Latent Alpha Rgb Style Embeds)
    (x : list (option (list (list Frame)))) :
batch_samples ctx = Some x -> set_batch_samples (Some x) ctx = ctx.
Proof. destruct ctx. cbn. intros ->. reflexivity. Qed.

Lemma conform_length (video v : list Frame) :
conform video = Ok v -> (length video <= length v)%nat.
Proof.
unfold conform. destruct (negb _); [|intros [= <-]; lia].
destruct (Conformer.cut_videos video) as [r|] eqn:Hr; [|discriminate].
intros [= <-].
destruct (cut_videos_shape video r Hr) as (_ & _ & pad & -> & _).
rewrite length_app. lia.
Qed.

(** X16: The whole pipeline keeps the number of frames when batches do not
  overlap: from a context that carries a cache context, for an input
  without alpha channel, operators that do not raise, a decoder that
  returns one sample per batch with at least the frames that were
  encoded, and either no colour correction, or no padded batch (every
  window has [4n+1] frames) and a colour correction that returns as many
  frames as its sample has when the stored video has as many, the four
  phases succeed and the final video has exactly as many frames as the
  input. *)
Theorem pipeline_preserves_length_without_overlap
      (runner : Runner) (cc : CacheContext) (images : list Frame)
      (batch_size : Z) (preserve_vram : bool) (temporal_overlap : Z)
      (input_noise_scale : Q) (color_correction : ColorCorrection)
      (inf : Latent -> Latent) (sample : Latent -> list Frame) :
images <> [] -> 1 <= batch_size ->
temporal_overlap <= 0 \/ batch_size <= temporal_overlap ->
from_option has_alpha false (head images) = false ->
materialize_vae_encoder = Ok tt -> set_vae = Ok tt ->
(forall t, manage_model_device t = Ok tt) ->
(forall d, exists e, load_text_embeddings d = Ok e) ->
materialize_dit = Ok tt ->
(forall l, dit_inference l = Ok (inf l)) ->
(forall c, exists te, cleanup_text_embeddings c = set_text_embeds te c) ->
materialize_vae = Ok tt ->
(forall l, vae_decode l = Ok [sample l]) ->
(forall k v,
    (length v
     <= length (sample (inf (vae_encode
                               (transform_batch video_transform
                                  apply_input_noise input_noise_scale k v)))))%nat) ->
is_none color_correction = true
\/ (Forall (fun w => Placement.window_frames w mod 4 = 1)
           (encode_windows (Z.of_nat (length images)) batch_size
                           temporal_overlap)
    /\ forall (k : nat) (v s : list Frame),
         length s = length v ->
         exists s',
           color_correct color_correction false s
                         (transform_batch video_transform apply_input_noise
                                          input_noise_scale k v)
           = Ok s'
           /\ length s' = length s) ->
exists (ctx1 ctx2 ctx3 ctx4 : @Ctx Frame Latent Alpha Rgb Style Embeds)
       (trace : list Event) (video : list (option Frame)),
  encode_all_batches has_alpha video_transform apply_input_noise vae_encode
                     alpha_planes rgb_planes materialize_vae_encoder set_vae
                     manage_model_device runner
                     (Some (set_cache_context (Some cc)
                                              prepare_generation_context))
                     (Some images) batch_size preserve_vram true
                     temporal_overlap input_noise_scale color_correction
  = Ok ctx1
  /\ upscale_all_batches load_text_embeddings materialize_dit dit_inference
                         cleanup_text_embeddings runner (Some ctx1) true
     = (Ok ctx2, trace)
  /\ decode_all_batches materialize_vae vae_decode runner (Some ctx2) true
     = Ok ctx3
  /\ postprocess_all_batches process_alpha_for_batch color_correct rgb_only
                             to_output (Some ctx3) true color_correction
     = Ok ctx4
  /\ final_video ctx4 = Some video
  /\ length video = length images.
Proof.
intros Hne Hb Hov Hrgb Hm Hs Hd Hload Hmat Hinf Hclean Hmatv Hdec Hlong
       Hcolour.
assert (Ht : 1 <= Z.of_nat (length images)).
{ destruct images; [contradiction|simpl; lia]. }
destruct (phases_1_2_3 runner cc images batch_size preserve_vram
            temporal_overlap input_noise_scale color_correction inf
            (fun l => [sample l])
            Hne Hb Hm Hs Hd Hload Hmat Hinf Hclean Hmatv Hdec)
  as (ctx1 & ctx2 & ctx3 & trace & vids & H1 & H2 & H3 & Hvids & Hbs & Hori
      & _ & _ & Htot & Hrgba & _ & Htv).
set (windows := encode_windows (Z.of_nat (length images)) batch_size
                               temporal_overlap) in *.
pose proof (encode_windows_valid _ batch_size temporal_overlap Ht Hb)
  as Hvalid. fold windows in Hvalid.
pose proof (encode_windows_nonempty _ batch_size temporal_overlap Ht Hb)
  as Hwne. fold windows in Hwne.
set (decoded := map (fun p : nat * list Frame =>
                       sample (inf (vae_encode
                                      (transform_batch video_transform
                                         apply_input_noise input_noise_scale
                                         (fst p) (snd p)))))
                    (enumerate vids)).
assert (Hbs' : batch_samples ctx3
               = Some (map (fun d => Some [d]) decoded)).
{ rewrite Hbs. subst decoded. rewrite map_map. reflexivity. }
assert (Hdne : decoded <> []).
{ subst decoded. intros E. apply (f_equal length) in E.
  rewrite length_map, length_enumerate in E. apply Forall2_length in Hvids.
  destruct windows; [contradiction|]. simpl in *. lia. }
assert (Hvalid3 : Forall (fun w => 0 <= fst w /\ fst w < snd w
                                   /\ snd w <= Z.of_nat (length images))
                         windows).
{ eapply Forall_impl; [exact Hvalid|]. simpl. intros ? (? & ? & ? & _).
  auto. }
destruct (postprocess_run_cursor process_alpha_for_batch color_correct
            rgb_only to_output ctx3 color_correction
            (Z.of_nat (length images))
            (map Placement.window_frames windows) decoded)
  as (ctx4 & video & Hrun & Hfv & Hlen).
- rewrite Hori, map_map. reflexivity.
- rewrite Hrgba. exact Hrgb.
- subst decoded. apply Forall2_fmap_r, Forall2_fmap_l. unfold enumerate.
  clear -Hvids Hvalid Hlong. generalize 0%nat.
  induction Hvids as [|[s e] v ws vs Hv _ IH]; intros k; [constructor|].
  inversion Hvalid as [|? ? (Hs & Hse & He & _) Hrest]; subst.
  cbn [length seq combine]. constructor; [|exact (IH Hrest (S k))].
  simpl in Hs, Hse, He, Hv. unfold Placement.window_frames. simpl.
  pose proof (slice_length images s e Hs ltac:(lia) He) as Hsl.
  pose proof (conform_length _ _ Hv) as Hcl.
  specialize (Hlong k v). lia.
- exact Hdne.
- lia.
- apply encode_windows_sum_no_overlap; assumption.
- exact (corrections_fit video_transform apply_input_noise color_correct
           images windows vids input_noise_scale color_correction _
           Hvalid3 Hvids Htv Hcolour).
- rewrite (set_batch_samples_same ctx3 _ Hbs') in Hrun.
  exists ctx1, ctx2, ctx3, (postprocess_cleanup ctx4), trace, video.
  split; [exact H1|]. split; [exact H2|]. split; [exact H3|]. split.
  + unfold postprocess_all_batches. cbn [negb]. rewrite Hbs'.
    destruct decoded as [|d0 ds]; [contradiction|].
    cbn [map truthy negb]. rewrite Htot. ctx_simpl.
    destruct (Z.eqb_spec (Z.of_nat (length images)) 0); [lia|].
    rewrite Hrun. reflexivity.
  + split; [exact Hfv|lia].
Qed.

End Handover.

Lemma phases_refuse_out_of_order_witness :
  upscale_all_batches Run.load_text_embeddings Run.materialize_dit
                      Run.dit_inference Run.cleanup_text_embeddings Run.runner
                      (Some Run.ctx0) true
  = (Raise ValueError, [])
  /\ decode_all_batches (Ok tt) (fun l : list Run.Frame => Ok [l]) Run.runner
                        (Some Run.ctx0) true
     = Raise ValueError
  /\ postprocess_all_batches Run.process_alpha_for_batch Run.color_correct
                             Run.rgb_only Run.to_output (Some Run.ctx0) true
                             cc_none
     = Raise ValueError
  /\ encode_all_batches Run.has_alpha Run.video_transform Run.apply_input_noise
                        Run.vae_encode Run.alpha_planes Run.rgb_planes
                        Run.materialize_vae_encoder Run.set_vae
                        Run.manage_model_device Run.runner
                        (Some Run.ctx0) (Some (Run.rgb_images 7)) 5 false true
                        0 0 cc_none
     = Raise KeyError
  /\ exists ctx1 : Run.Context,
       encode_all_batches Run.has_alpha Run.video_transform
                          Run.apply_input_noise Run.vae_encode Run.alpha_planes
                          Run.rgb_planes Run.materialize_vae_encoder Run.set_vae
                          Run.manage_model_device Run.runner
                          (Some (set_cache_context (Some Run.cache)
                                                   prepare_generation_context))
                          (Some (Run.rgb_images 7)) 5 false true 0 0 cc_none
       = Ok ctx1
       /\ decode_all_batches (Ok tt) (fun l : list Run.Frame => Ok [l])
                             Run.runner (Some ctx1) true
          = Raise ValueError
       /\ postprocess_all_batches Run.process_alpha_for_batch Run.color_correct
                                  Run.rgb_only Run.to_output (Some ctx1) true
                                  cc_none
          = Raise ValueError.
Proof.
  apply (phases_refuse_out_of_order
           Run.has_alpha Run.video_transform Run.apply_input_noise
           Run.vae_encode Run.alpha_planes Run.rgb_planes
           Run.materialize_vae_encoder Run.set_vae Run.manage_model_device
           Run.load_text_embeddings Run.materialize_dit
           Run.dit_inference Run.cleanup_text_embeddings
           (Ok tt) (fun l : list Run.Frame => Ok [l])
           Run.process_alpha_for_batch Run.color_correct Run.rgb_only
           Run.to_output Run.runner Run.cache (Run.rgb_images 7) 5 false 0 0
           cc_none).
  - discriminate.
  - lia.
  - reflexivity.
  - reflexivity.
  - intros t. reflexivity.
Defined.

Lemma phase2_early_return_blocks_phase3_witness :
  exists (ctx' : Run.Context) (trace : list Event),
    upscale_all_batches Run.load_text_embeddings Run.materialize_dit
                        Run.dit_inference Run.cleanup_text_embeddings Run.runner
                        (Some Run.consumed_latents) true
    = (Ok ctx', trace)
    /\ decode_all_batches (Ok tt) (fun l : list Run.Frame => Ok [l]) Run.runner
                          (Some ctx') true
       = Raise ValueError.
Proof.
  apply (phase2_early_return_blocks_phase3
           Run.load_text_embeddings Run.materialize_dit Run.dit_inference
           Run.cleanup_text_embeddings (Ok tt)
           (fun l : list Run.Frame => Ok [l]) Run.runner Run.consumed_latents
           [None; None]).
  - reflexivity.
  - discriminate.
  - repeat constructor.
  - intros d. exists tt. reflexivity.
Defined.

Lemma pipeline_decodes_every_window_witness :
  exists (ctx1 ctx2 ctx3 : Run.Context) (trace : list Event)
         (vids : list (list Run.Frame)),
    encode_all_batches Run.has_alpha Run.video_transform Run.apply_input_noise
                       Run.vae_encode Run.alpha_planes Run.rgb_planes
                       Run.materialize_vae_encoder Run.set_vae
                       Run.manage_model_device Run.runner
                       (Some (set_cache_context (Some Run.cache)
                                                prepare_generation_context))
                       (Some (Run.rgb_images 17)) 9 false true 4 0 cc_wavelet
    = Ok ctx1
    /\ upscale_all_batches Run.load_text_embeddings Run.materialize_dit
                           Run.dit_inference Run.cleanup_text_embeddings
                           Run.runner (Some ctx1) true
       = (Ok ctx2, trace)
    /\ decode_all_batches (Ok tt) (fun l : list Run.Frame => Ok [l]) Run.runner
                          (Some ctx2) true
       = Ok ctx3
    /\ Forall2 (fun w v =>
                  conform (Py.slice (Run.rgb_images 17) (fst w) (snd w)) = Ok v)
               (encode_windows (Z.of_nat (length (Run.rgb_images 17))) 9 4) vids
    /\ batch_samples ctx3
       = Some (map (fun p : nat * list Run.Frame =>
                      Some [Run.vae_encode
                              (transform_batch Run.video_transform
                                 Run.apply_input_noise 0 (fst p) (snd p))])
                   (enumerate vids))
    /\ all_latents ctx3 = Some (replicate (length vids) None)
    /\ all_upscaled_latents ctx3 = None.
Proof.
  apply (pipeline_decodes_every_window
           Run.has_alpha Run.video_transform Run.apply_input_noise
           Run.vae_encode Run.alpha_planes Run.rgb_planes
           Run.materialize_vae_encoder Run.set_vae Run.manage_model_device
           Run.load_text_embeddings Run.materialize_dit
           Run.dit_inference Run.cleanup_text_embeddings
           (Ok tt) (fun l : list Run.Frame => Ok [l])
           Run.runner Run.cache (Run.rgb_images 17) 9 false 4 0 cc_wavelet
           (fun l => l) (fun l => [l])).
  - discriminate.
  - lia.
  - reflexivity.
  - reflexivity.
  - intros t. reflexivity.
  - intros d. exists tt. reflexivity.
  - reflexivity.
  - intros l. reflexivity.
  - intros c. exists (text_embeds c). destruct c. reflexivity.
  - reflexivity.
  - intros l. reflexivity.
Defined.

Lemma pipeline_preserves_length_without_overlap_witness :
  exists (ctx1 ctx2 ctx3 ctx4 : Run.Context)
         (trace : list Event) (video : list (option Run.Frame)),
    encode_all_batches Run.has_alpha Run.video_transform Run.apply_input_noise
                       Run.vae_encode Run.alpha_planes Run.rgb_planes
                       Run.materialize_vae_encoder Run.set_vae
                       Run.manage_model_device Run.runner
                       (Some (set_cache_context (Some Run.cache)
                                                prepare_generation_context))
                       (Some (Run.rgb_images 10)) 5 false true 0 0 cc_wavelet
    = Ok ctx1
    /\ upscale_all_batches Run.load_text_embeddings Run.materialize_dit
                           Run.dit_inference Run.cleanup_text_embeddings
                           Run.runner (Some ctx1) true
       = (Ok ctx2, trace)
    /\ decode_all_batches (Ok tt) (fun l : list Run.Frame => Ok [l]) Run.runner
                          (Some ctx2) true
       = Ok ctx3
    /\ postprocess_all_batches Run.process_alpha_for_batch Run.color_correct
                               Run.rgb_only Run.to_output (Some ctx3) true
                               cc_wavelet
       = Ok ctx4
    /\ final_video ctx4 = Some video
    /\ length video = length (Run.rgb_images 10).
Proof.
  apply (pipeline_preserves_length_without_overlap
           Run.has_alpha Run.video_transform Run.apply_input_noise
           Run.vae_encode Run.alpha_planes Run.rgb_planes
           Run.materialize_vae_encoder Run.set_vae Run.manage_model_device
           Run.load_text_embeddings Run.materialize_dit
           Run.dit_inference Run.cleanup_text_embeddings
           (Ok tt) (fun l : list Run.Frame => Ok [l])
           Run.process_alpha_for_batch Run.color_correct Run.rgb_only
           Run.to_output Run.runner Run.cache (Run.rgb_images 10) 5 false 0 0
           cc_wavelet (fun l => l) (fun l => l)).
  - discriminate.
  - lia.
  - left. lia.
  - reflexivity.
  - reflexivity.
  - reflexivity.
  - intros t. reflexivity.
  - intros d. exists tt. reflexivity.
  - reflexivity.
  - intros l. reflexivity.
  - intros c. exists (text_embeds c). destruct c. reflexivity.
  - reflexivity.
  - intros l. reflexivity.
  - intros k v. apply Nat.le_refl.
  - right. split.
    + repeat constructor.
    + intros k v s Hlen. exists s. split; [|reflexivity].
      unfold Run.color_correct, transform_batch, Run.video_transform.
      cbn [Qle_bool negb]. rewrite Hlen, Nat.eqb_refl. reflexivity.
Defined.

(* ================================================================== *)
(** * Phase 4: the alpha stage in general, and the context it leaves *)

Section Phase4Context.

Context {Frame Latent Alpha Rgb Style Embeds : Type}.
Variable load_text_embeddings : option DType -> Result Embeds.
Variable materialize_dit : Result unit.
Variable dit_inference : Latent -> Result Latent.
Variable cleanup_text_embeddings :
@Ctx Frame Latent Alpha Rgb Style Embeds ->
@Ctx Frame Latent Alpha Rgb Style Embeds.
Variable process_alpha_for_batch :
option (list (list Frame)) -> option Alpha -> option Rgb -> list (list Frame).
Variable color_correct :
ColorCorrection -> bool -> list Frame -> Style -> Result (list Frame).
Variable rgb_only : list Frame -> list Frame.
Variable to_output : bool -> Frame -> Frame.

Lemma last_range (n : nat) :
last (Py.range 0 (Z.of_nat (S n))) = Some (Z.of_nat n).
Proof.
unfold Py.range. rewrite Z.sub_0_r, Nat2Z.id.
rewrite seq_S, map_app. cbn [map]. rewrite last_snoc. reflexivity.
Qed.

(** X17: For an RGBA context with both alpha stores, the alpha stage calls the
  operator exactly once, on the last batch, whatever that batch holds
  (also when its samples or its alpha channel are [None]), stores the
  result there and clears the last slot of the two alpha stores; every
  earlier slot of the three lists is left as it was. *)
Theorem alpha_stage_runs_last_batch_once
      (ctx : @Ctx Frame Latent Alpha Rgb Style Embeds)
      (samples : list (option (list (@Sample Frame))))
      (alphas : list (option Alpha)) (rgbs : list (option Rgb))
      (s : option (list (@Sample Frame))) (a : option Alpha) (r : option Rgb) :
is_rgba ctx = true ->
batch_samples ctx = Some samples ->
all_alpha_channels ctx = Some alphas ->
all_input_rgb ctx = Some rgbs ->
samples !! (length samples - 1)%nat = Some s ->
alphas !! (length samples - 1)%nat = Some a ->
rgbs !! (length samples - 1)%nat = Some r ->
alpha_stage process_alpha_for_batch ctx
= Ok (set_alpha
        (Some (<[(length samples - 1)%nat := None]> alphas))
        (Some (<[(length samples - 1)%nat := None]> rgbs))
        (set_batch_samples
           (Some (<[(length samples - 1)%nat
                    := Some (process_alpha_for_batch s a r)]> samples))
           ctx)).
Proof.
intros Hrgba Hs Ha Hr Hls Hla Hlr. unfold alpha_stage.
rewrite Hrgba, Ha, Hr, Hs. change (default [] (Some samples)) with samples.
rewrite alpha_scan_last.
pose proof (lookup_lt_Some _ _ _ Hls) as Hn.
pose proof (lookup_lt_Some _ _ _ Hla) as Hna.
pose proof (lookup_lt_Some _ _ _ Hlr) as Hnr.
destruct (length samples) as [|n] eqn:Elen; [lia|].
rewrite last_range, Nat2Z.id.
replace (S n - 1)%nat with n in * by lia.
unfold index. rewrite Hls, Hla, Hlr. cbn [bind].
rewrite !assign_ok by lia. reflexivity.
Qed.

(** X18: A successful Phase 4 on a video with frames spends the context: the
  returned context has no batch samples, no recorded lengths and no
  latents left, so that both Phase 4 and Phase 2 refuse it. *)
Theorem postprocess_spends_context
      (runner : Runner) (ctx ctx' : @Ctx Frame Latent Alpha Rgb Style Embeds)
      (color_correction : ColorCorrection) :
postprocess_all_batches process_alpha_for_batch color_correct rgb_only
                        to_output (Some ctx) true color_correction
= Ok ctx' ->
default 0 (total_frames ctx) <> 0 ->
truthy (batch_samples ctx') = false
/\ all_ori_lengths ctx' = None
/\ truthy (all_latents ctx') = false
/\ postprocess_all_batches process_alpha_for_batch color_correct rgb_only
                           to_output (Some ctx') true color_correction
   = Raise ValueError
/\ upscale_all_batches load_text_embeddings materialize_dit dit_inference
                       cleanup_text_embeddings runner (Some ctx') true
   = (Raise ValueError, []).
Proof.
intros H Htot.
assert (Hspent : truthy (batch_samples ctx') = false
                 /\ all_ori_lengths ctx' = None
                 /\ truthy (all_latents ctx') = false).
{ unfold postprocess_all_batches in H. cbn [negb] in H.
  destruct (truthy (batch_samples ctx)); [|discriminate]. cbn [negb] in H.
  destruct (Z.eqb_spec (default 0 (total_frames ctx)) 0); [contradiction|].
  destruct (postprocess_run _ _ _ _ _ _ _) as [[ctx4 cur]|]; [|discriminate].
  cbn [bind fst] in H. injection H as <-.
  unfold postprocess_cleanup.
  cbn [batch_samples all_ori_lengths all_latents].
  split; [|split; [reflexivity|]].
  - destruct (truthy (batch_samples ctx4)) eqn:E; [reflexivity|exact E].
  - destruct (truthy (all_latents ctx4)) eqn:E; [reflexivity|exact E]. }
destruct Hspent as (Hbs & Hori & Hlat).
split; [exact Hbs|]. split; [exact Hori|]. split; [exact Hlat|]. split.
- unfold postprocess_all_batches. cbn [negb]. rewrite Hbs. reflexivity.
- apply upscale_requires_latents.
  destruct (all_latents ctx') as [[|x l]|]; [right| |left];
    try reflexivity. discriminate.
Qed.

End Phase4Context.

Lemma alpha_stage_runs_last_batch_once_witness :
  alpha_stage Run.process_alpha_for_batch
    (mkCtx None None None (Some 7) true (Some []) None None None
           (Some [Some [0; 1; 2; 3; 4]; None]%nat)
           (Some [Some [0; 1; 2; 3; 4]; Some [5; 6; 6; 6; 6]]%nat)
           (Some [Some (Run.decoded 0 5); Some (Run.decoded 1 5)]) None None
     : Run.Context)
  = Ok (set_alpha
          (Some (<[(length [Some (Run.decoded 0 5); Some (Run.decoded 1 5)] - 1)%nat
                   := None]> [Some [0; 1; 2; 3; 4]; None]%nat))
          (Some (<[(length [Some (Run.decoded 0 5); Some (Run.decoded 1 5)] - 1)%nat
                   := None]> [Some [0; 1; 2; 3; 4]; Some [5; 6; 6; 6; 6]]%nat))
          (set_batch_samples
             (Some (<[(length [Some (Run.decoded 0 5); Some (Run.decoded 1 5)]
                       - 1)%nat
                      := Some (Run.process_alpha_for_batch
                                 (Some (Run.decoded 1 5)) None
                                 (Some [5; 6; 6; 6; 6]%nat))]>
                      [Some (Run.decoded 0 5); Some (Run.decoded 1 5)]))
             (mkCtx None None None (Some 7) true (Some []) None None None
                    (Some [Some [0; 1; 2; 3; 4]; None]%nat)
                    (Some [Some [0; 1; 2; 3; 4]; Some [5; 6; 6; 6; 6]]%nat)
                    (Some [Some (Run.decoded 0 5); Some (Run.decoded 1 5)]) None None
              : Run.Context))).
Proof.
  apply (alpha_stage_runs_last_batch_once
           Run.process_alpha_for_batch
           (mkCtx None None None (Some 7) true (Some []) None None None
                  (Some [Some [0; 1; 2; 3; 4]; None]%nat)
                  (Some [Some [0; 1; 2; 3; 4]; Some [5; 6; 6; 6; 6]]%nat)
                  (Some [Some (Run.decoded 0 5); Some (Run.decoded 1 5)]) None None
            : Run.Context)
           [Some (Run.decoded 0 5); Some (Run.decoded 1 5)]
           [Some [0; 1; 2; 3; 4]; None]%nat
           [Some [0; 1; 2; 3; 4]; Some [5; 6; 6; 6; 6]]%nat
           (Some (Run.decoded 1 5)) None (Some [5; 6; 6; 6; 6]%nat));
    reflexivity.
Defined.

Lemma postprocess_spends_context_witness :
  exists ctx' : Run.Context,
    truthy (batch_samples ctx') = false
    /\ all_ori_lengths ctx' = None
    /\ truthy (all_latents ctx') = false
    /\ postprocess_all_batches Run.process_alpha_for_batch Run.color_correct
                               Run.rgb_only Run.to_output (Some ctx') true cc_none
       = Raise ValueError
    /\ upscale_all_batches Run.load_text_embeddings Run.materialize_dit
                           Run.dit_inference Run.cleanup_text_embeddings
                           Run.runner (Some ctx') true
       = (Raise ValueError, []).
Proof.
  eexists.
  apply (postprocess_spends_context
           Run.load_text_embeddings Run.materialize_dit Run.dit_inference
           Run.cleanup_text_embeddings Run.process_alpha_for_batch
           Run.color_correct Run.rgb_only Run.to_output Run.runner
           (mkCtx None None None (Some 2) false (Some [None]) None
                  (Some [Some 2]) None None None
                  (Some [Some (Run.decoded 0 5)]) None None : Run.Context)
           _ cc_none).
  - vm_compute. reflexivity.
  - simpl. lia.
Defined.

(* ================================================================== *)
(** * Hue-conditional saturation matching: the bins, small images, and what
      histogram matching does to the values *)

Section HueBins.

Local Open Scope Q_scope.

Lemma bin_width_value : HSV.bin_width == 1 # 12.
Proof. reflexivity. Qed.

Lemma bin_mask_inner (i : Z) (h : Q) :
(i <> 0)%Z ->
HSV.bin_mask i h = true
<-> inject_Z i <= 12 * h /\ 12 * h < inject_Z i + 1.
Proof.
intros Hi. unfold HSV.bin_mask, HSV.Qltb.
destruct (Z.eqb_spec i 0); [contradiction|].
rewrite andb_true_iff, negb_true_iff, Qle_bool_iff,
  <- not_true_iff_false, Qle_bool_iff.
rewrite inject_Z_plus, bin_width_value. change (inject_Z 1) with 1.
split; intros [H1 H2]; split; lra.
Qed.

Lemma bin_mask_first (h : Q) :
HSV.bin_mask 0 h = true <-> (0 <= h /\ 12 * h < 1) \/ 11 <= 12 * h.
Proof.
unfold HSV.bin_mask, HSV.Qltb. cbn [Z.eqb].
rewrite orb_true_iff, andb_true_iff, negb_true_iff, !Qle_bool_iff,
  <- not_true_iff_false, Qle_bool_iff.
rewrite bin_width_value. change (inject_Z (0 + 1)) with 1.
split; (intros [[H1 H2]|H]; [left; split; lra | right; lra]).
Qed.

(** X19: Every hue in [0, 1) falls into one of the twelve bins, and into one
  only, except that the hues from 11/12 on are both in bin 0 (through its
  wrap-around clause) and in bin 11. *)
Theorem hue_bins_cover_and_overlap (h : Q) :
0 <= h /\ h < 1 ->
(exists i, (0 <= i < HSV.num_bins)%Z /\ HSV.bin_mask i h = true)
/\ (forall i j, (0 <= i < j)%Z -> (j < HSV.num_bins)%Z ->
                HSV.bin_mask i h = true -> HSV.bin_mask j h = true ->
                i = 0%Z /\ j = 11%Z /\ 11 # 12 <= h)
/\ (11 # 12 <= h ->
    HSV.bin_mask 0 h = true /\ HSV.bin_mask 11 h = true).
Proof.
intros [H0 H1]. unfold HSV.num_bins. split; [|split].
- pose proof (Qfloor_le (12 * h)) as Hlo.
  pose proof (Qlt_floor (12 * h)) as Hhi.
  set (i := Qfloor (12 * h)) in *. clearbody i.
  rewrite inject_Z_plus in Hhi. change (inject_Z 1) with 1 in Hhi.
  assert (Hi0 : (0 <= i)%Z).
  { apply Z.lt_succ_r. rewrite Zlt_Qlt. unfold Z.succ.
    rewrite inject_Z_plus. change (inject_Z 1) with 1.
    change (inject_Z 0) with 0. lra. }
  assert (Hi12 : (i < 12)%Z).
  { rewrite Zlt_Qlt. change (inject_Z 12) with 12. lra. }
  exists i. split; [lia|].
  destruct (Z.eq_dec i 0%Z) as [E|E].
  + subst i. apply bin_mask_first. left.
    change (inject_Z 0) with 0 in Hhi. split; lra.
  + apply bin_mask_inner; [exact E|]. split; lra.
- intros i j Hij Hj Hi Hjm.
  assert (Hj0 : (j <> 0)%Z) by lia.
  apply (bin_mask_inner j h Hj0) in Hjm as [Hj1 Hj2].
  assert (Hstep : inject_Z i + 1 <= inject_Z j).
  { change 1 with (inject_Z 1). rewrite <- inject_Z_plus, <- Zle_Qle. lia. }
  destruct (Z.eq_dec i 0%Z) as [E|E].
  + subst i. apply bin_mask_first in Hi as [[_ Hi]|Hi].
    * change (inject_Z 0) with 0 in Hstep. lra.
    * assert (Hj11 : (10 < j)%Z).
      { rewrite Zlt_Qlt. change (inject_Z 10) with 10. lra. }
      split; [reflexivity|]. split; [lia|]. lra.
  + apply (bin_mask_inner i h E) in Hi as [Hi1 Hi2]. lra.
- intros H11. split.
  + apply bin_mask_first. right. lra.
  + apply bin_mask_inner; [discriminate|].
    change (inject_Z 11) with 11. split; lra.
Qed.

Lemma hue_bins_cover_and_overlap_witness :
(exists i, (0 <= i < HSV.num_bins)%Z /\ HSV.bin_mask i (23 # 24) = true)
/\ (forall i j, (0 <= i < j)%Z -> (j < HSV.num_bins)%Z ->
                HSV.bin_mask i (23 # 24) = true ->
                HSV.bin_mask j (23 # 24) = true ->
                i = 0%Z /\ j = 11%Z /\ 11 # 12 <= 23 # 24)
/\ (11 # 12 <= 23 # 24 ->
    HSV.bin_mask 0 (23 # 24) = true /\ HSV.bin_mask 11 (23 # 24) = true).
Proof.
apply (hue_bins_cover_and_overlap (23 # 24)). split; reflexivity || discriminate.
Defined.

End HueBins.

Lemma select_length (mask : list bool) (values : list Q) :
  (length (HSV.select mask values) <= length values)%nat.
Proof.
  revert values. induction mask as [|[] mask IH]; intros [|v values];
    simpl; try lia; specialize (IH values); lia.
Qed.

Lemma fold_left_fixed {A B : Type} (f : A -> B -> A) (a : A) (l : list B) :
  (forall b, f a b = a) -> fold_left f l a = a.
Proof.
  intros H. induction l as [|b l IH]; [reflexivity|].
  simpl. rewrite H. exact IH.
Qed.

Lemma hue_match_small
        (content_h content_s style_h style_s : list Q) :
  (length content_s <= 100)%nat \/ (length style_s <= 100)%nat ->
  HSV.hue_conditional_saturation_match content_h content_s style_h style_s
  = content_s.
Proof.
  intros Hsmall. unfold HSV.hue_conditional_saturation_match.
  apply fold_left_fixed. intros bin_idx. unfold HSV.match_bin.
  pose proof (select_length (map (HSV.bin_mask bin_idx) content_h) content_s).
  pose proof (select_length (map (HSV.bin_mask bin_idx) style_h) style_s).
  unfold HSV.bin_qualifies, HSV.min_pixels.
  destruct Hsmall.
  - destruct (Nat.ltb_spec 100 (length (HSV.select
               (map (HSV.bin_mask bin_idx) content_h) content_s))); [lia|].
    reflexivity.
  - destruct (Nat.ltb_spec 100 (length (HSV.select
               (map (HSV.bin_mask bin_idx) style_h) style_s))); [lia|].
    rewrite andb_false_r. reflexivity.
Qed.

(* ================================================================== *)
(** * Histogram matching: the values it returns *)

Lemma insert_sorted_perm (x : Q * nat) (l : list (Q * nat)) :
  HSV.insert_sorted x l ≡ₚ x :: l.
Proof.
  induction l as [|y l IH]; [reflexivity|].
  cbn [HSV.insert_sorted]. destruct (HSV.Qltb (fst x) (fst y)); [reflexivity|].
  rewrite IH. apply perm_swap.
Qed.

Lemma fold_insert_sorted_perm (items : list (Q * nat)) :
  forall acc,
    fold_left (fun acc x => HSV.insert_sorted x acc) items acc ≡ₚ items ++ acc.
Proof.
  induction items as [|x items IH]; intros acc; [reflexivity|].
  cbn [fold_left]. rewrite IH, insert_sorted_perm.
  symmetry. apply Permutation_middle.
Qed.

Lemma sort_indexed_perm (l : list Q) :
  HSV.sort_indexed l ≡ₚ combine l (seq 0 (length l)).
Proof.
  unfold HSV.sort_indexed. rewrite fold_insert_sorted_perm.
  now rewrite app_nil_r.
Qed.

Lemma combine_seq_fst (l : list Q) (j : nat) :
  map fst (combine l (seq j (length l))) = l.
Proof.
  revert j. induction l as [|x l IH]; intros j; [reflexivity|].
  simpl. now rewrite IH.
Qed.

Lemma combine_seq_snd (l : list Q) (j : nat) :
  map snd (combine l (seq j (length l))) = seq j (length l).
Proof.
  revert j. induction l as [|x l IH]; intros j; [reflexivity|].
  simpl. now rewrite IH.
Qed.

Lemma combine_seq_lookup (l : list Q) (v : Q) (i : nat) :
  forall j, In (v, i) (combine l (seq j (length l))) ->
            (j <= i)%nat /\ l !! (i - j)%nat = Some v.
Proof.
  induction l as [|x l IH]; intros j H; [destruct H|].
  simpl in H. destruct H as [[= -> ->]|H].
  - rewrite Nat.sub_diag. split; [lia|reflexivity].
  - apply IH in H as [Hj Hl]. split; [lia|].
    replace (i - j)%nat with (S (i - S j)) by lia. exact Hl.
Qed.

Lemma sort_indexed_values (l : list Q) :
  map fst (HSV.sort_indexed l) ≡ₚ l.
Proof.
  rewrite (Permutation_map fst (sort_indexed_perm l)).
  now rewrite combine_seq_fst.
Qed.

Lemma sort_indexed_indices (l : list Q) :
  map snd (HSV.sort_indexed l) ≡ₚ seq 0 (length l).
Proof.
  rewrite (Permutation_map snd (sort_indexed_perm l)).
  now rewrite combine_seq_snd.
Qed.

Lemma sort_indexed_length (l : list Q) :
  length (HSV.sort_indexed l) = length l.
Proof.
  rewrite (Permutation_length (sort_indexed_perm l)).
  rewrite length_combine, length_seq. lia.
Qed.

(** Every pair of the sorted list is a value of the input with its
    position. *)
Lemma sort_indexed_entry (l : list Q) (v : Q) (i : nat) :
  In (v, i) (HSV.sort_indexed l) -> l !! i = Some v.
Proof.
  intros H. apply list_elem_of_In in H.
  rewrite (sort_indexed_perm l) in H. apply list_elem_of_In in H.
  apply combine_seq_lookup in H as [_ H]. now rewrite Nat.sub_0_r in H.
Qed.

Lemma scatter_length (indices : list nat) (values : list Q) :
  forall base, length (HSV.scatter base indices values) = length base.
Proof.
  unfold HSV.scatter.
  generalize (combine indices values). intros pairs.
  induction pairs as [|p pairs IH]; intros base; [reflexivity|].
  cbn [fold_left]. rewrite IH. apply length_insert.
Qed.

Lemma scatter_cons (base : list Q) (i : nat) (indices : list nat) (v : Q)
      (values : list Q) :
  HSV.scatter base (i :: indices) (v :: values)
  = HSV.scatter (<[i := v]> base) indices values.
Proof. reflexivity. Qed.

(** Positions that are not written keep their value. *)
Lemma scatter_untouched (indices : list nat) :
  forall (values : list Q) (base : list Q) (i : nat),
    ~ In i indices ->
    HSV.scatter base indices values !! i = base !! i.
Proof.
  induction indices as [|j indices IH]; intros values base i Hi;
    [reflexivity|].
  destruct values as [|v values]; [reflexivity|].
  rewrite scatter_cons, IH by (intros H; apply Hi; now right).
  apply list_lookup_insert_ne. intros ->. apply Hi. now left.
Qed.

(** With pairwise distinct positions, the value written at a position is
    the one found there afterwards. *)
Lemma scatter_lookup (indices : list nat) :
  forall (values : list Q) (base : list Q) (k i : nat) (v : Q),
    List.NoDup indices ->
    indices !! k = Some i -> values !! k = Some v ->
    (i < length base)%nat ->
    HSV.scatter base indices values !! i = Some v.
Proof.
  induction indices as [|j indices IH]; intros values base k i v Hnd Hi Hv Hlt;
    [discriminate|].
  destruct values as [|v0 values]; [discriminate|].
  rewrite scatter_cons. inversion Hnd as [|? ? Hnotin Hnd']; subst.
  destruct k as [|k].
  - injection Hi as ->. injection Hv as ->.
    rewrite scatter_untouched by exact Hnotin.
    now apply list_lookup_insert_eq.
  - apply (IH values _ k); try assumption. now rewrite length_insert.
Qed.

(** Scattering one value to each position of a list permutes the values. *)
Lemma scatter_permutation (base : list Q) (indices : list nat)
      (values : list Q) :
  indices ≡ₚ seq 0 (length base) -> length values = length base ->
  HSV.scatter base indices values ≡ₚ values.
Proof.
  intros Hperm Hlen. symmetry.
  assert (Hnd : List.NoDup indices).
  { apply NoDup_ListNoDup. rewrite Hperm. apply NoDup_seq. }
  assert (Hrange : forall k i, indices !! k = Some i -> (i < length base)%nat).
  { intros k i Hk. apply list_elem_of_lookup_2 in Hk. rewrite Hperm in Hk.
    apply list_elem_of_In, in_seq in Hk. lia. }
  assert (Hil : length indices = length base).
  { rewrite (Permutation_length Hperm). apply length_seq. }
  apply Permutation_inj. split; [now rewrite scatter_length|].
  exists (fun k => default k (indices !! k)). split.
  - intros k1 k2 E.
    destruct (indices !! k1) as [i1|] eqn:E1, (indices !! k2) as [i2|] eqn:E2;
      simpl in E.
    + subst i2. apply NoDup_ListNoDup in Hnd.
      exact (NoDup_lookup _ _ _ _ Hnd E1 E2).
    + apply Hrange in E1. apply lookup_ge_None in E2. lia.
    + apply Hrange in E2. apply lookup_ge_None in E1. lia.
    + exact E.
  - intros k. destruct (indices !! k) as [i|] eqn:Ek; simpl.
    + destruct (values !! k) as [v|] eqn:Ev.
      * symmetry. eapply scatter_lookup; eauto.
      * apply lookup_ge_None in Ev. apply lookup_lt_Some in Ek. lia.
    + apply lookup_ge_None in Ek.
      rewrite (proj2 (lookup_ge_None values k)) by lia.
      symmetry. apply lookup_ge_None. rewrite scatter_length. lia.
Qed.

(** Writing back to every position the value that is already there changes
    nothing. *)
Lemma scatter_same (indices : list nat) :
  forall (values : list Q) (base : list Q),
    (forall i v, In (i, v) (combine indices values) -> base !! i = Some v) ->
    HSV.scatter base indices values = base.
Proof.
  induction indices as [|j indices IH]; intros values base H; [reflexivity|].
  destruct values as [|v values]; [reflexivity|].
  rewrite scatter_cons.
  rewrite (list_insert_id base j v) by (apply H; now left).
  apply IH. intros i w Hin. apply H. now right.
Qed.

(** X20: The output of histogram matching has the length of the source and takes
    all its values from the reference; when the two have the same number of
    values the output is a rearrangement of the reference. *)
Theorem histogram_matching_1d_values (source reference : list Q) :
  reference <> [] ->
  length (HSV.histogram_matching_1d source reference) = length source
  /\ Forall (fun v => In v reference)
            (HSV.histogram_matching_1d source reference)
  /\ (length source = length reference ->
      HSV.histogram_matching_1d source reference ≡ₚ reference).
Proof.
  intros Hne. unfold HSV.histogram_matching_1d.
  rewrite !length_map, !sort_indexed_length.
  split; [apply scatter_length|].
  assert (Hnr : (0 < length reference)%nat).
  { destruct reference; [contradiction|simpl; lia]. }
  destruct (Nat.eqb_spec (length source) (length reference)) as [E|E].
  - assert (Hp : HSV.scatter source (map snd (HSV.sort_indexed source))
                             (map fst (HSV.sort_indexed reference))
                 ≡ₚ reference).
    { rewrite scatter_permutation.
      - apply sort_indexed_values.
      - apply sort_indexed_indices.
      - rewrite length_map, sort_indexed_length. lia. }
    split; [|intros _; exact Hp].
    apply Forall_forall. intros v Hv. apply list_elem_of_In.
    rewrite <- Hp. exact Hv.
  - split; [|intros E'; contradiction].
    apply Forall_forall. intros v Hv.
    rewrite scatter_permutation in Hv;
      [ | apply sort_indexed_indices
        | rewrite length_map, length_seq; reflexivity ].
    apply list_elem_of_In, in_map_iff in Hv as (k & <- & _).
    match goal with
    | |- In (default 0%Q (?l !! ?n)) _ =>
        destruct (l !! n) as [x|] eqn:Ex
    end.
    + apply list_elem_of_lookup_2 in Ex. simpl.
      rewrite sort_indexed_values in Ex. now apply list_elem_of_In.
    + apply lookup_ge_None in Ex.
      rewrite length_map, sort_indexed_length in Ex. lia.
Qed.

Lemma histogram_matching_1d_values_witness :
  length (HSV.histogram_matching_1d [3 # 10; 1 # 10; 2 # 10] [9 # 10; 5 # 10])
  = length [3 # 10; 1 # 10; 2 # 10]
  /\ Forall (fun v => In v [9 # 10; 5 # 10])
            (HSV.histogram_matching_1d [3 # 10; 1 # 10; 2 # 10] [9 # 10; 5 # 10])
  /\ (length [3 # 10; 1 # 10; 2 # 10] = length [9 # 10; 5 # 10] ->
      HSV.histogram_matching_1d [3 # 10; 1 # 10; 2 # 10] [9 # 10; 5 # 10]
      ≡ₚ [9 # 10; 5 # 10]).
Proof.
  apply (histogram_matching_1d_values [3 # 10; 1 # 10; 2 # 10] [9 # 10; 5 # 10]).
  discriminate.
Defined.

Lemma combine_swap_In (sorted : list (Q * nat)) (i : nat) (v : Q) :
  In (i, v) (combine (map snd sorted) (map fst sorted)) -> In (v, i) sorted.
Proof.
  induction sorted as [|[w j] sorted IH]; simpl; [tauto|].
  intros [[= <- <-]|H]; [left; reflexivity|right; auto].
Qed.

(** Matching a list of values against itself gives the list back. *)
Lemma histogram_matching_1d_same (x : list Q) :
  HSV.histogram_matching_1d x x = x.
Proof.
  unfold HSV.histogram_matching_1d.
  rewrite Nat.eqb_refl. apply scatter_same.
  intros i v Hin. apply (sort_indexed_entry x v i).
  now apply combine_swap_In.
Qed.

Lemma assign_masked_select (mask : list bool) :
  forall target : list Q,
    HSV.assign_masked mask target (HSV.select mask target) = target.
Proof.
  induction mask as [|[] mask IH]; intros [|t target]; try reflexivity;
    cbn [HSV.assign_masked HSV.select]; now rewrite IH.
Qed.

Lemma hue_match_same (hue saturation : list Q) :
  HSV.hue_conditional_saturation_match hue saturation hue saturation
  = saturation.
Proof.
  unfold HSV.hue_conditional_saturation_match.
  apply fold_left_fixed. intros bin_idx. unfold HSV.match_bin.
  destruct (HSV.bin_qualifies _ _); [|reflexivity].
  rewrite histogram_matching_1d_same. apply assign_masked_select.
Qed.

(** X21: The saturation comes back as it went in in three cases: for a content
    of at most 100 pixels and for a style of at most 100 pixels (no hue bin
    can hold the more than 100 pixels the match asks for on both sides), and
    for an image matched against itself, whatever its size (in every bin the
    saturations are matched against themselves and written back where they
    came from). *)
Theorem hue_match_no_change (content_h content_s style_h style_s : list Q) :
  (length content_s <= 100)%nat \/ (length style_s <= 100)%nat
  \/ (style_h = content_h /\ style_s = content_s) ->
  HSV.hue_conditional_saturation_match content_h content_s style_h style_s
  = content_s.
Proof.
  intros [H|[H|[-> ->]]].
  - apply hue_match_small. now left.
  - apply hue_match_small. now right.
  - apply hue_match_same.
Qed.

Lemma hue_match_no_change_witness :
  HSV.hue_conditional_saturation_match
    (Run.hues 100) (Run.saturations (9 # 10) 100)
    (Run.hues 200) (Run.saturations (1 # 10) 200)
  = Run.saturations (9 # 10) 100.
Proof.
  apply (hue_match_no_change
           (Run.hues 100) (Run.saturations (9 # 10) 100)
           (Run.hues 200) (Run.saturations (1 # 10) 200)).
  left. unfold Run.saturations. rewrite repeat_length. lia.
Defined.

(* ================================================================== *)
(** * The HSV conversions of one pixel *)

(** The greatest and the least of three channels, case by case. *)
Ltac max_min_facts r g b :=
  unfold Pixel.max3, Pixel.min3;
  destruct (Q.max_spec r g) as [[? ?]|[? ?]],
           (Q.max_spec (Qmax r g) b) as [[? ?]|[? ?]],
           (Q.min_spec r g) as [[? ?]|[? ?]],
           (Q.min_spec (Qmin r g) b) as [[? ?]|[? ?]];
  lra.

Section PixelConversions.

Local Open Scope Q_scope.

Lemma Qfloor_unique (x : Q) (n : Z) :
inject_Z n <= x -> x < inject_Z n + 1 -> Qfloor x = n.
Proof.
intros Hlo Hhi.
pose proof (Qfloor_le x) as Flo. pose proof (Qlt_floor x) as Fhi.
rewrite inject_Z_plus in Fhi. change (inject_Z 1) with 1 in Fhi.
assert (H1 : (Qfloor x < n + 1)%Z).
{ rewrite Zlt_Qlt, inject_Z_plus. change (inject_Z 1) with 1. lra. }
assert (H2 : (n < Qfloor x + 1)%Z).
{ rewrite Zlt_Qlt, inject_Z_plus. change (inject_Z 1) with 1. lra. }
lia.
Qed.

Lemma Qltb_true (a b : Q) : HSV.Qltb a b = true <-> a < b.
Proof.
unfold HSV.Qltb. rewrite negb_true_iff, <- not_true_iff_false, Qle_bool_iff.
split; [apply Qnot_le_lt|apply Qlt_not_le].
Qed.

Lemma Qltb_false (a b : Q) : HSV.Qltb a b = false <-> b <= a.
Proof.
unfold HSV.Qltb. rewrite negb_false_iff, Qle_bool_iff. reflexivity.
Qed.

(** The sector of a hue decides the channels. *)
Lemma hsv_to_rgb_at (h s v : Q) (n : Z) :
inject_Z n <= h * 6 -> h * 6 < inject_Z n + 1 -> (0 <= n < 6)%Z ->
Pixel.hsv_to_rgb (h, s, v)
= (let f := h * 6 - inject_Z n in
   let p := v * (1 - s) in
   let q := v * (1 - s * f) in
   let t := v * (1 - s * (1 - f)) in
   nth (Z.to_nat n)
       [(v, t, p); (q, v, p); (p, v, t); (p, q, v); (t, p, v); (v, p, q)]
       (0, 0, 0)).
Proof.
intros Hlo Hhi Hn. unfold Pixel.hsv_to_rgb.
rewrite (Qfloor_unique (h * 6) n Hlo Hhi).
rewrite (Z.mod_small n 6) by lia.
assert (Hcases : (n = 0 \/ n = 1 \/ n = 2 \/ n = 3 \/ n = 4 \/ n = 5)%Z) by lia.
destruct Hcases as [->|[->|[->|[->|[->| ->]]]]]; reflexivity.
Qed.


Lemma hsv_to_rgb_same (p q : Pixel.Triple) :
Pixel.same p q -> Pixel.same (Pixel.hsv_to_rgb p) (Pixel.hsv_to_rgb q).
Proof.
destruct p as [[h s] v], q as [[h' s'] v']. intros (Hh & Hs & Hv).
cbn [fst snd] in Hh, Hs, Hv.
assert (Hf : Qfloor (h * 6) = Qfloor (h' * 6)) by (now rewrite Hh).
unfold Pixel.hsv_to_rgb. rewrite <- Hf.
generalize (Qfloor (h * 6) mod 6)%Z (inject_Z (Qfloor (h * 6))).
intros i F.
repeat match goal with
       | |- context [(?a =? ?b)%Z] => destruct (a =? b)%Z
       end;
  unfold Pixel.same; cbn [fst snd]; rewrite ?Hh, ?Hs, ?Hv;
  repeat split; reflexivity.
Qed.

Lemma same_trans (p q r : Pixel.Triple) :
Pixel.same p q -> Pixel.same q r -> Pixel.same p r.
Proof.
unfold Pixel.same. intros (A1 & A2 & A3) (B1 & B2 & B3).
repeat split; etransitivity; eassumption.
Qed.

Lemma ratio_bounds (a d : Q) :
0 < d -> 0 <= a -> a <= d -> 0 <= a / d /\ a / d <= 1.
Proof.
intros Hd Ha Had. split.
- apply Qle_shift_div_l; [exact Hd|lra].
- apply Qle_shift_div_r; [exact Hd|lra].
Qed.

Lemma ratio_below_one (a d : Q) : 0 < d -> a < d -> a / d < 1.
Proof. intros Hd Had. apply Qlt_shift_div_r; [exact Hd|lra]. Qed.

Lemma ratio_negative (a d : Q) :
0 < d -> - d <= a -> a < 0 -> -1 <= a / d /\ a / d < 0.
Proof.
intros Hd Ha Ha0. split.
- apply Qle_shift_div_l; [exact Hd|lra].
- apply Qlt_shift_div_r; [exact Hd|lra].
Qed.


Lemma threshold_pos : 0 < Pixel.threshold.
Proof. reflexivity. Qed.

(** [rgb_to_hsv] on a pixel whose channels differ by more than the
  threshold: the last mask that holds decides the hue. *)
Lemma rgb_to_hsv_coloured (r g b : Q) :
Pixel.threshold < Pixel.max3 r g b - Pixel.min3 r g b ->
Pixel.rgb_to_hsv (r, g, b)
= ((if Qeq_bool (Pixel.max3 r g b) b
    then (r - g) / (Pixel.max3 r g b - Pixel.min3 r g b) + 4
    else if Qeq_bool (Pixel.max3 r g b) g
         then (b - r) / (Pixel.max3 r g b - Pixel.min3 r g b) + 2
         else if Qeq_bool (Pixel.max3 r g b) r
              then Pixel.mod6 ((g - b) / (Pixel.max3 r g b - Pixel.min3 r g b))
              else 0) / 6,
   (if HSV.Qltb Pixel.threshold (Pixel.max3 r g b)
    then (Pixel.max3 r g b - Pixel.min3 r g b)
         / Qmax (Pixel.max3 r g b) Pixel.threshold
    else 0),
   Pixel.max3 r g b).
Proof.
intros Hd. unfold Pixel.rgb_to_hsv. cbv zeta.
rewrite (proj2 (Qltb_true _ _) Hd).
destruct (Qeq_bool (Pixel.max3 r g b) b), (Qeq_bool (Pixel.max3 r g b) g),
  (Qeq_bool (Pixel.max3 r g b) r); reflexivity.
Qed.

(** The clean form of the conversion when the maximum is known. *)
Lemma saturation_value (M m : Q) :
0 <= m -> Pixel.threshold < M - m ->
(if HSV.Qltb Pixel.threshold M then (M - m) / Qmax M Pixel.threshold else 0)
== (M - m) / M.
Proof.
intros Hm Hd. pose proof threshold_pos.
rewrite (proj2 (Qltb_true _ _)) by lra.
rewrite Q.max_l by lra. reflexivity.
Qed.

Lemma div6_mul6 (x : Q) : x / 6 * 6 == x.
Proof. field. Qed.

(** The six sectors of [hsv_to_rgb_torch], for a hue written as a sector
  number and a position inside the sector. *)
Lemma hsv_to_rgb_sector (q d M : Q) (k : Z) :
0 <= q -> q < 1 -> 0 < M -> (0 <= k < 6)%Z ->
Pixel.same
  (Pixel.hsv_to_rgb ((q + inject_Z k) / 6, d / M, M))
  (nth (Z.to_nat k)
       [(M, M - d * (1 - q), M - d); (M - d * q, M, M - d);
        (M - d, M, M - d * (1 - q)); (M - d, M - d * q, M);
        (M - d * (1 - q), M - d, M); (M, M - d, M - d * q)]
       (0, 0, 0)).
Proof.
intros Hq0 Hq1 HM Hk.
rewrite (hsv_to_rgb_at _ _ _ k); [| | |exact Hk].
- cbv zeta.
  assert (Hcases : (k = 0 \/ k = 1 \/ k = 2 \/ k = 3 \/ k = 4 \/ k = 5)%Z)
    by lia.
  destruct Hcases as [->|[->|[->|[->|[->| ->]]]]];
    match goal with
    | |- context [Z.to_nat ?z] =>
        let n := eval compute in (Z.to_nat z) in
        change (Z.to_nat z) with n
    end;
    unfold Pixel.same; cbn [nth fst snd];
    match goal with
    | |- context [inject_Z ?z] =>
        let c := eval compute in (inject_Z z) in
        change (inject_Z z) with c
    end;
    (split; [|split]); field; intros E; lra.
- rewrite div6_mul6. lra.
- rewrite div6_mul6. lra.
Qed.

Lemma mod6_inside (x : Q) : 0 <= x -> x < 1 -> Pixel.mod6 x == x.
Proof.
intros H0 H1. unfold Pixel.mod6.
rewrite (Qfloor_unique (x / 6) 0).
- change (inject_Z 0) with 0. ring.
- change (inject_Z 0) with 0. apply Qle_shift_div_l; lra.
- change (inject_Z 0) with 0. apply Qlt_shift_div_r; lra.
Qed.

Lemma mod6_below (x : Q) : -1 <= x -> x < 0 -> Pixel.mod6 x == x + 6.
Proof.
intros H0 H1. unfold Pixel.mod6.
rewrite (Qfloor_unique (x / 6) (-1)).
- change (inject_Z (-1)) with (-1). ring.
- change (inject_Z (-1)) with (-1). apply Qle_shift_div_l; lra.
- change (inject_Z (-1)) with (-1). apply Qlt_shift_div_r; lra.
Qed.


Lemma ratio_range (a d lo hi : Q) :
0 < d -> lo * d <= a -> a < hi * d -> lo <= a / d /\ a / d < hi.
Proof.
intros Hd Hlo Hhi. split.
- apply Qle_shift_div_l; assumption.
- apply Qlt_shift_div_r; assumption.
Qed.

(** One leaf of the case analysis: the greatest channel is [X], the least
  is [Y], the hue is [a / d + c] sixths. *)
Ltac sector_leaf r g b X Y a lo hi q k :=
let M := constr:(Pixel.max3 r g b) in
let m := constr:(Pixel.min3 r g b) in
let HM := fresh "HM" in
let Hm := fresh "Hm" in
let Hq := fresh "Hq" in
assert (HM : M == X) by max_min_facts r g b;
assert (Hm : m == Y) by max_min_facts r g b;
pose proof (ratio_range a (M - m) lo hi
                        ltac:(lra) ltac:(lra) ltac:(lra)) as Hq;
exists q, k;
split; [lra|]; split; [lra|]; split; [lia|]; split;
[ unfold Pixel.same; cbn [fst snd];
  split; [|split; [assumption|reflexivity]];
  repeat match goal with
         | |- context [Qeq_bool ?x ?y] =>
             let E := fresh "E" in
             destruct (Qeq_bool x y) eqn:E;
             [apply Qeq_bool_eq in E|apply Qeq_bool_neq in E];
             try (exfalso; lra); try (exfalso; apply E; lra)
         end
| match goal with
  | |- context [Z.to_nat ?z] =>
      let n := eval compute in (Z.to_nat z) in
      change (Z.to_nat z) with n
  end;
  cbv zeta; unfold Pixel.same; cbn [nth fst snd];
  rewrite HM, Hm; (split; [|split]); field; intros ?E; lra ].

(** A pixel whose channels differ by more than the threshold lies in one
  of the six sectors, and the channels that sector gives back are its
  own. *)
Lemma rgb_to_hsv_sector (r g b : Q) :
0 <= r -> 0 <= g -> 0 <= b ->
Pixel.threshold < Pixel.max3 r g b - Pixel.min3 r g b ->
exists (q : Q) (k : Z),
  0 <= q /\ q < 1 /\ (0 <= k < 6)%Z
  /\ Pixel.same (Pixel.rgb_to_hsv (r, g, b))
                ((q + inject_Z k) / 6,
                 (Pixel.max3 r g b - Pixel.min3 r g b) / Pixel.max3 r g b,
                 Pixel.max3 r g b)
  /\ Pixel.same
       (nth (Z.to_nat k)
            (let M := Pixel.max3 r g b in
             let d := Pixel.max3 r g b - Pixel.min3 r g b in
             [(M, M - d * (1 - q), M - d); (M - d * q, M, M - d);
              (M - d, M, M - d * (1 - q)); (M - d, M - d * q, M);
              (M - d * (1 - q), M - d, M); (M, M - d, M - d * q)])
            (0, 0, 0))
       (r, g, b).
Proof.
intros Hr Hg Hb Hd. pose proof threshold_pos as Ht.
rewrite (rgb_to_hsv_coloured r g b Hd).
assert (Hm0 : 0 <= Pixel.min3 r g b) by max_min_facts r g b.
pose proof (saturation_value _ _ Hm0 Hd) as Hs.
destruct (Qlt_le_dec b g) as [Hbg|Hgb].
- destruct (Qlt_le_dec g r) as [Hgr|Hrg].
  + (* b < g < r: red sector, towards green *)
    sector_leaf r g b r b (g - b) 0 1
                ((g - b) / (Pixel.max3 r g b - Pixel.min3 r g b)) 0%Z.
    rewrite mod6_inside by lra. change (inject_Z 0) with 0.
    field. intros E2. lra.
  + destruct (Qlt_le_dec b r) as [Hbr|Hrb].
    * (* b < r <= g: green sector, towards red *)
      sector_leaf r g b g b (b - r) (-1) 0
                  ((b - r) / (Pixel.max3 r g b - Pixel.min3 r g b) + 1) 1%Z.
      change (inject_Z 1) with 1. field. intros E2. lra.
    * (* r <= b < g: green sector, towards blue *)
      sector_leaf r g b g r (b - r) 0 1
                  ((b - r) / (Pixel.max3 r g b - Pixel.min3 r g b)) 2%Z.
      change (inject_Z 2) with 2. field. intros E2. lra.
- destruct (Qlt_le_dec b r) as [Hbr|Hrb].
  + destruct (Qlt_le_dec g b) as [Hgb'|Hbg].
    * (* g < b < r: red sector, towards blue *)
      sector_leaf r g b r g (g - b) (-1) 0
                  ((g - b) / (Pixel.max3 r g b - Pixel.min3 r g b) + 1) 5%Z.
      rewrite mod6_below by lra. change (inject_Z 5) with 5.
      field. intros E2. lra.
    * (* g = b < r: pure red *)
      sector_leaf r g b r b (g - b) 0 1
                  ((g - b) / (Pixel.max3 r g b - Pixel.min3 r g b)) 0%Z.
      rewrite mod6_inside by lra. change (inject_Z 0) with 0.
      field. intros E2. lra.
  + destruct (Qlt_le_dec r g) as [Hrg|Hgr].
    * (* r < g <= b: blue sector, towards green *)
      sector_leaf r g b b r (r - g) (-1) 0
                  ((r - g) / (Pixel.max3 r g b - Pixel.min3 r g b) + 1) 3%Z.
      change (inject_Z 3) with 3. field. intros E2. lra.
    * destruct (Qlt_le_dec r b) as [Hrb'|Hbr].
      -- (* g <= r < b: blue sector, towards red *)
         sector_leaf r g b b g (r - g) 0 1
                     ((r - g) / (Pixel.max3 r g b - Pixel.min3 r g b)) 4%Z.
         change (inject_Z 4) with 4. field. intros E2. lra.
      -- (* g <= r = b: blue and red are both the greatest *)
         assert (HM : Pixel.max3 r g b == b) by max_min_facts r g b.
         assert (Hm : Pixel.min3 r g b == g) by max_min_facts r g b.
         assert (Erb : r == b) by lra.
         exists 0, 5%Z. split; [lra|]. split; [lra|]. split; [lia|]. split.
         ++ unfold Pixel.same. cbn [fst snd].
            split; [|split; [assumption|reflexivity]].
            rewrite (Qeq_eq_bool _ _ HM). change (inject_Z 5) with 5.
            rewrite HM, Hm, Erb. field. intros E2. lra.
         ++ change (Z.to_nat 5) with 5%nat. cbv zeta.
            unfold Pixel.same. cbn [nth fst snd].
            rewrite HM, Hm, Erb. split; [|split]; ring.
Qed.

Lemma rgb_hsv_id (r g b : Q) :
0 <= r -> 0 <= g -> 0 <= b ->
Pixel.max3 r g b - Pixel.min3 r g b == 0
\/ Pixel.threshold < Pixel.max3 r g b - Pixel.min3 r g b ->
Pixel.same (Pixel.hsv_to_rgb (Pixel.rgb_to_hsv (r, g, b))) (r, g, b).
Proof.
intros Hr Hg Hb [Hgrey|Hd]; pose proof threshold_pos as Ht.
- assert (HM : Pixel.max3 r g b == r /\ g == r /\ b == r).
  { revert Hgrey. max_min_facts r g b. }
  destruct HM as (HM & Egr & Ebr).
  apply (same_trans _ (Pixel.hsv_to_rgb (0, 0, r))).
  + apply hsv_to_rgb_same.
    unfold Pixel.rgb_to_hsv. cbv zeta.
    rewrite (proj2 (Qltb_false Pixel.threshold
                      (Pixel.max3 r g b - Pixel.min3 r g b))) by lra.
    rewrite !andb_false_r.
    unfold Pixel.same. cbn [fst snd]. split; [reflexivity|].
    split; [|exact HM].
    destruct (HSV.Qltb Pixel.threshold (Pixel.max3 r g b));
      [|reflexivity].
    rewrite Hgrey. unfold Qdiv. ring.
  + rewrite (hsv_to_rgb_at _ _ _ 0); [|discriminate|reflexivity|lia].
    cbv zeta. change (Z.to_nat 0) with 0%nat.
    unfold Pixel.same. cbn [nth fst snd]. change (inject_Z 0) with 0.
    rewrite Egr, Ebr. split; [|split]; ring.
- destruct (rgb_to_hsv_sector r g b Hr Hg Hb Hd)
    as (q & k & Hq0 & Hq1 & Hk & Hclean & Hback).
  assert (Hm0 : 0 <= Pixel.min3 r g b) by max_min_facts r g b.
  eapply same_trans; [apply hsv_to_rgb_same; exact Hclean|].
  eapply same_trans; [|exact Hback].
  apply hsv_to_rgb_sector; try assumption. lra.
Qed.

(** X22: Converting a pixel with non-negative channels to HSV and back gives the
  pixel again, when it is grey or when its channels differ by more than
  the threshold [1e-10] below which the conversion treats a pixel as
  grey. *)
Theorem rgb_hsv_round_trip (r g b : Q) :
0 <= r -> 0 <= g -> 0 <= b ->
Pixel.max3 r g b - Pixel.min3 r g b == 0
\/ Pixel.threshold < Pixel.max3 r g b - Pixel.min3 r g b ->
Pixel.same (Pixel.hsv_to_rgb (Pixel.rgb_to_hsv (r, g, b))) (r, g, b).
Proof. exact (rgb_hsv_id r g b). Qed.

End PixelConversions.

Lemma rgb_hsv_round_trip_witness :
  Pixel.same (Pixel.hsv_to_rgb (Pixel.rgb_to_hsv (1 # 5, 4 # 5, 1 # 2)))
             (1 # 5, 4 # 5, 1 # 2)%Q.
Proof.
  apply (rgb_hsv_round_trip (1 # 5) (4 # 5) (1 # 2)).
  - discriminate.
  - discriminate.
  - discriminate.
  - right. reflexivity.
Defined.

(* ================================================================== *)
(** * [hsv_saturation_histogram_match] on small images and on an image
      against itself; the range of the conversion *)

Section SaturationMatch.

Local Open Scope Q_scope.

Lemma clamp01_inside (x : Q) : 0 <= x -> x <= 1 -> Pixel.clamp01 x == x.
Proof.
intros H0 H1. unfold Pixel.clamp01.
rewrite (Q.max_l x 0) by exact H0. now rewrite Q.min_l.
Qed.

Lemma clamp01_range (x : Q) : 0 <= Pixel.clamp01 x /\ Pixel.clamp01 x <= 1.
Proof.
unfold Pixel.clamp01.
destruct (Q.max_spec x 0) as [[? E]|[? E]],
         (Q.min_spec (Qmax x 0) 1) as [[? E']|[? E']]; lra.
Qed.

Lemma clamp01_same (x y : Q) : x == y -> Pixel.clamp01 x == Pixel.clamp01 y.
Proof. intros E. unfold Pixel.clamp01. now rewrite E. Qed.

Lemma to_unit_back (x : Q) :
-1 <= x -> x <= 1 -> Pixel.to_unit x * 2 - 1 == x.
Proof.
intros H0 H1. unfold Pixel.to_unit.
rewrite clamp01_inside by lra. ring.
Qed.

Lemma zip_channels (l : list Pixel.Triple) :
zip_with (fun (hs : Q * Q) (v : Q) => (fst hs, snd hs, v))
         (zip_with pair (map Pixel.hue l) (map Pixel.saturation l))
         (map Pixel.value l)
= l.
Proof.
induction l as [|[[h s] v] l IH]; [reflexivity|].
cbn [map zip_with]. rewrite IH. reflexivity.
Qed.

(** The last steps of the function on one pixel whose saturation was not
  changed. *)
Lemma unchanged_pixel (x y z : Q) :
-1 <= x <= 1 -> -1 <= y <= 1 -> -1 <= z <= 1 ->
(let '(r, g, b) := Pixel.map3 Pixel.to_unit (x, y, z) in
 Pixel.max3 r g b - Pixel.min3 r g b == 0
 \/ Pixel.threshold < Pixel.max3 r g b - Pixel.min3 r g b) ->
Pixel.same
  (Pixel.map3 (fun c => c * 2 - 1)
     (Pixel.map3 Pixel.clamp01
        (Pixel.hsv_to_rgb
           (Pixel.rgb_to_hsv (Pixel.map3 Pixel.to_unit (x, y, z))))))
  (x, y, z).
Proof.
intros Hx Hy Hz Hcol. cbn [Pixel.map3] in *.
destruct (clamp01_range ((x + 1) * (1 # 2))) as [Hr0 Hr1].
destruct (clamp01_range ((y + 1) * (1 # 2))) as [Hg0 Hg1].
destruct (clamp01_range ((z + 1) * (1 # 2))) as [Hb0 Hb1].
fold (Pixel.to_unit x) in *. fold (Pixel.to_unit y) in *.
fold (Pixel.to_unit z) in *.
pose proof (rgb_hsv_id _ _ _ Hr0 Hg0 Hb0 Hcol) as Hid.
destruct (Pixel.hsv_to_rgb _) as [[r' g'] b'].
destruct Hid as (Er & Eg & Eb). cbn [fst snd] in Er, Eg, Eb.
unfold Pixel.same. cbn [Pixel.map3 fst snd].
rewrite (clamp01_same _ _ Er), (clamp01_same _ _ Eg), (clamp01_same _ _ Eb).
rewrite !clamp01_inside by assumption.
split; [|split]; apply to_unit_back; lra.
Qed.

(** X23: An image of at most 100 pixels, an image corrected against a style of
  at most 100 pixels, and an image corrected against itself come back
  from the HSV correction as they went in: every pixel with channels in
  [-1, 1] that is grey or coloured beyond the threshold of the conversion
  is returned with its own channels. *)
Theorem hsv_match_returns_image (content_feat style_feat : list Pixel.Triple) :
(length content_feat <= 100)%nat \/ (length style_feat <= 100)%nat
\/ style_feat = content_feat ->
Forall (fun p : Pixel.Triple =>
          let '(x, y, z) := p in
          (-1 <= x <= 1 /\ -1 <= y <= 1 /\ -1 <= z <= 1)
          /\ (let '(r, g, b) := Pixel.map3 Pixel.to_unit p in
              Pixel.max3 r g b - Pixel.min3 r g b == 0
              \/ Pixel.threshold < Pixel.max3 r g b - Pixel.min3 r g b))
       content_feat ->
Forall2 Pixel.same
        (Pixel.hsv_saturation_histogram_match content_feat style_feat)
        content_feat.
Proof.
intros Hcase Hpix. unfold Pixel.hsv_saturation_histogram_match.
assert (Hs : HSV.hue_conditional_saturation_match
               (map Pixel.hue (map Pixel.rgb_to_hsv
                                   (map (Pixel.map3 Pixel.to_unit) content_feat)))
               (map Pixel.saturation
                    (map Pixel.rgb_to_hsv
                         (map (Pixel.map3 Pixel.to_unit) content_feat)))
               (map Pixel.hue (map Pixel.rgb_to_hsv
                                   (map (Pixel.map3 Pixel.to_unit) style_feat)))
               (map Pixel.saturation
                    (map Pixel.rgb_to_hsv
                         (map (Pixel.map3 Pixel.to_unit) style_feat)))
             = map Pixel.saturation
                   (map Pixel.rgb_to_hsv
                        (map (Pixel.map3 Pixel.to_unit) content_feat))).
{ destruct Hcase as [H|[H| ->]].
  - apply hue_match_small. left. now rewrite !length_map.
  - apply hue_match_small. right. now rewrite !length_map.
  - apply hue_match_same. }
rewrite Hs, zip_channels. clear Hs Hcase.
induction Hpix as [|[[x y] z] l ((Hx & Hy & Hz) & Hcol) _ IH];
  [constructor|].
cbn [map]. constructor; [|exact IH].
now apply unchanged_pixel.
Qed.

Lemma hsv_match_returns_image_witness :
Forall2 Pixel.same
        (Pixel.hsv_saturation_histogram_match
           [(1 # 5, - (1 # 2), 0); (0, 0, 0)] [(1, 1, 1)])
        [(1 # 5, - (1 # 2), 0); (0, 0, 0)].
Proof.
apply (hsv_match_returns_image [(1 # 5, - (1 # 2), 0); (0, 0, 0)] [(1, 1, 1)]).
- left. simpl. lia.
- constructor; [|constructor; [|constructor]].
  + split; [repeat split; discriminate|right; reflexivity].
  + split; [repeat split; discriminate|left; reflexivity].
Defined.

(** X24: The HSV conversion of a pixel with channels in [0, 1] gives a hue in
  [0, 1) (the upper end is never reached), a saturation in [0, 1] and the
  greatest channel as the value. *)
Theorem rgb_to_hsv_range (r g b : Q) :
0 <= r <= 1 -> 0 <= g <= 1 -> 0 <= b <= 1 ->
let hsv := Pixel.rgb_to_hsv (r, g, b) in
(0 <= Pixel.hue hsv /\ Pixel.hue hsv < 1)
/\ (0 <= Pixel.saturation hsv /\ Pixel.saturation hsv <= 1)
/\ Pixel.value hsv = Pixel.max3 r g b
/\ (0 <= Pixel.value hsv /\ Pixel.value hsv <= 1).
Proof.
intros Hr Hg Hb hsv. pose proof threshold_pos as Ht.
subst hsv. unfold Pixel.hue, Pixel.saturation, Pixel.value.
assert (HM : Pixel.min3 r g b <= Pixel.max3 r g b
             /\ 0 <= Pixel.min3 r g b /\ Pixel.max3 r g b <= 1).
{ max_min_facts r g b. }
destruct HM as (Hmm & Hm0 & HM1).
assert (Hv : snd (Pixel.rgb_to_hsv (r, g, b)) = Pixel.max3 r g b)
  by reflexivity.
destruct (Qlt_le_dec Pixel.threshold (Pixel.max3 r g b - Pixel.min3 r g b))
  as [Hd|Hd].
- destruct (rgb_to_hsv_sector r g b) as (q & k & Hq0 & Hq1 & Hk & Hclean & _);
    try lra.
  destruct Hclean as (Eh & Es & _). cbn [fst snd] in Eh, Es.
  assert (Hk0 : 0 <= inject_Z k).
  { change 0 with (inject_Z 0). rewrite <- Zle_Qle. lia. }
  assert (Hk5 : inject_Z k <= 5).
  { change 5 with (inject_Z 5). rewrite <- Zle_Qle. lia. }
  rewrite Eh, Es, Hv.
  split; [split|split; [split|split; [reflexivity|lra]]].
  + apply Qle_shift_div_l; lra.
  + apply Qlt_shift_div_r; lra.
  + apply Qle_shift_div_l; lra.
  + apply Qle_shift_div_r; lra.
- assert (Eh : fst (fst (Pixel.rgb_to_hsv (r, g, b))) = 0 / 6).
  { unfold Pixel.rgb_to_hsv. cbv zeta.
    rewrite (proj2 (Qltb_false _ _) Hd), !andb_false_r. reflexivity. }
  assert (Es : snd (fst (Pixel.rgb_to_hsv (r, g, b)))
               = if HSV.Qltb Pixel.threshold (Pixel.max3 r g b)
                 then (Pixel.max3 r g b - Pixel.min3 r g b)
                      / Qmax (Pixel.max3 r g b) Pixel.threshold
                 else 0) by reflexivity.
  rewrite Eh, Es, Hv.
  split; [split; [discriminate|reflexivity]|].
  split; [|split; [reflexivity|lra]].
  destruct (HSV.Qltb Pixel.threshold (Pixel.max3 r g b)) eqn:E;
    [|split; discriminate].
  apply Qltb_true in E. rewrite Q.max_l by lra. split.
  + apply Qle_shift_div_l; lra.
  + apply Qle_shift_div_r; lra.
Qed.

End SaturationMatch.

Lemma rgb_to_hsv_range_witness :
  (let hsv := Pixel.rgb_to_hsv (1, 0, 1 # 100) in
   (0 <= Pixel.hue hsv /\ Pixel.hue hsv < 1)
   /\ (0 <= Pixel.saturation hsv /\ Pixel.saturation hsv <= 1)
   /\ Pixel.value hsv = Pixel.max3 1 0 (1 # 100)
   /\ (0 <= Pixel.value hsv /\ Pixel.value hsv <= 1))%Q.
Proof.
  apply (rgb_to_hsv_range 1 0 (1 # 100)); split; discriminate.
Defined.

(* ================================================================== *)
(** * Wavelet colour transfer: ranges, shapes and the content's offset *)

Section WaveletRanges.

Import Wavelet.
Local Open Scope Q_scope.

(** The nine taps of the blur, written out. *)
Lemma wavelet_blur_taps (image : Tensor) (radius : Z) (b c y x : Z) :
exists rad : Z,
  data (wavelet_blur image radius) b c y x
  == (1 # 16) * padded image rad b c y x
     + (1 # 8) * padded image rad b c y (x + rad)
     + (1 # 16) * padded image rad b c y (x + 2 * rad)
     + (1 # 8) * padded image rad b c (y + rad) x
     + (1 # 4) * padded image rad b c (y + rad) (x + rad)
     + (1 # 8) * padded image rad b c (y + rad) (x + 2 * rad)
     + (1 # 16) * padded image rad b c (y + 2 * rad) x
     + (1 # 8) * padded image rad b c (y + 2 * rad) (x + rad)
     + (1 # 16) * padded image rad b c (y + 2 * rad) (x + 2 * rad)
  /\ forall image' : Tensor,
       shape image' = shape image ->
       data (wavelet_blur image' radius) b c y x
       == (1 # 16) * padded image' rad b c y x
          + (1 # 8) * padded image' rad b c y (x + rad)
          + (1 # 16) * padded image' rad b c y (x + 2 * rad)
          + (1 # 8) * padded image' rad b c (y + rad) x
          + (1 # 4) * padded image' rad b c (y + rad) (x + rad)
          + (1 # 8) * padded image' rad b c (y + rad) (x + 2 * rad)
          + (1 # 16) * padded image' rad b c (y + 2 * rad) x
          + (1 # 8) * padded image' rad b c (y + 2 * rad) (x + rad)
          + (1 # 16) * padded image' rad b c (y + 2 * rad) (x + 2 * rad).
Proof.
unfold wavelet_blur.
set (rad := if (radius >? Z.max 1 (Z.min (height image) (width image) / 8))%Z
            then Z.max 1 (Z.min (height image) (width image) / 8)
            else radius).
exists rad. split.
- cbn [data map fold_right kernel kernel_vals nth].
  change (Z.of_nat 0) with 0%Z. change (Z.of_nat 1) with 1%Z.
  change (Z.of_nat 2) with 2%Z.
  rewrite !Z.mul_0_l, !Z.mul_1_l, !Z.add_0_r. ring.
- intros image' Hshape.
  assert (Hrad : (if (radius >? Z.max 1 (Z.min (height image') (width image') / 8))%Z
                  then Z.max 1 (Z.min (height image') (width image') / 8)
                  else radius) = rad).
  { unfold height, width. rewrite Hshape. reflexivity. }
  rewrite Hrad.
  cbn [data map fold_right kernel kernel_vals nth].
  change (Z.of_nat 0) with 0%Z. change (Z.of_nat 1) with 1%Z.
  change (Z.of_nat 2) with 2%Z.
  rewrite !Z.mul_0_l, !Z.mul_1_l, !Z.add_0_r. ring.
Qed.


(** Replicate padding reads inside the image. *)
Lemma padded_inside (image : Tensor) (rad b c u v : Z) (lo hi : Q) :
(1 <= height image)%Z -> (1 <= width image)%Z ->
(forall y x, (0 <= y < height image)%Z -> (0 <= x < width image)%Z ->
             lo <= data image b c y x /\ data image b c y x <= hi) ->
lo <= padded image rad b c u v /\ padded image rad b c u v <= hi.
Proof.
intros Hh Hw Hin. unfold padded. apply Hin; lia.
Qed.

(** The blur is a weighted mean of values of the image. *)
Lemma wavelet_blur_between (image : Tensor) (radius b c : Z) (lo hi : Q) :
(1 <= height image)%Z -> (1 <= width image)%Z ->
(forall y x, (0 <= y < height image)%Z -> (0 <= x < width image)%Z ->
             lo <= data image b c y x /\ data image b c y x <= hi) ->
forall y x,
  lo <= data (wavelet_blur image radius) b c y x
  /\ data (wavelet_blur image radius) b c y x <= hi.
Proof.
intros Hh Hw Hin y x.
destruct (wavelet_blur_taps image radius b c y x) as (rad & -> & _).
pose proof (fun u v => padded_inside image rad b c u v lo hi Hh Hw Hin) as P.
pose proof (P y x). pose proof (P y (x + rad)%Z).
pose proof (P y (x + 2 * rad)%Z). pose proof (P (y + rad)%Z x).
pose proof (P (y + rad)%Z (x + rad)%Z).
pose proof (P (y + rad)%Z (x + 2 * rad)%Z).
pose proof (P (y + 2 * rad)%Z x). pose proof (P (y + 2 * rad)%Z (x + rad)%Z).
pose proof (P (y + 2 * rad)%Z (x + 2 * rad)%Z).
lra.
Qed.

Lemma wavelet_blur_shape (image : Tensor) (radius : Z) :
shape (wavelet_blur image radius) = shape image.
Proof. reflexivity. Qed.

(** The low-frequency output of the loop stays between the bounds of the
  image it starts from. *)
Lemma decomposition_loop_low_between (b c : Z) (lo hi : Q) (levels : nat) :
forall (i : Z) (image high_freq : Tensor) (low_freq : option Tensor),
  (1 <= height image)%Z -> (1 <= width image)%Z ->
  (forall y x, (0 <= y < height image)%Z -> (0 <= x < width image)%Z ->
               lo <= data image b c y x /\ data image b c y x <= hi) ->
  exists low,
    snd (decomposition_loop (S levels) i image high_freq low_freq) = Some low
    /\ forall y x, lo <= data low b c y x /\ data low b c y x <= hi.
Proof.
induction levels as [|levels IH]; intros i image high_freq low_freq Hh Hw Hin.
- exists (wavelet_blur image (2 ^ i)). split; [reflexivity|].
  now apply wavelet_blur_between.
- change (decomposition_loop (S (S levels)) i image high_freq low_freq)
    with (decomposition_loop (S levels) (i + 1)%Z
            (wavelet_blur image (2 ^ i))
            (iadd high_freq (sub image (wavelet_blur image (2 ^ i))))
            (Some (wavelet_blur image (2 ^ i)))).
  apply IH; try assumption.
  intros y x _ _. now apply wavelet_blur_between.
Qed.

(** X25: For an image whose values in one plane lie between [lo] and [hi], the
  low-frequency component of the decomposition lies between [lo] and
  [hi] everywhere, and the high-frequency component is bounded by the
  spread [hi - lo]: the blur is a weighted mean with replicate padding. *)
Theorem wavelet_decomposition_ranges (image : Tensor) (levels : nat)
      (b c : Z) (lo hi : Q) :
(1 <= height image)%Z -> (1 <= width image)%Z ->
(forall y x, (0 <= y < height image)%Z -> (0 <= x < width image)%Z ->
             lo <= data image b c y x /\ data image b c y x <= hi) ->
exists high_freq low_freq,
  wavelet_decomposition image (S levels) = Some (high_freq, low_freq)
  /\ (forall y x, lo <= data low_freq b c y x /\ data low_freq b c y x <= hi)
  /\ (forall y x, (0 <= y < height image)%Z -> (0 <= x < width image)%Z ->
                  lo - hi <= data high_freq b c y x
                  /\ data high_freq b c y x <= hi - lo).
Proof.
intros Hh Hw Hin.
destruct (wavelet_decomposition_sum image levels)
  as (high & low & Hd & _ & _ & Hsum).
destruct (decomposition_loop_low_between b c lo hi levels 0%Z image
            (zeros_like image) None Hh Hw Hin) as (low' & Hlow & Hrange).
assert (low' = low).
{ unfold wavelet_decomposition in Hd.
  destruct (decomposition_loop (S levels) 0 image (zeros_like image) None)
    as [h o]. cbn [snd] in Hlow. subst o. congruence. }
subst low'. exists high, low. split; [exact Hd|]. split; [exact Hrange|].
intros y x Hy Hx. specialize (Hsum b c y x).
specialize (Hin y x Hy Hx). specialize (Hrange y x). lra.
Qed.

Lemma wavelet_decomposition_ranges_witness :
exists high_freq low_freq,
  wavelet_decomposition Run.small_tensor 5 = Some (high_freq, low_freq)
  /\ (forall y x, - (3 # 4) <= data low_freq 0 0 y x
                  /\ data low_freq 0 0 y x <= 1 # 2)
  /\ (forall y x, (0 <= y < height Run.small_tensor)%Z ->
                  (0 <= x < width Run.small_tensor)%Z ->
                  - (3 # 4) - (1 # 2) <= data high_freq 0 0 y x
                  /\ data high_freq 0 0 y x <= (1 # 2) - - (3 # 4)).
Proof.
apply (wavelet_decomposition_ranges Run.small_tensor 4 0 0 (- (3 # 4)) (1 # 2)).
- vm_compute. discriminate.
- vm_compute. discriminate.
- intros y x _ _. unfold Run.small_tensor. cbn [data].
  destruct (y =? x)%Z; split; discriminate.
Defined.

Lemma clamp_range (q : Q) : -1 <= Qmin (Qmax q (-1)) 1 /\ Qmin (Qmax q (-1)) 1 <= 1.
Proof.
destruct (Q.max_spec q (-1)) as [[? E]|[? E]],
         (Q.min_spec (Qmax q (-1)) 1) as [[? E']|[? E']]; lra.
Qed.

Lemma shape_eqb_eq (s1 s2 : Z * Z * Z * Z) : shape_eqb s1 s2 = true -> s1 = s2.
Proof.
destruct s1 as [[[b1 c1] h1] w1], s2 as [[[b2 c2] h2] w2]. cbn.
rewrite !andb_true_iff, !Z.eqb_eq. intros [[[-> ->] ->] ->]. reflexivity.
Qed.

Lemma shape_components (t : Tensor) :
shape t = (batch t, channels t, height t, width t).
Proof.
unfold batch, channels, height, width.
now destruct (shape t) as [[[? ?] ?] ?].
Qed.

(** A style that is resized when its shape differs from the reference's
  has the reference's height and width and its own frame and channel
  counts, for a resize that keeps the two leading dimensions. *)
Lemma conditional_resize_shape
    (safe_interpolate_operation : Tensor -> Z * Z -> Tensor)
    (ref t : Tensor) :
(forall t size,
    shape (safe_interpolate_operation t size)
    = (batch t, channels t, fst size, snd size)) ->
shape (if negb (shape_eqb (shape ref) (shape t))
       then safe_interpolate_operation t (height ref, width ref)
       else t)
= (batch t, channels t, height ref, width ref).
Proof.
intros Hres.
destruct (shape_eqb (shape ref) (shape t)) eqn:E; cbn [negb].
- apply shape_eqb_eq in E. unfold batch, channels, height, width.
  rewrite E. now destruct (shape t) as [[[? ?] ?] ?].
- rewrite Hres. reflexivity.
Qed.

(** X26: For a resize operator that keeps the frame and channel counts, the
  wavelet reconstruction succeeds exactly when the frame counts and the
  channel counts of the content and of the style can be broadcast (they
  agree, or one of them is 1); it raises otherwise, as for a trimmed
  sample against the padded video of its batch.  When it succeeds, the
  result has the broadcast frame and channel counts and the height and
  width of the content, and all its values lie in [-1, 1]. *)
Theorem wavelet_reconstruction_range
      (safe_interpolate_operation : Tensor -> Z * Z -> Tensor)
      (content_feat style_feat : Tensor) :
(forall t size,
    shape (safe_interpolate_operation t size)
    = (batch t, channels t, fst size, snd size)) ->
match broadcast_dim (batch content_feat) (batch style_feat),
      broadcast_dim (channels content_feat) (channels style_feat) with
| Some frames, Some planes =>
    exists result,
      wavelet_reconstruction safe_interpolate_operation content_feat
                             style_feat
      = Some result
      /\ shape result
         = (frames, planes, height content_feat, width content_feat)
      /\ forall b c y x,
           -1 <= data result b c y x /\ data result b c y x <= 1
| _, _ =>
    wavelet_reconstruction safe_interpolate_operation content_feat style_feat
    = None
end.
Proof.
intros Hres. unfold wavelet_reconstruction.
pose proof (conditional_resize_shape _ content_feat style_feat Hres) as Hst.
set (style := if negb (shape_eqb (shape content_feat) (shape style_feat))
              then safe_interpolate_operation
                     style_feat (height content_feat, width content_feat)
              else style_feat) in *.
destruct (wavelet_decomposition_sum content_feat 4)
  as (ch & cl & -> & Hch & _ & _).
destruct (wavelet_decomposition_sum style 4) as (sh & sl & -> & _ & Hsl & _).
pose proof (conditional_resize_shape _ ch sl Hres) as Hsl'.
set (sl' := if negb (shape_eqb (shape ch) (shape sl))
            then safe_interpolate_operation sl (height ch, width ch)
            else sl) in *.
assert (Hb : batch sl = batch style_feat).
{ unfold batch at 1. rewrite Hsl, Hst. reflexivity. }
assert (Hc : channels sl = channels style_feat).
{ unfold channels at 1. rewrite Hsl, Hst. reflexivity. }
assert (Hh : height ch = height content_feat).
{ unfold height. now rewrite Hch. }
assert (Hw : width ch = width content_feat).
{ unfold width. now rewrite Hch. }
rewrite Hb, Hc, Hh, Hw in Hsl'.
rewrite (shape_components content_feat) in Hch.
unfold add. rewrite Hsl', Hch.
cbn [broadcast_shapes]. rewrite !broadcast_dim_same.
destruct (broadcast_dim (batch content_feat) (batch style_feat))
  as [frames|]; [|reflexivity].
destruct (broadcast_dim (channels content_feat) (channels style_feat))
  as [planes|]; [|reflexivity].
eexists. split; [reflexivity|]. split; [reflexivity|].
intros b c y x. cbn [clamp data]. apply clamp_range.
Qed.

Lemma wavelet_reconstruction_range_witness :
exists result,
  wavelet_reconstruction Run.resize Run.small_tensor Run.small_tensor
  = Some result
  /\ shape result = (1, 1, 2, 2)%Z
  /\ forall b c y x, -1 <= data result b c y x /\ data result b c y x <= 1.
Proof.
apply (wavelet_reconstruction_range Run.resize Run.small_tensor
                                    Run.small_tensor).
intros t size. unfold Run.resize, batch, channels.
now destruct (shape t) as [[[? ?] ?] ?].
Defined.

(** A sample of two frames against a stored video of five: the sum of the
  content's high frequencies and the style's low frequencies cannot be
  broadcast. *)
Example wavelet_reconstruction_frame_mismatch :
wavelet_reconstruction
  Run.resize
  (mkTensor (2, 3, 2, 2)%Z (data Run.small_tensor))
  (mkTensor (5, 3, 2, 2)%Z (data Run.small_tensor))
= None.
Proof. reflexivity. Qed.


Lemma padded_offset (image image' : Tensor) (k : Q) (rad b c u v : Z) :
shape image' = shape image ->
(forall b c y x, data image' b c y x == data image b c y x + k) ->
padded image' rad b c u v == padded image rad b c u v + k.
Proof.
intros Hshape Hk. unfold padded, height, width. rewrite Hshape. apply Hk.
Qed.

(** The blur of an image shifted by a constant is the blur shifted by the
  constant: the weights add up to one. *)
Lemma wavelet_blur_offset (image image' : Tensor) (k : Q) (radius : Z) :
shape image' = shape image ->
(forall b c y x, data image' b c y x == data image b c y x + k) ->
forall b c y x,
  data (wavelet_blur image' radius) b c y x
  == data (wavelet_blur image radius) b c y x + k.
Proof.
intros Hshape Hk b c y x.
destruct (wavelet_blur_taps image radius b c y x) as (rad & -> & H').
rewrite (H' image' Hshape).
rewrite !(padded_offset image image' k rad) by assumption. ring.
Qed.

Lemma decomposition_loop_offset (k : Q) (levels : nat) :
forall (i : Z) (image image' high high' : Tensor) (low low' : option Tensor),
  shape image' = shape image ->
  (forall b c y x, data image' b c y x == data image b c y x + k) ->
  shape high' = shape high ->
  (forall b c y x, data high' b c y x == data high b c y x) ->
  exists l l',
    snd (decomposition_loop (S levels) i image high low) = Some l
    /\ snd (decomposition_loop (S levels) i image' high' low') = Some l'
    /\ shape (fst (decomposition_loop (S levels) i image' high' low'))
       = shape (fst (decomposition_loop (S levels) i image high low))
    /\ (forall b c y x,
           data (fst (decomposition_loop (S levels) i image' high' low'))
                b c y x
           == data (fst (decomposition_loop (S levels) i image high low))
                   b c y x)
    /\ shape l' = shape l
    /\ (forall b c y x, data l' b c y x == data l b c y x + k).
Proof.
induction levels as [|levels IH];
  intros i image image' high high' low low' Hs Hk Hhs Hh.
- exists (wavelet_blur image (2 ^ i)), (wavelet_blur image' (2 ^ i)).
  cbn [decomposition_loop fst snd].
  split; [reflexivity|]. split; [reflexivity|]. split; [exact Hhs|].
  split; [|split; [exact Hs|now apply wavelet_blur_offset]].
  intros b c y x. cbn [iadd sub data].
  rewrite Hh, Hk, (wavelet_blur_offset image image' k) by assumption. ring.
- change (decomposition_loop (S (S levels)) i image high low)
    with (decomposition_loop (S levels) (i + 1)%Z
            (wavelet_blur image (2 ^ i))
            (iadd high (sub image (wavelet_blur image (2 ^ i))))
            (Some (wavelet_blur image (2 ^ i)))).
  change (decomposition_loop (S (S levels)) i image' high' low')
    with (decomposition_loop (S levels) (i + 1)%Z
            (wavelet_blur image' (2 ^ i))
            (iadd high' (sub image' (wavelet_blur image' (2 ^ i))))
            (Some (wavelet_blur image' (2 ^ i)))).
  apply IH.
  + exact Hs.
  + now apply wavelet_blur_offset.
  + exact Hhs.
  + intros b c y x. cbn [iadd sub data].
    rewrite Hh, Hk, (wavelet_blur_offset image image' k) by assumption. ring.
Qed.

(** X27: Adding a constant to every value of the content does not change the
  wavelet reconstruction: the constant goes to the content's
  low-frequency component, which the reconstruction drops, and the
  colours come from the style alone.  The two reconstructions raise
  together (when the shapes cannot be broadcast) or return tensors of
  one shape with equal values. *)
Theorem wavelet_reconstruction_ignores_content_offset
      (safe_interpolate_operation : Tensor -> Z * Z -> Tensor)
      (content_feat content_feat' style_feat : Tensor) (k : Q) :
shape content_feat' = shape content_feat ->
(forall b c y x,
    data content_feat' b c y x == data content_feat b c y x + k) ->
match wavelet_reconstruction safe_interpolate_operation content_feat
                             style_feat,
      wavelet_reconstruction safe_interpolate_operation content_feat'
                             style_feat with
| Some result, Some result' =>
    shape result' = shape result
    /\ forall b c y x, data result' b c y x == data result b c y x
| None, None => True
| _, _ => False
end.
Proof.
intros Hs Hk. unfold wavelet_reconstruction, height, width.
rewrite Hs.
set (style := if negb (shape_eqb (shape content_feat) (shape style_feat))
              then safe_interpolate_operation
                     style_feat (snd (fst (shape content_feat)),
                                 snd (shape content_feat))
              else style_feat).
destruct (decomposition_loop_offset k 4 0%Z content_feat content_feat'
            (zeros_like content_feat) (zeros_like content_feat') None None
            Hs Hk) as (l & l' & Hl & Hl' & Hfs & Hf & _ & _).
{ cbn [zeros_like shape]. exact Hs. }
{ intros b c y x. reflexivity. }
destruct (wavelet_decomposition_sum style 4) as (sh & sl & -> & _ & _ & _).
unfold wavelet_decomposition.
destruct (decomposition_loop 5 0 content_feat (zeros_like content_feat) None)
  as [ch o]. cbn [fst snd] in *. subst o.
destruct (decomposition_loop 5 0 content_feat' (zeros_like content_feat') None)
  as [ch' o']. cbn [fst snd] in *. subst o'.
rewrite Hfs.
set (sl' := if negb (shape_eqb (shape ch) (shape sl))
            then safe_interpolate_operation
                   sl (snd (fst (shape ch)), snd (shape ch))
            else sl).
unfold add. rewrite Hfs.
destruct (broadcast_shapes (shape ch) (shape sl'))
  as [[[[sb sc] sh'] sw]|]; [|exact I].
cbn [clamp shape data]. split; [reflexivity|].
intros b c y x. unfold expand, batch, channels, height, width.
rewrite Hfs, Hf. reflexivity.
Qed.

Lemma wavelet_reconstruction_ignores_content_offset_witness :
match wavelet_reconstruction Run.resize Run.small_tensor Run.small_tensor,
      wavelet_reconstruction
        Run.resize
        (mkTensor (shape Run.small_tensor)
                  (fun b c y x => data Run.small_tensor b c y x + (1 # 4)))
        Run.small_tensor with
| Some result, Some result' =>
    shape result' = shape result
    /\ forall b c y x, data result' b c y x == data result b c y x
| None, None => True
| _, _ => False
end.
Proof.
apply (wavelet_reconstruction_ignores_content_offset
         Run.resize Run.small_tensor
         (mkTensor (shape Run.small_tensor)
                   (fun b c y x => data Run.small_tensor b c y x + (1 # 4)))
         Run.small_tensor (1 # 4)).
- reflexivity.
- intros b c y x. reflexivity.
Defined.

End WaveletRanges.

(* ================================================================== *)
(** * AdaIN: an image against itself, and the content's offset *)

Section AdaINInvariance.

Import AdaIN.
Local Open Scope R_scope.

Lemma calc_std_pos (x : Plane) : (2 <= length x)%nat -> 0 < snd (calc_mean_std x).
Proof.
intros H. pose proof (var_nonneg x H). pose proof eps_pos.
unfold calc_mean_std. cbn [snd]. apply sqrt_lt_R0. lra.
Qed.

Lemma adain_plane_same (x : Plane) :
(2 <= length x)%nat -> adain_plane x x = x.
Proof.
intros H. pose proof (calc_std_pos x H) as Hs.
unfold adain_plane. destruct (calc_mean_std x) as [m s] eqn:E.
cbn [snd] in Hs.
rewrite <- (map_id x) at 2. apply map_ext.
intros v. field. lra.
Qed.

Lemma mean_offset (x : Plane) (k : R) :
(2 <= length x)%nat -> mean (map (fun v => v + k) x) = mean x + k.
Proof.
intros H. apply INR_length_ge in H.
unfold mean. rewrite length_map.
rewrite (map_ext _ (fun v => 1 * v + k)) by (intros; ring).
rewrite Rsum_affine. field. lra.
Qed.

Lemma var_offset (x : Plane) (k : R) :
(2 <= length x)%nat -> var (map (fun v => v + k) x) = var x.
Proof.
intros H. unfold var. rewrite (mean_offset x k H), length_map, map_map.
f_equal. f_equal. apply map_ext. intros v. ring.
Qed.

(** X28: AdaIN of a tensor against itself gives the tensor back, for planes of
  at least two values. *)
Theorem adain_against_itself (feat : Tensor) :
Forall (Forall (fun p : Plane => (2 <= length p)%nat)) feat ->
adaptive_instance_normalization feat feat = Some feat.
Proof.
intros H. unfold adaptive_instance_normalization.
assert (Hlen : forallb (fun p : list Plane * list Plane =>
                          (length (fst p) =? length (snd p))%nat)
                       (combine feat feat) = true).
{ clear H. induction feat as [|c feat IH]; [reflexivity|].
  cbn [combine forallb fst snd]. now rewrite Nat.eqb_refl, IH. }
rewrite Hlen, Nat.eqb_refl. cbn [andb]. f_equal. clear Hlen.
induction H as [|channels feat Hc _ IH]; [reflexivity|].
cbn [zip_with]. rewrite IH. f_equal.
induction Hc as [|p channels Hp _ IHc]; [reflexivity|].
cbn [zip_with]. now rewrite IHc, adain_plane_same.
Qed.

Lemma adain_against_itself_witness :
adaptive_instance_normalization Run.contrast_style Run.contrast_style
= Some Run.contrast_style.
Proof.
apply (adain_against_itself Run.contrast_style).
repeat constructor.
Defined.

(** X29: AdaIN does not see a constant added to the content: the mean it
  subtracts moves with the content and the variance does not change. *)
Theorem adain_ignores_content_offset (content style : Plane) (k : R) :
(2 <= length content)%nat ->
adain_plane (map (fun v => v + k) content) style = adain_plane content style.
Proof.
intros H. unfold adain_plane, calc_mean_std.
rewrite (mean_offset content k H), (var_offset content k H), map_map.
apply map_ext. intros v. unfold Rdiv. ring.
Qed.

Lemma adain_ignores_content_offset_witness :
adain_plane (map (fun v => v + 3) [0; 1]) [-1; 1] = adain_plane [0; 1] [-1; 1].
Proof.
apply (adain_ignores_content_offset [0; 1] [-1; 1] 3). simpl. lia.
Defined.

End AdaINInvariance.

(* ================================================================== *)
(** * The adaptive blend of wavelet and HSV results *)

Section AdaptiveBlend.

Import Adaptive.
Local Open Scope R_scope.

Lemma sigmoid_range (x : R) : 0 < sigmoid x < 1.
Proof.
unfold sigmoid. pose proof (exp_pos (- x)) as He.
split.
- apply Rdiv_lt_0_compat; lra.
- apply (Rmult_lt_reg_r (1 + exp (- x))); [lra|].
  unfold Rdiv. rewrite Rmult_assoc, Rinv_l by lra. lra.
Qed.

Lemma blend_weight_cases (content_sat style_sat wavelet_sat : R) :
blend_weight content_sat style_sat wavelet_sat
= if Rlt_dec (oversaturation_threshold * (1 / 2)) (wavelet_sat - style_sat)
  then sigmoid (blend_sharpness
                * (content_sat - style_sat - oversaturation_threshold))
  else 0.
Proof.
unfold blend_weight.
pose proof (sigmoid_range
              (blend_sharpness
               * (content_sat - style_sat - oversaturation_threshold)))
  as [H0 H1].
destruct (Rlt_dec _ _).
- rewrite Rmult_1_r. rewrite Rmax_left by lra. apply Rmin_left. lra.
- rewrite Rmult_0_r. rewrite Rmax_left by lra. apply Rmin_left. lra.
Qed.

(** X30: The blend weight lies in [0, 1) and never reaches 1; it is zero, and
  the wavelet result is returned as it is, wherever the wavelet result
  exceeds the style's saturation by at most half the threshold; in
  general the blended value lies between the wavelet and the HSV
  result. *)
Theorem adaptive_blend_between
      (wavelet_result hsv_result content_sat style_sat wavelet_sat : R) :
(0 <= blend_weight content_sat style_sat wavelet_sat < 1)
/\ (wavelet_sat - style_sat <= oversaturation_threshold * (1 / 2) ->
    blend wavelet_result hsv_result content_sat style_sat wavelet_sat
    = wavelet_result)
/\ Rmin wavelet_result hsv_result
   <= blend wavelet_result hsv_result content_sat style_sat wavelet_sat
   <= Rmax wavelet_result hsv_result.
Proof.
assert (Hw : 0 <= blend_weight content_sat style_sat wavelet_sat < 1).
{ rewrite blend_weight_cases. destruct (Rlt_dec _ _); [|lra].
  pose proof (sigmoid_range
                (blend_sharpness
                 * (content_sat - style_sat - oversaturation_threshold))).
  lra. }
split; [exact Hw|]. split.
- intros Hlow. unfold blend. rewrite blend_weight_cases.
  destruct (Rlt_dec _ _); [lra|]. ring.
- unfold blend.
  set (w := blend_weight content_sat style_sat wavelet_sat) in *.
  unfold Rmin, Rmax. destruct (Rle_dec wavelet_result hsv_result); nra.
Qed.

End AdaptiveBlend.
